(** * Pulse: documentation module extractor

    A shallow embedding of the four stages of the extractor
    ([pulse/crawler.py], [pulse/parser.py], [pulse/inference.py],
    [pulse/summarizer.py]) and of the pipeline that sequences them
    ([pulse/pipeline.py]), with the properties of the specification
    stated and proved over the embedding.

    Conventions.
    - A Python [str] is a list of Unicode code points ([list N]); [len] is
      [length], [s[:n]] is [firstn n s].
    - A Python [dict] is an association list in insertion order: the
      pipeline's output order is the iteration order of its dicts.
    - The Unicode character database of the interpreter (case mappings,
      the decimal-digit class) is a parameter, the class [UnicodeDB];
      [ascii_db] is its restriction to ASCII, which is how the
      interpreter behaves on the ASCII inputs used in the examples.
    - What lies between the network and the program (HTTP responses,
      the HTML tree builder, [urllib.parse]) is a parameter too, the
      classes [UrlLib] and [Crawler.Web]. *)

From Stdlib Require Import String Ascii.
From Stdlib Require Import List Arith ZArith NArith Bool Lia.
From Stdlib Require Import Permutation Sorted Relations Wellfounded.
From Equations Require Import Equations.
Import ListNotations.
Local Open Scope list_scope.

Set Implicit Arguments.

(* ===================================================================== *)
(** ** Python strings *)
(* ===================================================================== *)

Module PyStr.

Definition char := N.
Definition str := list char.

Definition str_eq_dec : forall a b : str, {a = b} + {a <> b} :=
  list_eq_dec N.eq_dec.

Definition str_eqb (a b : str) : bool :=
  if str_eq_dec a b then true else false.

(** The code points of an ASCII literal. *)
Fixpoint py (s : string) : str :=
  match s with
  | EmptyString => []
  | String a s' => N_of_ascii a :: py s'
  end.

(** [Py_UNICODE_ISSPACE]: the whitespace of [str.strip], [str.split] and
    of the regular-expression class [\s] on [str] patterns. *)
Definition is_space (c : char) : bool :=
  ((9 <=? c) && (c <=? 13) || (28 <=? c) && (c <=? 32)
   || (c =? 133) || (c =? 160) || (c =? 5760)
   || (8192 <=? c) && (c <=? 8202)
   || (c =? 8232) || (c =? 8233) || (c =? 8239) || (c =? 8287)
   || (c =? 12288))%N.

Fixpoint drop_while (p : char -> bool) (s : str) : str :=
  match s with
  | [] => []
  | c :: s' => if p c then drop_while p s' else s
  end.

Fixpoint take_while (p : char -> bool) (s : str) : str :=
  match s with
  | [] => []
  | c :: s' => if p c then c :: take_while p s' else []
  end.

Definition lstrip (s : str) : str := drop_while is_space s.
Definition rstrip (s : str) : str := rev (drop_while is_space (rev s)).

(** [s.strip()] *)
Definition strip (s : str) : str := rstrip (lstrip s).

(** [s.rstrip(c)] for a one-character argument. *)
Definition rstrip_char (c : char) (s : str) : str :=
  rev (drop_while (N.eqb c) (rev s)).

(** [s.startswith(p)] *)
Fixpoint startswith (p s : str) : bool :=
  match p, s with
  | [], _ => true
  | _ :: _, [] => false
  | a :: p', b :: s' => (a =? b)%N && startswith p' s'
  end.

(** [s.endswith(p)] *)
Definition endswith (p s : str) : bool := startswith (rev p) (rev s).

(** [p in s] for strings: [p] occurs as a substring of [s]. *)
Fixpoint contains (p s : str) : bool :=
  startswith p s ||
  match s with
  | [] => false
  | _ :: s' => contains p s'
  end.

(** [c in s] for a one-character [c]. *)
Definition has_char (c : char) (s : str) : bool := existsb (N.eqb c) s.

(** [s.replace(c, '')] for a one-character [c]. *)
Definition remove_char (c : char) (s : str) : str :=
  filter (fun x => negb (x =? c)%N) s.

(** [s.replace(a, b)] for one-character [a] and [b]. *)
Definition replace_char (a b : char) (s : str) : str :=
  map (fun x => if (x =? a)%N then b else x) s.

(** [sep.join(parts)] *)
Fixpoint join (sep : str) (parts : list str) : str :=
  match parts with
  | [] => []
  | [p] => p
  | p :: rest => p ++ sep ++ join sep rest
  end.

(** [s.split(c)] for a one-character separator: the pieces between the
    occurrences of [c], empty pieces included. *)
Fixpoint split_char (c : char) (s : str) : list str :=
  match s with
  | [] => [[]]
  | x :: s' =>
      if (x =? c)%N then [] :: split_char c s'
      else match split_char c s' with
           | [] => [[x]]
           | w :: ws => (x :: w) :: ws
           end
  end.

(** [s.split()]: the maximal runs of non-whitespace characters. *)
Fixpoint split_ws_aux (cur : str) (s : str) : list str :=
  match s with
  | [] => match cur with [] => [] | _ => [rev cur] end
  | c :: s' =>
      if is_space c
      then match cur with
           | [] => split_ws_aux [] s'
           | _ => rev cur :: split_ws_aux [] s'
           end
      else split_ws_aux (c :: cur) s'
  end.

Definition split_ws (s : str) : list str := split_ws_aux [] s.

(** [re.sub(r'\s+', ' ', s)]: every maximal whitespace run becomes one
    space.  [in_run] tells that the previous character belonged to the
    run being replaced. *)
Fixpoint collapse_ws_from (in_run : bool) (s : str) : str :=
  match s with
  | [] => []
  | c :: s' =>
      if is_space c
      then if in_run then collapse_ws_from true s'
           else 32%N :: collapse_ws_from true s'
      else c :: collapse_ws_from false s'
  end.

Definition collapse_ws (s : str) : str := collapse_ws_from false s.

End PyStr.

Import PyStr.

(* ===================================================================== *)
(** ** The interpreter's Unicode tables *)
(* ===================================================================== *)

(** What the program reads from the Unicode character database. *)
Class UnicodeDB := {
  (** category Nd: the class [\d] of a [str] pattern *)
  uc_isdecimal : char -> bool;
  (** [c.isupper()] for a one-character string *)
  uc_isupper : char -> bool;
  (** the simple lower-case mapping used by [re.IGNORECASE] *)
  uc_tolower : char -> char;
  (** [s.lower()] *)
  uc_lower : str -> str;
  (** [s.title()] *)
  uc_title : str -> str
}.

Module Ascii7.

Definition isdecimal (c : char) : bool := ((48 <=? c) && (c <=? 57))%N.
Definition isupper (c : char) : bool := ((65 <=? c) && (c <=? 90))%N.
Definition islower (c : char) : bool := ((97 <=? c) && (c <=? 122))%N.
Definition tolower (c : char) : char := if isupper c then (c + 32)%N else c.
Definition toupper (c : char) : char := if islower c then (c - 32)%N else c.

(** [str.title]: a cased character is upper-cased when the previous
    character is not cased and lower-cased otherwise. *)
Fixpoint title_from (prev_cased : bool) (s : str) : str :=
  match s with
  | [] => []
  | c :: s' =>
      (if prev_cased then tolower c else toupper c)
        :: title_from (isupper c || islower c) s'
  end.

End Ascii7.

(** The tables restricted to ASCII: characters above U+007F are taken as
    caseless non-digits. *)
Definition ascii_db : UnicodeDB := {|
  uc_isdecimal := Ascii7.isdecimal;
  uc_isupper := Ascii7.isupper;
  uc_tolower := Ascii7.tolower;
  uc_lower := map Ascii7.tolower;
  uc_title := Ascii7.title_from false
|}.

(* ===================================================================== *)
(** ** The regular expressions of the program *)
(* ===================================================================== *)

Module Regex.

Section WithDB.
Context {db : UnicodeDB}.

(** A literal pattern character under [re.IGNORECASE]: the subject
    character matches when its lower-case mapping is that of the
    pattern character; the compiler adds U+0131 to [i] and U+017F to
    [s] (the case-insensitive equivalences of [sre_compile]). *)
Definition ci_eq (p c : char) : bool :=
  ((uc_tolower c =? uc_tolower p)
   || (uc_tolower p =? 105) && (c =? 305)
   || (uc_tolower p =? 115) && (c =? 383))%N.

(** The class [[a-z]] (or [[A-Z]]) under [re.IGNORECASE]. *)
Definition ci_letter (c : char) : bool :=
  ((97 <=? uc_tolower c) && (uc_tolower c <=? 122)
   || (c =? 305) || (c =? 383))%N.

(** The literal [p] matches case-insensitively at the start of [s]. *)
Fixpoint ci_startswith (p s : str) : bool :=
  match p, s with
  | [], _ => true
  | _ :: _, [] => false
  | a :: p', b :: s' => ci_eq a b && ci_startswith p' s'
  end.

(** Boolean matchers in continuation style, for [re.match]: [k] is the
    rest of the pattern.  A pattern matches when some way of splitting
    the subject matches, which is what backtracking decides. *)
Fixpoint m_lit (p : str) (k : str -> bool) (s : str) : bool :=
  match p, s with
  | [], _ => k s
  | _ :: _, [] => false
  | a :: p', b :: s' => ci_eq a b && m_lit p' k s'
  end.

Fixpoint m_star (cls : char -> bool) (k : str -> bool) (s : str) : bool :=
  k s ||
  match s with
  | [] => false
  | c :: s' => cls c && m_star cls k s'
  end.

Definition m_plus (cls : char -> bool) (k : str -> bool) (s : str) : bool :=
  match s with
  | [] => false
  | c :: s' => cls c && m_star cls k s'
  end.

Definition m_one (cls : char -> bool) (k : str -> bool) (s : str) : bool :=
  match s with
  | [] => false
  | c :: s' => cls c && k s'
  end.

(** Any continuation: the pattern ends here. *)
Definition m_any (s : str) : bool := true.

(** [$] without [re.MULTILINE]: at the end, or before a final newline. *)
Definition m_eos (s : str) : bool :=
  match s with
  | [] => true
  | [c] => (c =? 10)%N
  | _ => false
  end.

(** [re.search] for a literal under [re.IGNORECASE]: the literal
    matches somewhere in [s]. *)
Fixpoint ci_search (p s : str) : bool :=
  ci_startswith p s
  || match s with
     | [] => false
     | _ :: s' => ci_search p s'
     end.

End WithDB.

(** [re.sub(pattern, '', s)] for a pattern that never matches the empty
    string: [m s] is the length of the match of the pattern at
    the start of [s], if there is one.  The scan deletes the leftmost
    match, resumes after it, and copies the characters no match
    starts at. *)
Equations? sub_del (m : str -> option nat) (s : str) : str
  by wf (length s) lt :=
  sub_del m [] := [];
  sub_del m (c :: s') with m (c :: s') => {
    | Some (S n) := sub_del m (skipn n s');
    | _ := c :: sub_del m s' }.
Proof.
  all: simpl; try lia.
  pose proof (length_skipn n s'). lia.
Qed.

End Regex.

(* ===================================================================== *)
(** ** Python containers and formatting *)
(* ===================================================================== *)

Module Py.

(** A [dict] with string keys, in insertion order. *)
Definition dict (V : Type) := list (str * V).

Fixpoint dict_get {V} (k : str) (d : dict V) : option V :=
  match d with
  | [] => None
  | (k', v) :: d' => if str_eqb k k' then Some v else dict_get k d'
  end.

(** [k in d] *)
Definition dict_mem {V} (k : str) (d : dict V) : bool :=
  match dict_get k d with Some _ => true | None => false end.

(** [d[k] = v]: an existing key keeps its place. *)
Fixpoint dict_set {V} (k : str) (v : V) (d : dict V) : dict V :=
  match d with
  | [] => [(k, v)]
  | (k', v') :: d' =>
      if str_eqb k k' then (k, v) :: d' else (k', v') :: dict_set k v d'
  end.

(** [d.get(k, default)] *)
Definition dict_get_default {V} (k : str) (default : V) (d : dict V) : V :=
  match dict_get k d with Some v => v | None => default end.

(** [x in l] for a list of strings. *)
Definition str_in (x : str) (l : list str) : bool := existsb (str_eqb x) l.

(** [not s], the truth value of a string. *)
Definition is_empty {A} (l : list A) : bool :=
  match l with [] => true | _ => false end.

(** [l.sort(key=..., reverse=True)] and [sorted(..., reverse=True)]: a
    stable sort, elements of equal key keep their order. *)
Fixpoint insert_desc {A} (key : A -> Z) (x : A) (l : list A) : list A :=
  match l with
  | [] => [x]
  | y :: l' =>
      if (key x <? key y)%Z then y :: insert_desc key x l' else x :: l
  end.

Definition sort_desc {A} (key : A -> Z) (l : list A) : list A :=
  fold_right (insert_desc key) [] l.

(** [str(n)] and the [{n}] of an f-string, for an [int]. *)
Fixpoint digits_from (fuel n : nat) (acc : str) : str :=
  match fuel with
  | O => acc
  | S fuel' =>
      let acc' := N.of_nat (48 + n mod 10) :: acc in
      if n <? 10 then acc' else digits_from fuel' (n / 10) acc'
  end.

Definition str_of_nat (n : nat) : str := digits_from (S n) n [].

Definition str_of_int (z : Z) : str :=
  if (z <? 0)%Z then 45%N :: str_of_nat (Z.abs_nat z)
  else str_of_nat (Z.abs_nat z).

End Py.

Import Py.

(* ===================================================================== *)
(** ** [urllib.parse] *)
(* ===================================================================== *)

(** The six components of [urlparse]. *)
Record parsed_url := ParseResult {
  scheme : str;
  netloc : str;
  path : str;
  params : str;
  query : str;
  fragment : str
}.

Class UrlLib := {
  urlparse : str -> parsed_url;
  urlunparse : parsed_url -> str;
  urljoin : str -> str -> str
}.

(* ===================================================================== *)
(** ** parser.py *)
(* ===================================================================== *)

Module Parser.

(** The tree that [BeautifulSoup(html, 'html.parser')] builds: text
    nodes and tags with their attributes and children.  Comments and
    the like are not part of it: no function below sees them. *)
#[local] Unset Elimination Schemes.
Inductive node :=
| Text (s : str)
| Tag (name : str) (attrs : dict str) (children : list node).
#[local] Set Elimination Schemes.

(** The document: the children of the [BeautifulSoup] object. *)
Definition soup := list node.

(** The tags named [name] in and below [n], in document order. *)
Fixpoint find_all_in (name : str) (n : node) : list node :=
  match n with
  | Text _ => []
  | Tag nm _ children =>
      (if str_eqb nm name then [n] else [])
        ++ flat_map (find_all_in name) children
  end.

(** [soup.find_all(name)] *)
Definition find_all (name : str) (s : soup) : list node :=
  flat_map (find_all_in name) s.

(** The text nodes in and below [n], in document order. *)
Fixpoint strings (n : node) : list str :=
  match n with
  | Text s => [s]
  | Tag _ _ children => flat_map strings children
  end.

(** [tag.get_text(strip=True)]: every string stripped, the empty ones
    skipped, the rest concatenated. *)
Definition get_text_strip (n : node) : str :=
  concat (filter (fun s => negb (is_empty s)) (map strip (strings n))).

(** [tag.get(key, default)] *)
Definition tag_get (key default : str) (n : node) : str :=
  match n with
  | Text _ => default
  | Tag _ attrs _ => dict_get_default key default attrs
  end.

Record heading := Heading {
  level : Z;
  text : str;
  id : str;
  tag : str
}.

(** An element of [content_blocks]. *)
Record content_block := ContentBlock {
  block_type : str;
  block_text : str;
  block_tag : str
}.

(** The dict that [ContentParser.parse] returns. *)
Record parsed_page := ParsedPage {
  pp_url : str;
  pp_title : str;
  pp_headings : list heading;
  pp_content_blocks : list content_block;
  pp_text : str
}.

(** [f'h{level}'] *)
Definition h_name (level : Z) : str := py "h" ++ str_of_int level.

(** The loop body of [_extract_headings] for one tag. *)
Definition heading_of (level : Z) (t : node) : list heading :=
  let text := get_text_strip t in
  if negb (is_empty text)
  then [Heading level text (tag_get (py "id") [] t) (h_name level)]
  else [].

Definition _extract_headings (s : soup) : list heading :=
  flat_map
    (fun level => flat_map (heading_of level) (find_all (h_name level) s))
    [1; 2; 3; 4]%Z.

(** A selector of [BOILERPLATE_SELECTORS]: a tag name, or a class with
    its dot. *)
Inductive selector :=
| ByTag (name : str)
| ByClass (class : str).

Definition BOILERPLATE_SELECTORS : list selector :=
  [ByTag (py "header"); ByTag (py "footer"); ByTag (py "nav");
   ByTag (py "aside");
   ByClass (py "header"); ByClass (py "footer"); ByClass (py "navbar");
   ByClass (py "sidebar"); ByClass (py "menu");
   ByClass (py "navigation"); ByClass (py "nav-menu");
   ByClass (py "site-header"); ByClass (py "site-footer");
   ByTag (py "script"); ByTag (py "style"); ByTag (py "noscript");
   ByTag (py "iframe");
   ByClass (py "advertisement"); ByClass (py "ads");
   ByClass (py "ad-banner");
   ByClass (py "cookie-banner"); ByClass (py "cookie-consent");
   ByClass (py "social-share"); ByClass (py "share-buttons")].

(** The value of the [class] attribute as the tree builder keeps it:
    the list of its words. *)
Definition classes (n : node) : list str :=
  match n with
  | Text _ => []
  | Tag _ attrs _ => split_ws (dict_get_default (py "class") [] attrs)
  end.

(** The element is one that [soup.select(selector)] returns. *)
Definition selected (sel : selector) (n : node) : bool :=
  match n with
  | Text _ => false
  | Tag name _ _ =>
      match sel with
      | ByTag t => str_eqb name t
      | ByClass c => str_in c (classes n)
      end
  end.

(** [element.decompose()] for every element of
    [soup.select(selector)]: the elements go, with all they hold. *)
Fixpoint decompose_in (sel : selector) (n : node) : list node :=
  match n with
  | Text _ => [n]
  | Tag name attrs children =>
      if selected sel n then []
      else [Tag name attrs (flat_map (decompose_in sel) children)]
  end.

Definition decompose_selected (sel : selector) (s : soup) : soup :=
  flat_map (decompose_in sel) s.

(** The soup after [_remove_boilerplate], which changes it in place. *)
Definition _remove_boilerplate (s : soup) : soup :=
  fold_left (fun s sel => decompose_selected sel s) BOILERPLATE_SELECTORS s.

(** [soup.find(name)]: the first tag of that name, in document
    order. *)
Definition find (name : str) (s : soup) : option node :=
  match find_all name s with
  | t :: _ => Some t
  | [] => None
  end.

Definition _extract_title (s : soup) : str :=
  let title :=
    match find (py "title") s with
    | Some title_tag => get_text_strip title_tag
    | None => []
    end in
  if negb (is_empty title) then title
  else
    match find (py "h1") s with
    | Some h1 => get_text_strip h1
    | None => []
    end.

(** The nodes in and below [n], in document order. *)
Fixpoint self_and_descendants (n : node) : list node :=
  n :: match n with
       | Text _ => []
       | Tag _ _ children => flat_map self_and_descendants children
       end.

(** [element.descendants], from the children of the element. *)
Definition descendants (children : list node) : list node :=
  flat_map self_and_descendants children.

(** [get_text(separator=' ', strip=True)] of an element with these
    children. *)
Definition get_text_sep (children : list node) : str :=
  join (py " ")
    (filter (fun s => negb (is_empty s))
       (map strip (flat_map strings children))).

Section WithTables.
Context {db : UnicodeDB}.

(** [re.compile(r'content|main|body|documentation', re.I).search] *)
Definition content_class (s : str) : bool :=
  existsb (fun word => Regex.ci_search word s)
    [py "content"; py "main"; py "body"; py "documentation"].

(** The filter [class_=...] of [find]: one of the classes matches, or
    the classes joined by spaces do. *)
Definition has_content_class (n : node) : bool :=
  existsb content_class (classes n)
  || match n with
     | Text _ => false
     | Tag _ attrs _ =>
         match dict_get (py "class") attrs with
         | Some _ => content_class (join (py " ") (classes n))
         | None => false
         end
     end.

(** The children of the main content area: of the first [main], else
    of the first [article], else of the first [div] with a content
    class, else of the first [body], else of the soup. *)
Definition main_content (s : soup) : list node :=
  let found :=
    match find (py "main") s with
    | Some n => Some n
    | None =>
        match find (py "article") s with
        | Some n => Some n
        | None =>
            match List.find has_content_class (find_all (py "div") s) with
            | Some n => Some n
            | None => find (py "body") s
            end
        end
    end in
  match found with
  | Some (Tag _ _ children) => children
  | _ => s
  end.

(** The loop body of [_extract_content_blocks] for one descendant. *)
Definition block_of (element : node) : list content_block :=
  match element with
  | Text _ => []
  | Tag name _ _ =>
      if str_in name [py "p"; py "li"; py "td"; py "th"]
      then
        let text := get_text_strip element in
        if negb (is_empty text) && (20 <? length text)
        then [ContentBlock name text name]
        else []
      else []
  end.

Definition _extract_content_blocks (s : soup) : list content_block :=
  flat_map block_of (descendants (main_content s)).

Definition _extract_text (s : soup) : str :=
  let text := get_text_sep (main_content s) in
  let text := collapse_ws text in
  strip text.

(** [parse], from the tree that [BeautifulSoup(html, 'html.parser')]
    built. *)
Definition parse (s : soup) (url : str) : parsed_page :=
  let s := _remove_boilerplate s in
  let title := _extract_title s in
  let headings := _extract_headings s in
  let content_blocks := _extract_content_blocks s in
  let text := _extract_text s in
  ParsedPage url title headings content_blocks text.

End WithTables.

(** The outcome of [extract_section_content]: it returns, or [int]
    raises [ValueError], or an index raises [IndexError]. *)
Inductive outcome :=
| Returned (content : str)
| ValueError
| IndexError.

Section WithDigits.

(** [int(c)] for a one-character string: the value of a decimal digit;
    [None] when [int] raises [ValueError]. *)
Variable int_of_char : char -> option Z.

(** [int(name[1])] *)
Definition level_of_name (name : str) : outcome + Z :=
  match name with
  | _ :: c :: _ =>
      match int_of_char c with
      | Some level => inr level
      | None => inl ValueError
      end
  | _ => inl IndexError
  end.

(** The loop of [extract_section_content] from [current] on: [fuel] is
    what [depth] leaves of [max_depth], [siblings] are [current] and
    its next siblings. *)
Fixpoint section_loop (heading_level : Z) (fuel : nat)
    (siblings : list node) (content_parts : list str) : outcome :=
  match fuel, siblings with
  | O, _ => Returned (join (py " ") content_parts)
  | _, [] => Returned (join (py " ") content_parts)
  | S fuel', current :: rest =>
      match current with
      | Text [] => Returned (join (py " ") content_parts)
      | Text _ => section_loop heading_level fuel' rest content_parts
      | Tag name _ _ =>
          let collect :=
            if str_in name [py "p"; py "li"; py "div"; py "ul"; py "ol"]
            then
              let text := get_text_strip current in
              if negb (is_empty text) then content_parts ++ [text]
              else content_parts
            else content_parts in
          if startswith (py "h") name
          then
            match level_of_name name with
            | inl raised => raised
            | inr next_level =>
                if (next_level <=? heading_level)%Z
                then Returned (join (py " ") content_parts)
                else section_loop heading_level fuel' rest collect
            end
          else section_loop heading_level fuel' rest collect
      end
  end.

(** [extract_section_content(heading, soup, max_depth)] for a heading
    tag named [heading_name] whose next siblings are [next_siblings]. *)
Definition extract_section_content (heading_name : str)
    (next_siblings : list node) (max_depth : Z) : outcome :=
  let heading_level :=
    if startswith (py "h") heading_name
    then level_of_name heading_name
    else inr 1%Z in
  match heading_level with
  | inl raised => raised
  | inr heading_level =>
      section_loop heading_level (Z.to_nat max_depth) next_siblings []
  end.

End WithDigits.

End Parser.

(* ===================================================================== *)
(** ** inference.py *)
(* ===================================================================== *)

Module Inference.

(** An entry of [all_headings]: a heading tagged with its page. *)
Record heading := Heading {
  level : Z;
  text : str;
  url : str;
  id : str
}.

(** A value of [page_content_map]. *)
Record page_content := PageContent {
  pc_text : str;
  pc_headings : list Parser.heading;
  pc_content_blocks : list Parser.content_block
}.

(** A value of the modules dict.  [description] is absent until the
    pipeline sets it. *)
Record ModuleNode := ModuleData {
  submodules : dict str;
  content : str;
  module_url : str;
  description : option str
}.

Section WithTables.
Context {db : UnicodeDB} {ul : UrlLib}.

(** [re.sub(r'^\d+\.?\d*\.?\d*\s*', '', text)].  The pattern matches at
    the start only; once [\d+] has a digit every later part may match
    nothing, so the greedy choices stand. *)
Definition skip_dot (s : str) : str :=
  match s with
  | c :: s' => if (c =? 46)%N then s' else s
  | [] => []
  end.

Definition strip_section_number (text : str) : str :=
  match text with
  | c :: _ =>
      if uc_isdecimal c
      then drop_while is_space
             (drop_while uc_isdecimal
                (skip_dot
                   (drop_while uc_isdecimal
                      (skip_dot (drop_while uc_isdecimal text)))))
      else text
  | [] => []
  end.

(** ['#', '*', '→', '►', '▼'] *)
Definition markers : list char := [35; 42; 8594; 9658; 9660]%N.

Definition _clean_heading (text : str) : str :=
  let text := strip text in
  let text := strip_section_number text in
  let text :=
    fold_left (fun t marker => strip (remove_char marker t)) markers text in
  let text :=
    if 100 <? length text then strip (firstn 100 text) else text in
  strip text.

(** [name and len(name) >= 3] *)
Definition name_ok (name : str) : bool :=
  negb (is_empty name) && (3 <=? length name).

(** The headings after the first one that satisfies [p]; [None] when
    there is none ([module_index == -1]). *)
Fixpoint after_first {A} (p : A -> bool) (l : list A) : option (list A) :=
  match l with
  | [] => None
  | x :: l' => if p x then Some l' else after_first p l'
  end.

(** The scan of [_find_submodules_for_module] from [module_index + 1]:
    it stops at the first heading of the module's level or above and
    collects the headings of the target level with a usable name. *)
Fixpoint collect_sub_headings (module_level : Z) (l : list heading)
  : list heading :=
  match l with
  | [] => []
  | h :: l' =>
      if (level h <=? module_level)%Z then []
      else if (level h =? module_level + 1)%Z
                && name_ok (_clean_heading (text h))
           then h :: collect_sub_headings module_level l'
           else collect_sub_headings module_level l'
  end.

Definition _find_submodules_for_module
    (module_heading : heading)
    (candidate_submodules candidate_submodules2 all_headings : list heading)
  : dict str :=
  match after_first
          (fun h => str_eqb (text h) (text module_heading)
                    && str_eqb (url h) (url module_heading))
          all_headings with
  | None => []
  | Some rest =>
      fold_left
        (fun submodules sub_heading =>
           dict_set (_clean_heading (text sub_heading)) [] submodules)
        (collect_sub_headings (level module_heading) rest)
        []
  end.

(** [f"{url}::{text}"] *)
Definition heading_key (u t : str) : str := u ++ py "::" ++ t.

(** The content lookup shared by strategies 1 and 2. *)
Definition module_content_for
    (u t : str) (content_map : dict str)
    (page_content_map : dict page_content) : str :=
  let module_content :=
    dict_get_default (heading_key u t)
      (dict_get_default t [] content_map) content_map in
  if is_empty module_content
  then match dict_get u page_content_map with
       | Some pc => pc_text pc
       | None => module_content
       end
  else module_content.

(** The end of both loop bodies: create the module when its name is
    new, then add the submodules not yet known. *)
Definition add_module
    (module_name : str) (h : heading) (subs : dict str)
    (content_map : dict str) (page_content_map : dict page_content)
    (modules : dict ModuleNode) : dict ModuleNode :=
  let modules :=
    if negb (dict_mem module_name modules)
    then dict_set module_name
           (ModuleData []
              (module_content_for (url h) (text h) content_map
                 page_content_map)
              (url h) None)
           modules
    else modules in
  fold_left
    (fun modules sub =>
       match dict_get module_name modules with
       | Some md =>
           if negb (dict_mem (fst sub) (submodules md))
           then dict_set module_name
                  (ModuleData (dict_set (fst sub) (snd sub) (submodules md))
                     (content md) (module_url md) (description md))
                  modules
           else modules
       | None => modules
       end)
    subs modules.

(** The body of the loop of strategy 1. *)
Definition h1_step
    (h2_headings h3_headings headings : list heading)
    (content_map : dict str) (page_content_map : dict page_content)
    (modules : dict ModuleNode) (h1 : heading) : dict ModuleNode :=
  let module_name := _clean_heading (text h1) in
  if negb (name_ok module_name) then modules
  else
    let subs :=
      _find_submodules_for_module h1 h2_headings h3_headings headings in
    add_module module_name h1 subs content_map page_content_map modules.

(** [h2_counts]: a [defaultdict(int)] of the texts, in first-seen
    order. *)
Definition count_texts (hs : list heading) : dict Z :=
  fold_left
    (fun counts h =>
       dict_set (text h) (dict_get_default (text h) 0 counts + 1)%Z counts)
    hs [].

(** [sorted(h2_counts.items(), key=lambda x: x[1], reverse=True)[:15]] *)
Definition top_h2s (h2_headings : list heading) : list (str * Z) :=
  firstn 15 (sort_desc snd (count_texts h2_headings)).

(** The body of the loop of strategy 2. *)
Definition h2_step
    (h2_headings h3_headings headings : list heading)
    (content_map : dict str) (page_content_map : dict page_content)
    (modules : dict ModuleNode) (item : str * Z) : dict ModuleNode :=
  let h2_text := fst item in
  let module_name := _clean_heading h2_text in
  if negb (name_ok module_name) then modules
  else
    match find (fun h => str_eqb (text h) h2_text) h2_headings with
    | None => modules
    | Some h2_obj =>
        let subs :=
          _find_submodules_for_module h2_obj h3_headings [] headings in
        add_module module_name h2_obj subs content_map page_content_map
          modules
    end.

(** The path segments that can name a module. *)
Definition generic_segments : list str :=
  [py ""; py "docs"; py "documentation"; py "help"; py "support"].

Definition segments_of (u : str) : list str :=
  filter (fun s => negb (is_empty s) && negb (str_in s generic_segments))
    (split_char 47%N (path (urlparse u))).

(** [url_groups[k].append(h)] on a [defaultdict(list)]. *)
Definition group_append (k : str) (h : heading)
    (groups : dict (list heading)) : dict (list heading) :=
  dict_set k (dict_get_default k [] groups ++ [h]) groups.

Definition url_groups (headings : list heading) : dict (list heading) :=
  fold_left
    (fun groups h =>
       match segments_of (url h) with
       | [] => groups
       | seg :: _ =>
           let module_segment :=
             uc_title (replace_char 95%N 32%N (replace_char 45%N 32%N seg)) in
           if name_ok module_segment
           then group_append module_segment h groups
           else groups
       end)
    headings [].

Definition _infer_from_urls_and_titles
    (headings : list heading) (content_map : dict str)
    (page_content_map : dict page_content) : dict ModuleNode :=
  fold_left
    (fun modules group =>
       let module_name := fst group in
       let heading_list := snd group in
       if 2 <=? length heading_list
       then
         let subs :=
           fold_left
             (fun subs h =>
                if (2 <=? level h)%Z
                   && name_ok (_clean_heading (text h))
                then dict_set (_clean_heading (text h)) [] subs
                else subs)
             heading_list [] in
         dict_set module_name
           (ModuleData subs []
              (match heading_list with h :: _ => url h | [] => [] end)
              None)
           modules
       else modules)
    (url_groups headings) [].

Definition _build_hierarchy
    (headings : list heading) (content_map : dict str)
    (page_content_map : dict page_content) : dict ModuleNode :=
  let h1_headings := filter (fun h => (level h =? 1)%Z) headings in
  let h2_headings := filter (fun h => (level h =? 2)%Z) headings in
  let h3_headings := filter (fun h => (level h =? 3)%Z) headings in
  let modules : dict ModuleNode := [] in
  (* Strategy 1: H1 headings as modules *)
  let modules :=
    if negb (is_empty h1_headings)
    then fold_left
           (h1_step h2_headings h3_headings headings content_map
              page_content_map)
           h1_headings modules
    else modules in
  (* Strategy 2: if no H1, use dominant H2 as modules *)
  let modules :=
    if is_empty modules && negb (is_empty h2_headings)
    then fold_left
           (h2_step h2_headings h3_headings headings content_map
              page_content_map)
           (top_h2s h2_headings) modules
    else modules in
  (* Strategy 3: URL patterns if still no modules *)
  let modules :=
    if is_empty modules
    then _infer_from_urls_and_titles headings content_map page_content_map
    else modules in
  modules.

Definition _extract_content_for_heading
    (heading : Parser.heading) (all_page_headings : list Parser.heading)
    (page_text : str) (content_blocks : list Parser.content_block) : str :=
  match after_first
          (fun h => str_eqb (Parser.text h) (Parser.text heading)
                    && (Parser.level h =? Parser.level heading)%Z)
          all_page_headings with
  | None => firstn 500 page_text
  | Some rest =>
      let content_parts :=
        match rest with
        | next_heading :: _ =>
            if (Parser.level next_heading <=? Parser.level heading)%Z
            then []
            else [firstn 1000 page_text]
        | [] => []
        end in
      let content_parts :=
        if negb (is_empty content_blocks)
        then content_parts
             ++ map Parser.block_text (firstn 5 content_blocks)
        else content_parts in
      let result := strip (join (py " ") content_parts) in
      if negb (is_empty result) then result else firstn 500 page_text
  end.

(** The three collections that the loops of [infer_modules] fill. *)
Record collected := Collected {
  all_headings : list heading;
  heading_content_map : dict str;
  page_content_map : dict page_content
}.

Definition collect_heading (page : Parser.parsed_page) (acc : collected)
    (heading : Parser.heading) : collected :=
  let text_content := Parser.text heading in
  let heading_content :=
    _extract_content_for_heading heading (Parser.pp_headings page)
      (Parser.pp_text page) (Parser.pp_content_blocks page) in
  let content_map :=
    dict_set (heading_key (Parser.pp_url page) text_content)
      heading_content (heading_content_map acc) in
  let content_map :=
    if negb (dict_mem text_content content_map)
    then dict_set text_content heading_content content_map
    else content_map in
  Collected
    (all_headings acc
     ++ [Heading (Parser.level heading) text_content (Parser.pp_url page)
           (Parser.id heading)])
    content_map (page_content_map acc).

Definition collect_page (acc : collected) (page : Parser.parsed_page)
  : collected :=
  let acc :=
    Collected (all_headings acc) (heading_content_map acc)
      (dict_set (Parser.pp_url page)
         (PageContent (Parser.pp_text page) (Parser.pp_headings page)
            (Parser.pp_content_blocks page))
         (page_content_map acc)) in
  fold_left (collect_heading page) (Parser.pp_headings page) acc.

Definition infer_modules (parsed_pages : list Parser.parsed_page)
  : dict ModuleNode :=
  let acc := fold_left collect_page parsed_pages (Collected [] [] []) in
  _build_hierarchy (all_headings acc) (heading_content_map acc)
    (page_content_map acc).

End WithTables.

End Inference.

(* ===================================================================== *)
(** ** summarizer.py *)
(* ===================================================================== *)

Module Summarizer.

(** The attributes of a [DescriptionSummarizer]. *)
Record DescriptionSummarizer := {
  max_sentences : nat;
  min_length : nat
}.

(** [DescriptionSummarizer()] *)
Definition default_summarizer : DescriptionSummarizer :=
  {| max_sentences := 3; min_length := 20 |}.

Section WithTables.
Context {db : UnicodeDB}.

(** The lead-ins of [patterns_to_remove]; each pattern is its lead-in
    followed by [.*]. *)
Definition noise_lead_ins : list str :=
  [py "See also:"; py "Related:"; py "Note:"; py "Warning:";
   py "Example:"; py "For more information"; py "Click here";
   py "Learn more"].

(** [.] without [re.DOTALL]: any character but the newline. *)
Definition not_newline (c : char) : bool := negb (c =? 10)%N.

Definition not_space (c : char) : bool := negb (is_space c).

(** The match of [lead_in + '.*'] under [re.IGNORECASE] at the start of
    [s]: the lead-in and the rest of the line. *)
Definition m_noise (lead_in s : str) : option nat :=
  if Regex.ci_startswith lead_in s
  then Some (length lead_in
             + length (take_while not_newline (skipn (length lead_in) s)))
  else None.

(** The match of [https?://\S+] at the start of [s]. *)
Definition m_url (s : str) : option nat :=
  let prefix :=
    if startswith (py "https://") s then Some 8
    else if startswith (py "http://") s then Some 7
    else None in
  match prefix with
  | None => None
  | Some n =>
      match take_while not_space (skipn n s) with
      | [] => None
      | run => Some (n + length run)
      end
  end.

(** The match of [\S+@\S+] at the start of [s]: the run of
    non-whitespace characters that starts there, when an [@] stands in
    it after its first and before its last character (the first [\S+]
    gives back characters until the [@] and one more character fit, the
    second [\S+] then takes the rest of the run). *)
Definition m_email (s : str) : option nat :=
  match take_while not_space s with
  | [] => None
  | (_ :: rest) as run =>
      if existsb (N.eqb 64) (removelast rest)
      then Some (length run) else None
  end.

Definition _clean_content (content : str) : str :=
  let content := collapse_ws content in
  let content := strip content in
  let content :=
    fold_left (fun c lead_in => Regex.sub_del (m_noise lead_in) c)
      noise_lead_ins content in
  let content := Regex.sub_del m_url content in
  let content := Regex.sub_del m_email content in
  strip content.

(** The class [[.!?]]. *)
Definition is_sentence_end (c : char) : bool :=
  ((c =? 46) || (c =? 33) || (c =? 63))%N.

(** [re.split(r'(?<=[.!?])\s+', text)]: a whitespace run that follows a
    sentence end separates two pieces.  [cur] is the piece being read,
    reversed; [in_delim] tells that the scan is inside a separator. *)
Fixpoint re_split_from (prev_end in_delim : bool) (cur : str) (s : str)
  : list str :=
  match s with
  | [] => [rev cur]
  | c :: s' =>
      if is_space c
      then if in_delim then re_split_from false true cur s'
           else if prev_end then rev cur :: re_split_from false true [] s'
           else re_split_from false false (c :: cur) s'
      else re_split_from (is_sentence_end c) false (c :: cur) s'
  end.

Definition split_sentences (text : str) : list str :=
  re_split_from false false [] text.

(** The eight patterns of [nav_patterns], under [re.match] and
    [re.IGNORECASE]. *)
Definition nav_patterns : list (str -> bool) :=
  [ Regex.m_one Regex.ci_letter
      (Regex.m_plus Regex.ci_letter
         (Regex.m_plus is_space
            (Regex.m_lit [226; 8224; 8217]%N Regex.m_any)));
    Regex.m_lit (py "Click") (Regex.m_plus is_space Regex.m_any);
    Regex.m_lit (py "Select") (Regex.m_plus is_space Regex.m_any);
    Regex.m_lit (py "Navigate")
      (Regex.m_plus is_space (Regex.m_lit (py "to") Regex.m_any));
    Regex.m_lit (py "Go")
      (Regex.m_plus is_space (Regex.m_lit (py "to") Regex.m_any));
    Regex.m_lit (py "Menu")
      (Regex.m_star is_space (Regex.m_lit (py ":") Regex.m_any));
    Regex.m_lit (py "Home") (Regex.m_star is_space Regex.m_eos);
    Regex.m_lit (py "Back") (Regex.m_star is_space Regex.m_eos) ].

Definition _is_navigation_text (text : str) : bool :=
  existsb (fun pattern => pattern text) nav_patterns.

Definition _extract_sentences (text : str) : list str :=
  flat_map
    (fun sent =>
       let sent := strip sent in
       if (20 <=? length sent) && (length sent <=? 300)
          && negb (_is_navigation_text sent)
       then [sent] else [])
    (split_sentences text).

Definition action_words : list str :=
  [py "provides"; py "enables"; py "allows"; py "supports"; py "manages";
   py "handles"; py "processes"; py "creates"; py "generates"; py "sends";
   py "receives"; py "configures"; py "sets"; py "displays"; py "shows"].

(** [_score_sentence], in half points: the source adds and subtracts
    2.0, 1.0 and 0.5, which floats represent exactly.  The test
    [upper > len(sentence) * 0.3] is [10 * upper > 3 * len]: the float
    product rounds to [3 * len / 10] when that is an integer and lies
    strictly between its two neighbouring integers otherwise. *)
Definition _score_sentence (sentence : str) : Z :=
  let score := 0%Z in
  let sentence_lower := uc_lower sentence in
  let score :=
    if existsb (fun word => contains word sentence_lower) action_words
    then (score + 4)%Z else score in
  let score :=
    if has_char 63%N sentence then (score - 2)%Z else score in
  let score :=
    if 8 <=? length (split_ws sentence) then (score + 2)%Z else score in
  let score :=
    if 3 * length sentence <? 10 * length (filter uc_isupper sentence)
    then (score - 4)%Z else score in
  let score :=
    if length sentence <? 40 then (score - 1)%Z else score in
  score.

Section WithSelf.
Variable self : DescriptionSummarizer.

(** The loop that restores the original order: a sentence is kept when
    it is equal to a selected one, until [max_sentences] are kept. *)
Fixpoint restore_order (selected sentences result : list str) : list str :=
  match sentences with
  | [] => result
  | sent :: rest =>
      if str_in sent selected
      then let result := result ++ [sent] in
           if max_sentences self <=? length result then result
           else restore_order selected rest result
      else restore_order selected rest result
  end.

(** [scored] after the sort. *)
Definition scored_sorted (sentences : list str) : list (Z * str) :=
  sort_desc fst (map (fun sent => (_score_sentence sent, sent))
                   (firstn 20 sentences)).

(** [selected] *)
Definition selected_of (sentences : list str) : list str :=
  map snd (firstn (max_sentences self) (scored_sorted sentences)).

Definition _select_sentences (sentences : list str) : list str :=
  if is_empty sentences then []
  else
    let selected := selected_of sentences in
    let result := restore_order selected sentences [] in
    if negb (is_empty result) then result
    else firstn (max_sentences self) sentences.

(** The truncation loop of [_finalize_description]. *)
Fixpoint truncate_sentences (sentences : list str) (len : nat) : list str :=
  match sentences with
  | [] => []
  | sent :: rest =>
      if len + length sent <=? 500
      then sent :: truncate_sentences rest (len + length sent + 1)
      else []
  end.

Definition _finalize_description (description : str) : str :=
  let description := collapse_ws description in
  let description := strip description in
  let description :=
    match rev description with
    | last :: _ =>
        if is_sentence_end last then description
        else description ++ py "."
    | [] => description
    end in
  if length description <? min_length self then []
  else
    let description :=
      if 500 <? length description
      then join (py " ")
             (truncate_sentences (split_sentences description) 0)
      else description in
    strip description.

Definition generate_description (content : str) : str :=
  if is_empty content || (length (strip content) <? min_length self)
  then []
  else
    let cleaned := _clean_content content in
    let sentences := _extract_sentences cleaned in
    if is_empty sentences then []
    else
      let selected := _select_sentences sentences in
      let description := join (py " ") selected in
      _finalize_description description.

End WithSelf.
End WithTables.

End Summarizer.

(* ===================================================================== *)
(** ** crawler.py *)
(* ===================================================================== *)

Module Crawler.

(** What [session.get] gives for a URL, after the retries of the
    adapter: a [RequestException], or a response. *)
Inductive http_result :=
| RequestException
| Response (status_code : Z) (content_type_header : option str) (text : str).

(** What the crawler reads from outside the program.  [read_robots] is
    the parser that [RobotFileParser.read] leaves for a domain, [None]
    when reading raised; the crawler keeps it in [robots_cache], so a
    domain is read once in a crawl.  [anchor_hrefs] is the [href] of every
    [a] tag that has one, as the HTML tree builder finds them. *)
Class Web := {
  robots_parser : Type;
  session_get : str -> http_result;
  read_robots : str -> option robots_parser;
  can_fetch : robots_parser -> str -> str -> bool;
  anchor_hrefs : str -> list str
}.

(** The attributes of a [URLCrawler] that the traversal reads. *)
Record URLCrawler := {
  max_depth : Z;
  max_pages : Z;
  respect_robots_txt : bool
}.

(** The dict that [_fetch_page] returns. *)
Record page := Page {
  page_url : str;
  html : str;
  status_code : Z;
  content_type : str
}.

Section WithWorld.
Context {db : UnicodeDB} {ul : UrlLib} {web : Web}.
Variable self : URLCrawler.

Definition user_agent : str :=
  py "Pulse-Crawler/1.0 (+https://github.com/pulse-crawler)".

Definition _normalize_url (u : str) : str :=
  let parsed := urlparse u in
  urlunparse
    (ParseResult (scheme parsed) (netloc parsed)
       (let p := rstrip_char 47%N (path parsed) in
        if is_empty p then py "/" else p)
       (params parsed) (query parsed) []).

Definition _get_domain (u : str) : str := netloc (urlparse u).

Definition _is_same_domain (url1 url2 : str) : bool :=
  str_eqb (_get_domain url1) (_get_domain url2).

Definition _can_fetch (u domain : str) : bool :=
  match read_robots domain with
  | None => true
  | Some robots => can_fetch robots user_agent u
  end.

Definition unsupported_formats : list str :=
  [py ".pdf"; py ".jpg"; py ".jpeg"; py ".png"; py ".gif"; py ".svg";
   py ".ico"; py ".js"; py ".css"; py ".xml"; py ".zip"; py ".tar";
   py ".gz"].

Definition non_documentation_paths : list str :=
  [py "login"; py "signin"; py "signup"; py "register"; py "logout";
   py "privacy"; py "terms"; py "legal"; py "cookie"; py "contact"].

Definition _should_crawl_url (u base_domain : str) : bool :=
  let parsed := urlparse u in
  if negb (str_in (scheme parsed) [py "http"; py "https"]) then false
  else if negb (str_eqb (netloc parsed) base_domain) then false
  else
    let path_lower := uc_lower (path parsed) in
    if existsb (fun ext => endswith ext path_lower) unsupported_formats
    then false
    else
      let path_parts :=
        map uc_lower
          (filter (fun p => negb (is_empty p))
             (split_char 47%N (path parsed))) in
      if existsb (fun part => str_in part path_parts)
           non_documentation_paths
      then false
      else if respect_robots_txt self && negb (_can_fetch u base_domain)
           then false
           else true.

Definition _extract_links (html base_url : str) : list str :=
  map (fun href => _normalize_url (urljoin base_url href))
    (anchor_hrefs html).

(** [raise_for_status] raises for the statuses 400 to 599. *)
Definition _fetch_page (u : str) : option page :=
  match session_get u with
  | RequestException => None
  | Response status header text =>
      if (400 <=? status)%Z && (status <? 600)%Z then None
      else
        let content_type :=
          uc_lower (match header with Some h => h | None => [] end) in
        if negb (contains (py "text/html") content_type) then None
        else Some (Page u text status content_type)
  end.

(** The variables of the loop of [crawl].  [crawling] holds the lines
    [Crawling [depth] url] that the loop logs, one before each call of
    [_fetch_page]. *)
Record state := State {
  queue : list (str * Z);
  visited : list str;
  pages : list page;
  crawling : list (str * Z)
}.

(** One iteration of the [while] loop; [None] when its condition
    fails. *)
Definition crawl_step (base_domain : str) (st : state) : option state :=
  match queue st with
  | [] => None
  | (u, depth) :: rest =>
      if negb (Z.of_nat (length (pages st)) <? max_pages self)%Z then None
      else if str_in u (visited st)
      then Some (State rest (visited st) (pages st) (crawling st))
      else if (max_depth self <? depth)%Z
      then Some (State rest (visited st) (pages st) (crawling st))
      else if negb (_should_crawl_url u base_domain)
      then Some (State rest (visited st) (pages st) (crawling st))
      else
        let visited := u :: visited st in
        let crawling := crawling st ++ [(u, depth)] in
        match _fetch_page u with
        | None => Some (State rest visited (pages st) crawling)
        | Some page_data =>
            let pages := pages st ++ [page_data] in
            let queue :=
              if (depth <? max_depth self)%Z
              then rest
                   ++ map (fun link => (link, (depth + 1)%Z))
                        (filter
                           (fun link =>
                              negb (str_in link visited)
                              && _should_crawl_url link base_domain)
                           (_extract_links (html page_data) u))
              else rest in
            Some (State queue visited pages crawling)
        end
  end.

(** What an iteration makes smaller: the pages still allowed, then the
    length of the queue. *)
Definition budget (st : state) : nat * nat :=
  (Z.to_nat (max_pages self - Z.of_nat (length (pages st))),
   length (queue st)).

Lemma crawl_step_budget base_domain st st' :
  crawl_step base_domain st = Some st' ->
  Subterm.lexprod _ _ lt lt (budget st') (budget st).
Proof.
  unfold crawl_step, budget.
  destruct (queue st) as [|[u depth] rest] eqn:Hq; [discriminate|].
  destruct (Z.of_nat (length (pages st)) <? max_pages self)%Z eqn:Hlt;
    simpl; [|discriminate].
  apply Z.ltb_lt in Hlt.
  destruct (str_in u (visited st));
    [intros [= <-]; simpl; apply Subterm.right_lex; lia|].
  destruct (max_depth self <? depth)%Z;
    [intros [= <-]; simpl; apply Subterm.right_lex; lia|].
  destruct (_should_crawl_url u base_domain); simpl;
    [|intros [= <-]; simpl; apply Subterm.right_lex; lia].
  destruct (_fetch_page u);
    intros [= <-]; simpl.
  - apply Subterm.left_lex. rewrite length_app. simpl. lia.
  - apply Subterm.right_lex. lia.
Qed.

(** The [while] loop, run to its end. *)
Equations? crawl_loop (base_domain : str) (st : state) : state
  by wf (budget st) (Subterm.lexprod _ _ lt lt) :=
  crawl_loop base_domain st
    with Equations.Prop.Logic.inspect (crawl_step base_domain st) => {
    | exist _ None _ := st;
    | exist _ (Some st') Hstep := crawl_loop base_domain st' }.
Proof.
  apply crawl_step_budget with (base_domain := base_domain).
  exact Hstep.
Qed.

(** [crawl]: the seeds are normalised, the domain of the first one is
    the base domain, and every seed enters the queue at depth 0.  The
    loop over the seeds that precedes the queue only logs warnings,
    [seed_warnings] below. *)
Definition initial_state (seed_urls : list str) : state :=
  State (map (fun u => (u, 0%Z)) seed_urls) [] [] [].

(** What the loop over the seeds logs: a warning for every seed whose
    domain is not that of the first. *)
Definition seed_warnings (seed_urls : list str) : list str :=
  let seed_urls := map _normalize_url seed_urls in
  match seed_urls with
  | [] => []
  | first :: _ =>
      flat_map
        (fun u =>
           if negb (_is_same_domain u first)
           then [py "Seed URL " ++ u ++ py " has different domain, skipping"]
           else [])
        seed_urls
  end.

Definition crawl_final (seed_urls : list str) : state :=
  let seed_urls := map _normalize_url seed_urls in
  match seed_urls with
  | [] => State [] [] [] []
  | first :: _ =>
      crawl_loop (_get_domain first) (initial_state seed_urls)
  end.

Definition crawl (seed_urls : list str) : list page :=
  pages (crawl_final seed_urls).

End WithWorld.

End Crawler.

(* ===================================================================== *)
(** ** pipeline.py *)
(* ===================================================================== *)

Module Pipeline.

Import Inference.

(** An instance of [Exception], as the pipeline reads it: [str(e)] and
    the text that [traceback.format_exc()] gives for it. *)
Record exn := Exception {
  exn_str : str;
  format_exc : str
}.

(** The outcome of a call: it returns or it raises. *)
Inductive res (A : Type) :=
| Ok (a : A)
| Raised (e : exn).
Arguments Ok {A} a.
Arguments Raised {A} e.

Definition res_bind {A B} (c : res A) (k : A -> res B) : res B :=
  match c with
  | Ok a => k a
  | Raised e => Raised e
  end.

(** A method of the pipeline: it reads and extends [self.logs], and
    returns or raises. *)
Definition M (A : Type) := list str -> res A * list str.

Definition ret {A} (a : A) : M A := fun logs => (Ok a, logs).

Definition bind {A B} (c : M A) (k : A -> M B) : M B :=
  fun logs =>
    match c logs with
    | (Ok a, logs') => k a logs'
    | (Raised e, logs') => (Raised e, logs')
    end.

(** A call of a collaborator, which does not touch [self.logs]. *)
Definition call {A} (c : res A) : M A := fun logs => (c, logs).

Definition get_logs : M (list str) := fun logs => (Ok logs, logs).
Definition set_logs (l : list str) : M unit := fun _ => (Ok tt, l).

(** [try: body except Exception as e: handler] *)
Definition try_except {A} (body : M A) (handler : exn -> M A) : M A :=
  fun logs =>
    match body logs with
    | (Ok a, logs') => (Ok a, logs')
    | (Raised e, logs') => handler e logs'
    end.

Declare Scope pipeline_scope.
Delimit Scope pipeline_scope with pipeline.
Notation "x <- c ;; k" := (bind c (fun x => k))
  (at level 61, c at next level, right associativity) : pipeline_scope.
Notation "c ;; k" := (bind c (fun _ => k))
  (at level 61, right associativity) : pipeline_scope.
Local Open Scope pipeline_scope.

(** An element of the output list. *)
Record module_record := ModuleRecord {
  module : str;
  Description : str;
  Submodules : dict str
}.

Record stats_record := Stats {
  pages_crawled : nat;
  pages_parsed : nat;
  modules_found : nat
}.

(** The dict that [extract] returns; [stats] is absent on the early
    returns. *)
Record extract_result := ExtractResult {
  modules : list module_record;
  logs : list str;
  stats : option stats_record
}.

Definition INFO : str := py "INFO".
Definition WARNING : str := py "WARNING".
Definition ERROR : str := py "ERROR".

(** [f"[{level}] {message}"] *)
Definition log_entry (message level : str) : str :=
  py "[" ++ level ++ py "] " ++ message.

Definition _log (message level : str) : M unit :=
  fun logs => (Ok tt, logs ++ [log_entry message level]).

Section WithCollaborators.
Context {db : UnicodeDB}.

(** The four collaborators, as the pipeline sees them: a call returns
    or raises. *)
Variable crawler_crawl : list str -> res (list Crawler.page).
Variable parser_parse : str -> str -> res Parser.parsed_page.
Variable inference_infer_modules :
  list Parser.parsed_page -> res (dict ModuleNode).
Variable summarizer_generate_description : str -> res str.

(** The loop of step 2: a page whose parse raises is logged and left
    out. *)
Fixpoint parse_pages (pages : list Crawler.page)
    (parsed_pages : list Parser.parsed_page) : M (list Parser.parsed_page) :=
  match pages with
  | [] => ret parsed_pages
  | page :: rest =>
      parsed_pages <-
        try_except
          (parsed <- call (parser_parse (Crawler.html page)
                             (Crawler.page_url page)) ;;
           ret (parsed_pages ++ [parsed]))
          (fun e =>
             _log (py "Error parsing " ++ Crawler.page_url page
                   ++ py ": " ++ exn_str e) WARNING ;;
             ret parsed_pages) ;;
      parse_pages rest parsed_pages
  end.

(** "Try to find content from pages": the text of the first page that
    has a heading containing [name] and a non-empty text. *)
Fixpoint content_from_pages (name : str)
    (parsed_pages : list Parser.parsed_page) : str :=
  match parsed_pages with
  | [] => []
  | page :: rest =>
      if existsb
           (fun heading =>
              contains (uc_lower name)
                (uc_lower (Parser.text heading)))
           (Parser.pp_headings page)
         && negb (is_empty (Parser.pp_text page))
      then Parser.pp_text page
      else content_from_pages name rest
  end.

(** The loop over the submodules in step 4, over the keys as they were
    when the loop started. *)
Fixpoint describe_submodules (parsed_pages : list Parser.parsed_page)
    (keys : list str) (subs : dict str) : res (dict str) :=
  match keys with
  | [] => Ok subs
  | sub_name :: rest =>
      let sub_content := dict_get_default sub_name [] subs in
      let sub_content :=
        if is_empty sub_content
        then content_from_pages sub_name parsed_pages
        else sub_content in
      res_bind (summarizer_generate_description sub_content)
        (fun sub_desc =>
           describe_submodules parsed_pages rest
             (dict_set sub_name sub_desc subs))
  end.

(** The body of the loop of step 4 for one module. *)
Definition describe_module (parsed_pages : list Parser.parsed_page)
    (module_name : str) (module_data : ModuleNode) : res ModuleNode :=
  let module_content := content module_data in
  let module_content :=
    if is_empty module_content
    then content_from_pages module_name parsed_pages
    else module_content in
  res_bind (summarizer_generate_description module_content)
    (fun module_desc =>
       res_bind
         (describe_submodules parsed_pages
            (map fst (submodules module_data)) (submodules module_data))
         (fun subs =>
            Ok (ModuleData subs (content module_data)
                  (module_url module_data) (Some module_desc)))).

(** Step 4. *)
Fixpoint describe_modules (parsed_pages : list Parser.parsed_page)
    (modules_dict : dict ModuleNode) : res (dict ModuleNode) :=
  match modules_dict with
  | [] => Ok []
  | (module_name, module_data) :: rest =>
      res_bind (describe_module parsed_pages module_name module_data)
        (fun module_data =>
           res_bind (describe_modules parsed_pages rest)
             (fun rest => Ok ((module_name, module_data) :: rest)))
  end.

(** The description that [_format_output] works with: the stored one,
    or a generated one when it is missing or empty. *)
Definition output_description (module_data : ModuleNode) : res str :=
  let module_desc :=
    match description module_data with
    | Some d => d
    | None => []
    end in
  if is_empty module_desc
  then summarizer_generate_description (content module_data)
  else Ok module_desc.

(** "Only include submodules with descriptions" *)
Definition output_submodules (module_data : ModuleNode) : dict str :=
  fold_left
    (fun submodules_dict sub =>
       if negb (is_empty (snd sub))
       then dict_set (fst sub) (snd sub) submodules_dict
       else submodules_dict)
    (submodules module_data) [].

Fixpoint _format_output (modules_dict : dict ModuleNode)
  : res (list module_record) :=
  match modules_dict with
  | [] => Ok []
  | (module_name, module_data) :: rest =>
      res_bind (output_description module_data)
        (fun module_desc =>
           let submodules_dict := output_submodules module_data in
           res_bind (_format_output rest)
             (fun output =>
                if negb (is_empty module_desc)
                   || negb (is_empty submodules_dict)
                then Ok (ModuleRecord module_name
                           (if negb (is_empty module_desc) then module_desc
                            else py "Module for " ++ module_name)
                           submodules_dict
                         :: output)
                else Ok output))
  end.

(** The early returns and the failure return of [extract]. *)
Definition return_no_modules : M extract_result :=
  logs <- get_logs ;;
  ret (ExtractResult [] logs None).

(** The body of the [try] of [extract]. *)
Definition extract_body (urls : list str) : M extract_result :=
  _log (py "Step 1: Crawling URLs...") INFO ;;
  pages <- call (crawler_crawl urls) ;;
  _log (py "Crawled " ++ str_of_nat (length pages) ++ py " pages") INFO ;;
  if is_empty pages
  then
    _log (py "No pages were crawled. Check URLs and network connectivity.")
      WARNING ;;
    return_no_modules
  else
    _log (py "Step 2: Parsing HTML content...") INFO ;;
    parsed_pages <- parse_pages pages [] ;;
    _log (py "Parsed " ++ str_of_nat (length parsed_pages) ++ py " pages")
      INFO ;;
    if is_empty parsed_pages
    then
      _log (py "No pages were successfully parsed.") WARNING ;;
      return_no_modules
    else
      _log (py "Step 3: Inferring modules and submodules...") INFO ;;
      modules_dict <- call (inference_infer_modules parsed_pages) ;;
      _log (py "Inferred " ++ str_of_nat (length modules_dict)
            ++ py " modules") INFO ;;
      _log (py "Step 4: Generating descriptions...") INFO ;;
      modules_dict <- call (describe_modules parsed_pages modules_dict) ;;
      _log (py "Step 5: Formatting output...") INFO ;;
      output_modules <- call (_format_output modules_dict) ;;
      _log (py "Extraction complete. Generated "
            ++ str_of_nat (length output_modules) ++ py " modules") INFO ;;
      logs <- get_logs ;;
      ret (ExtractResult output_modules logs
             (Some (Stats (length pages) (length parsed_pages)
                      (length output_modules)))).

Definition extract (urls : list str) : M extract_result :=
  set_logs [] ;;
  _log (py "Starting extraction for " ++ str_of_nat (length urls)
        ++ py " URL(s)") INFO ;;
  try_except (extract_body urls)
    (fun e =>
       _log (py "Pipeline error: " ++ exn_str e) ERROR ;;
       _log (format_exc e) ERROR ;;
       return_no_modules).

End WithCollaborators.

(** [self.summarizer = DescriptionSummarizer()] as a collaborator: its
    [generate_description] returns on every string. *)
Definition summarizer_generate_description {db : UnicodeDB} (c : str)
  : res str :=
  Ok (Summarizer.generate_description Summarizer.default_summarizer c).

End Pipeline.

(* ===================================================================== *)
(** ** Vocabulary of the properties *)
(* ===================================================================== *)



Module ParserSpec.
Import Parser.

(** The level of a heading tag, [None] for any other tag. *)
Definition heading_level (name : str) : option Z :=
  if str_eqb name (py "h1") then Some 1%Z
  else if str_eqb name (py "h2") then Some 2%Z
  else if str_eqb name (py "h3") then Some 3%Z
  else if str_eqb name (py "h4") then Some 4%Z
  else None.

(** The headings of the specification: every [h1] to [h4] element with
    non-empty text, in the order of the document. *)
Fixpoint headings_below (n : node) : list heading :=
  match n with
  | Text _ => []
  | Tag name _ children =>
      match heading_level name with
      | Some level => heading_of level n
      | None => []
      end ++ flat_map headings_below children
  end.

Definition headings_in_document_order (s : soup) : list heading :=
  flat_map headings_below s.

(** [<h2>Setup</h2><h1>Guide</h1>] *)
Definition h2_before_h1 : soup :=
  [Tag (py "h2") [] [Text (py "Setup")];
   Tag (py "h1") [] [Text (py "Guide")]].

(** What is left of [n] when the elements in and below it that one of
    the selectors selects go, in one pass. *)
Fixpoint without (sels : list selector) (n : node) : list node :=
  match n with
  | Text _ => [n]
  | Tag name attrs children =>
      if existsb (fun sel => selected sel n) sels then []
      else [Tag name attrs (flat_map (without sels) children)]
  end.

(** No element in or below [n] is selected by one of the selectors. *)
Fixpoint free_of (sels : list selector) (n : node) : bool :=
  match n with
  | Text _ => true
  | Tag _ _ children =>
      negb (existsb (fun sel => selected sel n) sels)
      && forallb (free_of sels) children
  end.

(** The text has no white space at either end. *)
Definition trimmed (s : str) : Prop := strip s = s.

(** The white space of the text is single spaces. *)
Definition single_spaced (s : str) : Prop := collapse_ws s = s.

(** [int(c)] on the ASCII digits. *)
Definition ascii_int (c : char) : option Z :=
  if Ascii7.isdecimal c then Some (Z.of_N c - 48)%Z else None.

(** A text node that is not empty. *)
Definition is_text (n : node) : bool :=
  match n with
  | Text (_ :: _) => true
  | _ => false
  end.

(** [<nav><h2>Menu</h2></nav><main class="wide"><h1>Guide</h1>
    <p>...</p></main>] *)
Definition page_with_nav : soup :=
  [Tag (py "nav") [] [Tag (py "h2") [] [Text (py "Menu")]];
   Tag (py "main") [(py "class", py "wide")]
     [Tag (py "h1") [] [Text (py " Guide ")];
      Tag (py "p") []
        [Text (py "The guide explains how to set up billing.  ")]]].

End ParserSpec.

Module InferenceSpec.
Import Inference.

Section WithTables.
Context {db : UnicodeDB} {ul : UrlLib}.

(** Strategy 1 on its own: the level-1 headings as modules. *)
Definition strategy_h1 (headings : list heading) (content_map : dict str)
    (page_content_map : dict page_content) : dict ModuleNode :=
  fold_left
    (h1_step (filter (fun h => (level h =? 2)%Z) headings)
       (filter (fun h => (level h =? 3)%Z) headings)
       headings content_map page_content_map)
    (filter (fun h => (level h =? 1)%Z) headings) [].

(** Strategy 2 on its own: the 15 most frequent level-2 texts as
    modules. *)
Definition strategy_h2 (headings : list heading) (content_map : dict str)
    (page_content_map : dict page_content) : dict ModuleNode :=
  fold_left
    (h2_step (filter (fun h => (level h =? 2)%Z) headings)
       (filter (fun h => (level h =? 3)%Z) headings)
       headings content_map page_content_map)
    (top_h2s (filter (fun h => (level h =? 2)%Z) headings)) [].

(** Strategy 3 on its own: the groups by URL path. *)
Definition strategy_url (headings : list heading) (content_map : dict str)
    (page_content_map : dict page_content) : dict ModuleNode :=
  _infer_from_urls_and_titles headings content_map page_content_map.

(** The headings of the section that a heading of level [module_level]
    opens, given the headings after it: those before the next heading
    of that level or above. *)
Fixpoint section_from (module_level : Z) (l : list heading)
  : list heading :=
  match l with
  | [] => []
  | h :: l' =>
      if (level h <=? module_level)%Z then []
      else h :: section_from module_level l'
  end.

(** The section of [module_heading]: what follows the first heading
    with its text and its URL; empty when there is none. *)
Definition section_of (module_heading : heading)
    (all_headings : list heading) : list heading :=
  match after_first
          (fun h => str_eqb (text h) (text module_heading)
                    && str_eqb (url h) (url module_heading))
          all_headings with
  | None => []
  | Some rest => section_from (level module_heading) rest
  end.

(** The name that strategy 3 reads off the URL of a heading: the first
    path segment that is not generic, in title case, when it has three
    characters or more. *)
Definition module_segment (h : heading) : option str :=
  match segments_of (url h) with
  | [] => None
  | seg :: _ =>
      let name :=
        uc_title (replace_char 95%N 32%N (replace_char 45%N 32%N seg)) in
      if name_ok name then Some name else None
  end.

(** The headings whose URL gives the name. *)
Definition group_of (name : str) (headings : list heading)
  : list heading :=
  filter
    (fun h =>
       match module_segment h with
       | Some s => str_eqb s name
       | None => false
       end)
    headings.

(** The submodules as the inference leaves them: every name once and
    of three characters or more, every content empty. *)
Definition fresh_submodules (subs : dict str) : Prop :=
  NoDup (map fst subs)
  /\ Forall (fun sub => name_ok (fst sub) = true /\ snd sub = []) subs.

(** The modules as the inference leaves them: every name once and of
    three characters or more, no description yet, fresh submodules. *)
Definition well_formed (modules : dict ModuleNode) : Prop :=
  NoDup (map fst modules)
  /\ Forall (fun e => name_ok (fst e) = true
                      /\ description (snd e) = None
                      /\ fresh_submodules (submodules (snd e)))
       modules.

End WithTables.

(** The ordered choice of the specification: the first result that has
    a module. *)
Fixpoint first_non_empty (results : list (dict ModuleNode))
  : dict ModuleNode :=
  match results with
  | [] => []
  | r :: rest => if is_empty r then first_non_empty rest else r
  end.


End InferenceSpec.

Module SummarizerSpec.

(** Three candidate sentences: one short and plain, two long ones with
    an action verb. *)
Definition plain : str := py "Short plain sentence here.".
Definition billing : str :=
  py "The billing module provides invoices to all customers daily.".
Definition refunds : str :=
  py "It also handles refunds for every account in the system.".

(** Candidates in which the plain sentence comes three times. *)
Definition repeated : list str := [plain; billing; plain; refunds; plain].

(** The same candidates as one text. *)
Definition repeated_text : str :=
  join (py " ") repeated.

Section WithTables.
Context {db : UnicodeDB}.

(** The text before the first place where the lead-in matches, case
    ignored; the whole text when it matches nowhere. *)
Fixpoint cut_at (lead_in text : str) : str :=
  match text with
  | [] => []
  | c :: text' =>
      if Regex.ci_startswith lead_in text then []
      else c :: cut_at lead_in text'
  end.

(** The lead-in matches somewhere in the text, case ignored. *)
Fixpoint ci_contains (lead_in text : str) : bool :=
  Regex.ci_startswith lead_in text
  || match text with
     | [] => false
     | _ :: text' => ci_contains lead_in text'
     end.

End WithTables.

(** No match of [m] starts anywhere in the text. *)
Definition no_match (m : str -> option nat) (text : str) : Prop :=
  forall before rest, text = before ++ rest -> m rest = None.

(** The text ends a sentence: its last character is [.], [!] or [?]. *)
Definition ends_sentence (s : str) : Prop :=
  Summarizer.is_sentence_end (last s 0%N) = true.

(** [part] occurs in [text] as a run of consecutive characters. *)
Definition occurs_in (part text : str) : Prop :=
  exists before after, text = before ++ part ++ after.

End SummarizerSpec.

Module CrawlerSpec.
Import Crawler.

Section WithWorld.
Context {db : UnicodeDB} {ul : UrlLib} {web : Web}.
Variable self : URLCrawler.

(** One iteration of the loop leads from [st] to [st']. *)
Definition step_to (base_domain : str) (st st' : state) : Prop :=
  crawl_step self base_domain st = Some st'.

(** Some iterations of the loop lead from [st] to [st']. *)
Definition reaches (base_domain : str) : state -> state -> Prop :=
  clos_refl_trans state (step_to base_domain).

(** What holds of the loop variables during a crawl: the depths in the
    queue start at 0 and stay within the limit; every URL that was
    crawled passed the admission filter at a depth within the limit;
    every page is the fetch of a URL that was crawled. *)
Definition crawl_invariant (base_domain : str) (st : state) : Prop :=
  (forall u d, In (u, d) (queue st) ->
               (0 <= d)%Z /\ (d = 0%Z \/ (d <= max_depth self)%Z))
  /\ (forall u d, In (u, d) (crawling st) ->
                  (0 <= d <= max_depth self)%Z
                  /\ _should_crawl_url self u base_domain = true)
  /\ (forall p, In p (pages st) ->
                _fetch_page (page_url p) = Some p
                /\ exists d, In (page_url p, d) (crawling st)).

(** The queue entries that the admission filter lets pass on account of
    their domain. *)
Definition in_domain (base_domain : str) (entry : str * Z) : bool :=
  str_eqb (netloc (urlparse (fst entry))) base_domain.

(** The bookkeeping of the loop: [visited] holds the crawled URLs, the
    last one first, none twice; the pages are the fetches that
    succeeded, in the order of the crawl. *)
Definition fetched (entry : str * Z) : list page :=
  match _fetch_page (fst entry) with
  | Some p => [p]
  | None => []
  end.

Definition bookkeeping (st : state) : Prop :=
  visited st = rev (map fst (crawling st))
  /\ NoDup (visited st)
  /\ pages st = flat_map fetched (crawling st).

(** The page limit: the loop never holds more pages than [max_pages]
    allows. *)
Definition within_page_limit (st : state) : Prop :=
  (Z.of_nat (length (pages st)) <= Z.max 0 (max_pages self))%Z.

(** Breadth first: the depths of the crawled URLs followed by those of
    the queue never decrease, and the queue spans at most two
    depths. *)
Definition breadth_first (st : state) : Prop :=
  StronglySorted Z.le (map snd (crawling st ++ queue st))
  /\ forall u d rest,
       queue st = (u, d) :: rest ->
       Forall (fun e => (snd e <= d + 1)%Z) rest.

(** The links of [entry] that the crawl has to follow: those of the
    page fetched there that pass the admission filter, when the entry
    lies above the depth limit. *)
Definition links_to_follow (base_domain : str) (entry : str * Z)
  : list str :=
  if (snd entry <? max_depth self)%Z
  then match _fetch_page (fst entry) with
       | Some p =>
           filter (fun link => _should_crawl_url self link base_domain)
             (_extract_links (html p) (fst entry))
       | None => []
       end
  else [].

(** No link to follow is lost: it was crawled, or it waits in the
    queue at a depth within the limit. *)
Definition links_pending (base_domain : str) (st : state) : Prop :=
  forall entry link,
    In entry (crawling st) ->
    In link (links_to_follow base_domain entry) ->
    In link (visited st)
    \/ exists d, In (link, d) (queue st) /\ (d <= max_depth self)%Z.

(** What the admission filter lets pass. *)
Definition admitted (base_domain u : str) : Prop :=
  let parsed := urlparse u in
  (scheme parsed = py "http" \/ scheme parsed = py "https")
  /\ netloc parsed = base_domain
  /\ (forall ext, In ext unsupported_formats ->
                  endswith ext (uc_lower (path parsed)) = false)
  /\ (forall part, In part (split_char 47%N (path parsed)) ->
                   part <> [] ->
                   ~ In (uc_lower part) non_documentation_paths)
  /\ (respect_robots_txt self = true ->
      forall robots, read_robots base_domain = Some robots ->
                     can_fetch robots user_agent u = true).

(** A page as [_fetch_page] builds it from a response that is no error
    and declares HTML. *)
Definition html_response (p : page) : Prop :=
  exists status header,
    session_get (page_url p) = Response status header (html p)
    /\ status_code p = status
    /\ ~ (400 <= status < 600)%Z
    /\ content_type p
       = uc_lower (match header with Some h => h | None => [] end)
    /\ contains (py "text/html") (content_type p) = true.

End WithWorld.

End CrawlerSpec.

Module PipelineSpec.
Import Inference Pipeline.

Section WithTables.
Context {db : UnicodeDB}.

(** The description that the output works with: the one the module
    has, or the summary of its content when it has none. *)
Definition generated_description (data : ModuleNode) : str :=
  let stored :=
    match description data with Some d => d | None => [] end in
  if is_empty stored
  then Summarizer.generate_description Summarizer.default_summarizer
         (content data)
  else stored.

(** A submodule of the module has a non-empty description. *)
Definition has_described_submodule (data : ModuleNode) : Prop :=
  exists sub desc, In (sub, desc) (submodules data) /\ desc <> [].

(** The condition of the final filter. *)
Definition kept (data : ModuleNode) : Prop :=
  generated_description data <> [] \/ has_described_submodule data.

(** The record of a module in the output, if it has one. *)
Definition record_of (entry : str * ModuleNode) : list module_record :=
  let module_desc := generated_description (snd entry) in
  let submodules_dict := output_submodules (snd entry) in
  if negb (is_empty module_desc) || negb (is_empty submodules_dict)
  then [ModuleRecord (fst entry)
          (if negb (is_empty module_desc) then module_desc
           else py "Module for " ++ fst entry)
          submodules_dict]
  else [].

(** The content that step 4 summarizes under a name: the stored
    content, or what the pages give for the name when there is none. *)
Definition content_to_describe (parsed_pages : list Parser.parsed_page)
    (name stored : str) : str :=
  if is_empty stored then content_from_pages name parsed_pages else stored.

(** The summary that step 4 stores under a name. *)
Definition summary_for (parsed_pages : list Parser.parsed_page)
    (name stored : str) : str :=
  Summarizer.generate_description Summarizer.default_summarizer
    (content_to_describe parsed_pages name stored).

(** A module after step 4: described, with every submodule
    described. *)
Definition described_module (parsed_pages : list Parser.parsed_page)
    (entry : str * ModuleNode) : str * ModuleNode :=
  (fst entry,
   ModuleData
     (map (fun sub => (fst sub, summary_for parsed_pages (fst sub) (snd sub)))
        (submodules (snd entry)))
     (content (snd entry)) (module_url (snd entry))
     (Some (summary_for parsed_pages (fst entry) (content (snd entry))))).

(** The dict holds every key once, as a [dict] does. *)
Definition unique_keys {V} (d : dict V) : Prop := NoDup (map fst d).

(** The first two entries of every log. *)
Definition opening (urls : list str) : list str :=
  [log_entry
     (py "Starting extraction for " ++ str_of_nat (length urls)
      ++ py " URL(s)") INFO;
   log_entry (py "Step 1: Crawling URLs...") INFO].

End WithTables.

(** The pages of [pages] whose parse returns, parsed. *)
Definition parsed_ok (parse : str -> str -> res Parser.parsed_page)
    (pages : list Crawler.page) : list Parser.parsed_page :=
  flat_map
    (fun page =>
       match parse (Crawler.html page) (Crawler.page_url page) with
       | Ok parsed => [parsed]
       | Raised _ => []
       end)
    pages.

(** The warnings that the loop of step 2 logs for [pages]. *)
Definition warnings_of (parse : str -> str -> res Parser.parsed_page)
    (pages : list Crawler.page) : list str :=
  flat_map
    (fun page =>
       match parse (Crawler.html page) (Crawler.page_url page) with
       | Ok _ => []
       | Raised e =>
           [log_entry
              (py "Error parsing " ++ Crawler.page_url page ++ py ": "
               ++ exn_str e) WARNING]
       end)
    pages.

(** What [extract] returns when an exception reaches its handler: no
    module, no statistics, and the two error entries at the end of the
    log. *)
Definition failed (result : extract_result) (e : exn) : Prop :=
  modules result = []
  /\ stats result = None
  /\ exists entries,
      logs result
      = entries ++ [log_entry (py "Pipeline error: " ++ exn_str e) ERROR;
                    log_entry (format_exc e) ERROR].

End PipelineSpec.

(** A small [urllib.parse] for URLs of the shape [scheme://netloc/path],
    without parameters, query or fragment; [urljoin] takes absolute
    references only.  It serves the examples. *)
Module SimpleUrls.

(** The text before and after the first occurrence of [sep]. *)
Fixpoint split_once (sep s : str) : option (str * str) :=
  if startswith sep s then Some ([], skipn (length sep) s)
  else match s with
       | [] => None
       | c :: s' =>
           match split_once sep s' with
           | Some (before, rest) => Some (c :: before, rest)
           | None => None
           end
       end.

Definition simple_urlparse (u : str) : parsed_url :=
  match split_once (py "://") u with
  | None => ParseResult [] [] u [] [] []
  | Some (scheme, rest) =>
      match split_once (py "/") rest with
      | None => ParseResult scheme rest [] [] [] []
      | Some (netloc, path) =>
          ParseResult scheme netloc (py "/" ++ path) [] [] []
      end
  end.

Definition simple_urlunparse (p : parsed_url) : str :=
  match scheme p with
  | [] => path p
  | _ => scheme p ++ py "://" ++ netloc p ++ path p
  end.

Definition simple_urls : UrlLib := {|
  urlparse := simple_urlparse;
  urlunparse := simple_urlunparse;
  urljoin := fun _ href => href
|}.

End SimpleUrls.

(** A run in which the parser raises on the first of two pages. *)
Module ParseFailure.
Import Pipeline.

Definition broken_url : str := py "https://docs.example.com/broken".
Definition billing_url : str := py "https://docs.example.com/billing".

Definition pages : list Crawler.page :=
  [Crawler.Page broken_url (py "<h1") 200 (py "text/html");
   Crawler.Page billing_url
     (py "<h1>Billing</h1><p>The billing module provides invoices to all customers daily.</p>")
     200 (py "text/html")].

Definition crawler_crawl (urls : list str) : res (list Crawler.page) :=
  Ok pages.

Definition parse_error : exn :=
  Exception (py "unexpected end of markup")
    (py "Traceback (most recent call last): ...").

Definition billing_page : Parser.parsed_page :=
  Parser.ParsedPage billing_url (py "Billing")
    [Parser.Heading 1 (py "Billing") [] (py "h1")]
    [Parser.ContentBlock (py "p")
       (py "The billing module provides invoices to all customers daily.")
       (py "p")]
    (py "Billing The billing module provides invoices to all customers daily.").

Definition parser_parse (html url : str) : res Parser.parsed_page :=
  if str_eqb url broken_url then Raised parse_error else Ok billing_page.

Definition inference_infer_modules (parsed_pages : list Parser.parsed_page)
  : res (dict Inference.ModuleNode) :=
  Ok (@Inference.infer_modules ascii_db SimpleUrls.simple_urls parsed_pages).

Definition run : res extract_result * list str :=
  @extract ascii_db crawler_crawl parser_parse inference_infer_modules
    (@summarizer_generate_description ascii_db)
    [broken_url] [].

End ParseFailure.

(** Two sections, each with one subsection, on one page. *)
Module TwoSections.

Definition document : Parser.soup :=
  [Parser.Tag (py "h1") [] [Parser.Text (py "Alpha")];
   Parser.Tag (py "h2") [] [Parser.Text (py "Alpha one")];
   Parser.Tag (py "h1") [] [Parser.Text (py "Beta")];
   Parser.Tag (py "h2") [] [Parser.Text (py "Beta one")]].

(** The page, with the given list of headings. *)
Definition page (headings : list Parser.heading) : Parser.parsed_page :=
  Parser.ParsedPage (py "https://docs.example.com/guide") (py "Alpha")
    headings [] (py "Alpha Alpha one Beta Beta one").

(** The names of the modules with the names of their submodules. *)
Definition outline (modules : dict Inference.ModuleNode)
  : list (str * list str) :=
  map (fun e => (fst e, map fst (Inference.submodules (snd e)))) modules.

End TwoSections.

(** A page whose module has a content of 10 characters and no
    submodule. *)
Module ShortModule.
Import Pipeline.

Definition url : str := py "https://docs.example.com/billing".

Definition pages : list Crawler.page :=
  [Crawler.Page url (py "<h1>Billing</h1>ok") 200 (py "text/html")].

Definition parsed : Parser.parsed_page :=
  Parser.ParsedPage url (py "Billing")
    [Parser.Heading 1 (py "Billing") [] (py "h1")] [] (py "Billing ok").

Definition run : res extract_result * list str :=
  @extract ascii_db (fun _ => Ok pages) (fun _ _ => Ok parsed)
    (fun parsed_pages =>
       Ok (@Inference.infer_modules ascii_db SimpleUrls.simple_urls
             parsed_pages))
    (@summarizer_generate_description ascii_db)
    [url] [].

End ShortModule.

(** A page with a section and a subsection, and the module that the
    inference makes of it. *)
Module BillingSite.

Definition url : str := py "https://docs.example.com/billing".

Definition sentence : str :=
  py "The billing module provides invoices to all customers daily.".

Definition parsed : Parser.parsed_page :=
  Parser.ParsedPage url (py "Billing")
    [Parser.Heading 1 (py "Billing") [] (py "h1");
     Parser.Heading 2 (py "Refunds") [] (py "h2")]
    [] sentence.

Definition inferred : dict Inference.ModuleNode :=
  [(py "Billing", Inference.ModuleData [(py "Refunds", [])] [] url None)].

End BillingSite.

(** A site of three pages and a link to another site. *)
Module SmallSite.
Import Crawler.

Definition home : str := py "https://docs.example.com/".
Definition guide : str := py "https://docs.example.com/guide".
Definition login : str := py "https://docs.example.com/login".
Definition api : str := py "https://docs.example.com/guide/api".
Definition elsewhere : str := py "https://example.org/".

Definition site : Web := {|
  robots_parser := unit;
  session_get := fun u =>
    if str_eqb u home || str_eqb u guide || str_eqb u api
       || str_eqb u elsewhere
    then Response 200 (Some (py "text/html; charset=utf-8")) u
    else Response 404 None [];
  read_robots := fun _ => None;
  can_fetch := fun _ _ _ => true;
  anchor_hrefs := fun html =>
    if str_eqb html home then [guide; login; elsewhere]
    else if str_eqb html guide then [api; home]
    else []
|}.

Definition crawler : URLCrawler :=
  {| max_depth := 1; max_pages := 100; respect_robots_txt := true |}.

(** The same crawler with [max_depth] 2. *)
Definition deep_crawler : URLCrawler :=
  {| max_depth := 2; max_pages := 100; respect_robots_txt := true |}.

End SmallSite.

(* ===================================================================== *)
(** * Properties *)
(* ===================================================================== *)

Unset Implicit Arguments.

(** ** Strings *)

Section StringFacts.

Lemma str_eqb_eq (a b : str) : str_eqb a b = true <-> a = b.
Proof.
  unfold str_eqb. destruct (str_eq_dec a b); split; congruence.
Qed.

Lemma str_eqb_refl (a : str) : str_eqb a a = true.
Proof. apply str_eqb_eq. reflexivity. Qed.

Lemma str_eqb_neq (a b : str) : str_eqb a b = false <-> a <> b.
Proof.
  unfold str_eqb. destruct (str_eq_dec a b); split; congruence.
Qed.

Lemma str_in_In (x : str) (l : list str) : str_in x l = true <-> In x l.
Proof.
  unfold str_in. rewrite existsb_exists. split.
  - intros [y [Hy Heq]]. apply str_eqb_eq in Heq. now subst.
  - intros H. exists x. split; [assumption | apply str_eqb_refl].
Qed.

Lemma is_empty_true {A} (l : list A) : is_empty l = true <-> l = [].
Proof. destruct l; simpl; split; congruence. Qed.

Lemma is_empty_false {A} (l : list A) : is_empty l = false <-> l <> [].
Proof. destruct l; simpl; split; congruence. Qed.


Lemma drop_while_length p s : length (drop_while p s) <= length s.
Proof.
  induction s as [|c s IH]; simpl; [lia|].
  destruct (p c); simpl; lia.
Qed.

Lemma drop_while_head p s c r : drop_while p s = c :: r -> p c = false.
Proof.
  induction s as [|d s IH]; simpl; [discriminate|].
  destruct (p d) eqn:Hd; [assumption|].
  intros [= -> _]. assumption.
Qed.

Lemma drop_while_false p s c :
  p c = false -> drop_while p (c :: s) = c :: s.
Proof. intros H. simpl. now rewrite H. Qed.


Lemma drop_while_snoc p s c :
  p c = false -> drop_while p (s ++ [c]) = drop_while p s ++ [c].
Proof.
  intros Hc. induction s as [|d s IH]; simpl.
  - now rewrite Hc.
  - destruct (p d); [assumption | reflexivity].
Qed.

Lemma drop_while_idem p s : drop_while p (drop_while p s) = drop_while p s.
Proof.
  destruct (drop_while p s) as [|c r] eqn:E; [reflexivity|].
  apply drop_while_false. eapply drop_while_head. eassumption.
Qed.


Lemma rstrip_length s : length (rstrip s) <= length s.
Proof.
  unfold rstrip. rewrite length_rev.
  etransitivity; [apply drop_while_length|]. now rewrite length_rev.
Qed.

Lemma rstrip_cons c s :
  is_space c = false -> rstrip (c :: s) = c :: rstrip s.
Proof.
  intros Hc. unfold rstrip. simpl.
  rewrite drop_while_snoc by assumption.
  now rewrite rev_app_distr.
Qed.

Lemma rstrip_idem s : rstrip (rstrip s) = rstrip s.
Proof.
  unfold rstrip. rewrite rev_involutive. now rewrite drop_while_idem.
Qed.


Lemma strip_length s : length (strip s) <= length s.
Proof.
  unfold strip, lstrip.
  etransitivity; [apply rstrip_length | apply drop_while_length].
Qed.

Lemma strip_idem s : strip (strip s) = strip s.
Proof.
  unfold strip, lstrip.
  destruct (drop_while is_space s) as [|c r] eqn:E.
  - reflexivity.
  - pose proof (drop_while_head _ _ _ _ E) as Hc.
    rewrite (rstrip_cons c r Hc).
    rewrite (drop_while_false is_space _ c Hc).
    rewrite <- (rstrip_cons c r Hc). apply rstrip_idem.
Qed.

(** A string that starts and ends with a character that is no
    whitespace is its own [strip]. *)
Lemma lstrip_head c s : is_space c = false -> lstrip (c :: s) = c :: s.
Proof. intros H. unfold lstrip. now apply drop_while_false. Qed.


Lemma remove_char_length c s : length (remove_char c s) <= length s.
Proof. apply filter_length_le. Qed.

Lemma In_firstn {A} (n : nat) (l : list A) (x : A) :
  In x (firstn n l) -> In x l.
Proof.
  intros H. rewrite <- (firstn_skipn n l). apply in_or_app. now left.
Qed.

End StringFacts.

(** ** Heading cleaning *)

Section CleanHeading.
Context {db : UnicodeDB} {ul : UrlLib}.
Import Inference.













End CleanHeading.

Section CleanHeadingClaim.
Context {db : UnicodeDB}.
Import Inference.


End CleanHeadingClaim.


(** ** Heading extraction *)

Section Headings.
Import Parser ParserSpec.

(** Induction on a document tree, with the hypothesis for every child. *)
Lemma node_ind (P : node -> Prop) :
  (forall s, P (Text s)) ->
  (forall name attrs children,
      Forall P children -> P (Tag name attrs children)) ->
  forall n, P n.
Proof.
  intros HT HG.
  fix IH 1. intros [s | name attrs children].
  - apply HT.
  - apply HG. induction children as [|c cs IHcs]; constructor.
    + apply IH.
    + apply IHcs.
Qed.

Lemma flat_map_filter {A B} (f : A -> list B) (p : B -> bool) (l : list A) :
  filter p (flat_map f l) = flat_map (fun x => filter p (f x)) l.
Proof.
  induction l as [|x l IH]; simpl; [reflexivity|].
  now rewrite filter_app, IH.
Qed.

Lemma flat_map_ext_Forall {A B} (f g : A -> list B) (l : list A) :
  Forall (fun x => f x = g x) l -> flat_map f l = flat_map g l.
Proof.
  induction 1 as [|x l Hx _ IH]; simpl; [reflexivity|].
  now rewrite Hx, IH.
Qed.

Lemma flat_map_flat_map {A B C} (f : A -> list B) (g : B -> list C) l :
  flat_map g (flat_map f l) = flat_map (fun x => flat_map g (f x)) l.
Proof.
  induction l as [|x l IH]; simpl; [reflexivity|].
  now rewrite flat_map_app, IH.
Qed.

Lemma heading_of_level lvl t h : In h (heading_of lvl t) -> level h = lvl.
Proof.
  unfold heading_of. destruct (negb _); simpl; [|tauto].
  intros [<-|[]]. reflexivity.
Qed.

Lemma filter_heading_of lvl lvl' t :
  filter (fun h => (level h =? lvl)%Z) (heading_of lvl' t)
  = if (lvl' =? lvl)%Z then heading_of lvl' t else [].
Proof.
  unfold heading_of. destruct (negb _); simpl.
  - now destruct (lvl' =? lvl)%Z.
  - now destruct (lvl' =? lvl)%Z.
Qed.

Lemma heading_level_h_name lvl name :
  In lvl [1; 2; 3; 4]%Z ->
  str_eqb name (h_name lvl) = true <-> heading_level name = Some lvl.
Proof.
  intros Hl. simpl in Hl. unfold heading_level.
  destruct Hl as [<-|[<-|[<-|[<-|[]]]]];
    match goal with
    | |- context [h_name ?k] =>
        let v := eval vm_compute in (h_name k) in
        change (h_name k) with v
    end;
    repeat match goal with
      | |- context [str_eqb name ?b] =>
          let E := fresh "E" in
          destruct (str_eqb name b) eqn:E;
          [apply str_eqb_eq in E; subst name |]
      end;
    vm_compute in *; split; congruence.
Qed.

(** The headings of one level, found tag by tag, are the headings of
    the document filtered by that level. *)
Lemma find_level_below lvl n :
  In lvl [1; 2; 3; 4]%Z ->
  flat_map (heading_of lvl) (find_all_in (h_name lvl) n)
  = filter (fun h => (level h =? lvl)%Z) (headings_below n).
Proof.
  intros Hl. induction n as [s | name attrs children IH] using node_ind.
  - reflexivity.
  - cbn [find_all_in headings_below].
    rewrite flat_map_app, filter_app.
    f_equal.
    + pose proof (heading_level_h_name lvl name Hl) as Hn.
      destruct (str_eqb name (h_name lvl)).
      * rewrite (proj1 Hn eq_refl). cbn [flat_map].
        rewrite app_nil_r, filter_heading_of. now rewrite Z.eqb_refl.
      * destruct (heading_level name) as [lvl'|]; [|reflexivity].
        rewrite filter_heading_of.
        destruct (lvl' =? lvl)%Z eqn:E; [|reflexivity].
        apply Z.eqb_eq in E. subst lvl'.
        destruct Hn as [_ Hn]. discriminate (Hn eq_refl).
    + rewrite flat_map_flat_map, flat_map_filter.
      apply flat_map_ext_Forall. exact IH.
Qed.

(** The list that [_extract_headings] builds: level by level, every
    level in document order. *)
Lemma extract_headings_by_level s :
  _extract_headings s
  = flat_map
      (fun lvl =>
         filter (fun h => (level h =? lvl)%Z) (headings_in_document_order s))
      [1; 2; 3; 4]%Z.
Proof.
  unfold _extract_headings, headings_in_document_order, find_all.
  apply flat_map_ext_Forall.
  repeat constructor;
    (rewrite flat_map_flat_map, flat_map_filter;
     apply flat_map_ext_Forall, Forall_forall; intros n _;
     apply find_level_below; simpl; tauto).
Qed.

End Headings.

Section HeadingsClaim.
Import Parser ParserSpec.

Lemma headings_below_levels n :
  Forall (fun h => In (level h) [1; 2; 3; 4]%Z) (headings_below n).
Proof.
  induction n as [s | name attrs children IH] using node_ind.
  - constructor.
  - cbn [headings_below]. apply Forall_app. split.
    + unfold heading_level.
      repeat match goal with
        | |- context [str_eqb name ?b] => destruct (str_eqb name b)
        end;
        try constructor;
        apply Forall_forall; intros h Hh;
        apply heading_of_level in Hh; rewrite Hh; simpl; tauto.
    + apply Forall_flat_map. exact IH.
Qed.

Lemma group_by_level_permutation (l : list heading) :
  Forall (fun h => In (level h) [1; 2; 3; 4]%Z) l ->
  Permutation
    (flat_map (fun lvl => filter (fun h => (level h =? lvl)%Z) l)
       [1; 2; 3; 4]%Z)
    l.
Proof.
  induction 1 as [|h l Hh _ IH]; [reflexivity|].
  cbn [flat_map] in *. rewrite app_nil_r in *.
  cbn [filter].
  simpl in Hh.
  destruct Hh as [E|[E|[E|[E|[]]]]]; rewrite <- E; cbn [Z.eqb Pos.eqb app].
  - now constructor.
  - rewrite <- Permutation_middle. now constructor.
  - rewrite app_assoc, <- Permutation_middle, <- app_assoc.
    now constructor.
  - rewrite !app_assoc, <- Permutation_middle, <- !app_assoc.
    now constructor.
Qed.

(** Every heading element of the document is recorded once, with its
    level, text and id: the list is a rearrangement of the headings in
    document order, nothing is merged. *)
Lemma extract_headings_permutation s :
  Permutation (_extract_headings s) (headings_in_document_order s).
Proof.
  rewrite extract_headings_by_level.
  apply group_by_level_permutation.
  unfold headings_in_document_order.
  apply Forall_flat_map, Forall_forall. intros n _.
  apply headings_below_levels.
Qed.

(** C1.  On [<h2>Setup</h2><h1>Guide</h1>] the extraction returns the
    [h1] before the [h2]: the list is grouped by level and is not in the
    order of the document. *)
Theorem extract_headings_groups_levels :
  _extract_headings h2_before_h1
  = [Heading 1 (py "Guide") [] (py "h1");
     Heading 2 (py "Setup") [] (py "h2")]
  /\ headings_in_document_order h2_before_h1
     = [Heading 2 (py "Setup") [] (py "h2");
        Heading 1 (py "Guide") [] (py "h1")]
  /\ _extract_headings h2_before_h1
     <> headings_in_document_order h2_before_h1.
Proof.
  split; [reflexivity|]. split; [reflexivity|].
  intros H. vm_compute in H. discriminate H.
Qed.

End HeadingsClaim.

(** ** The stable descending sort *)

Section SortFacts.
Context {A : Type} (key : A -> Z).

Definition desc (a b : A) : Prop := (key b <= key a)%Z.

Lemma insert_desc_perm x l : Permutation (insert_desc key x l) (x :: l).
Proof.
  induction l as [|y l IH]; simpl; [reflexivity|].
  destruct (key x <? key y)%Z; [|reflexivity].
  rewrite IH. apply perm_swap.
Qed.

Lemma sort_desc_perm l : Permutation (sort_desc key l) l.
Proof.
  induction l as [|x l IH]; simpl; [reflexivity|].
  rewrite insert_desc_perm. now constructor.
Qed.

Lemma sort_desc_In l x : In x (sort_desc key l) <-> In x l.
Proof.
  split; apply Permutation_in;
    [apply sort_desc_perm | symmetry; apply sort_desc_perm].
Qed.

Lemma sort_desc_length l : length (sort_desc key l) = length l.
Proof. apply Permutation_length, sort_desc_perm. Qed.

Lemma insert_desc_sorted x l :
  StronglySorted desc l -> StronglySorted desc (insert_desc key x l).
Proof.
  induction 1 as [|y l Hs IH Hy]; simpl.
  - repeat constructor.
  - destruct (key x <? key y)%Z eqn:E.
    + apply Z.ltb_lt in E. constructor; [assumption|].
      apply Forall_forall. intros z Hz.
      apply (Permutation_in _ (insert_desc_perm x l)) in Hz.
      destruct Hz as [<-|Hz].
      * unfold desc. lia.
      * rewrite Forall_forall in Hy. now apply Hy.
    + apply Z.ltb_ge in E. constructor.
      * now constructor.
      * constructor; [exact E|].
        eapply Forall_impl; [|exact Hy].
        unfold desc. intros z Hz. simpl in Hz. lia.
Qed.

Lemma sort_desc_sorted l : StronglySorted desc (sort_desc key l).
Proof.
  induction l as [|x l IH]; simpl; [constructor|].
  now apply insert_desc_sorted.
Qed.

Lemma sorted_app_le (l1 l2 : list A) a b :
  StronglySorted desc (l1 ++ l2) -> In a l1 -> In b l2 ->
  (key b <= key a)%Z.
Proof.
  induction l1 as [|x l1 IH]; simpl; intros Hs Ha Hb; [contradiction|].
  inversion Hs as [|? ? Hs' Hx]; subst.
  destruct Ha as [->|Ha].
  - rewrite Forall_forall in Hx. apply Hx, in_or_app. now right.
  - now apply IH.
Qed.

(** What the first [k] of the sorted list are: no element left out has
    a larger key. *)
Lemma sort_desc_top k l a b :
  In a (firstn k (sort_desc key l)) ->
  In b (skipn k (sort_desc key l)) ->
  (key b <= key a)%Z.
Proof.
  intros Ha Hb. apply (sorted_app_le (firstn k (sort_desc key l))
                         (skipn k (sort_desc key l))); try assumption.
  rewrite firstn_skipn. apply sort_desc_sorted.
Qed.

(** Stability: the elements of one key keep their order. *)
Lemma insert_desc_stable (p : Z) x l :
  filter (fun a => (key a =? p)%Z) (insert_desc key x l)
  = filter (fun a => (key a =? p)%Z) (x :: l).
Proof.
  induction l as [|y l IH]; [reflexivity|].
  cbn [insert_desc].
  destruct (key x <? key y)%Z eqn:E; [|reflexivity].
  apply Z.ltb_lt in E.
  cbn [filter] in *. rewrite IH.
  destruct (key x =? p)%Z eqn:Ex; [|reflexivity].
  destruct (key y =? p)%Z eqn:Ey; [|reflexivity].
  apply Z.eqb_eq in Ex, Ey. lia.
Qed.

Lemma sort_desc_stable (p : Z) l :
  filter (fun a => (key a =? p)%Z) (sort_desc key l)
  = filter (fun a => (key a =? p)%Z) l.
Proof.
  induction l as [|x l IH]; [reflexivity|].
  cbn [sort_desc fold_right]. rewrite insert_desc_stable.
  cbn [filter]. fold (sort_desc key l). now rewrite IH.
Qed.

End SortFacts.

(** ** Dicts *)

Section DictFacts.
Context {V : Type}.

Lemma dict_get_set (k k' : str) (v : V) (d : dict V) :
  dict_get k (dict_set k' v d)
  = if str_eqb k k' then Some v else dict_get k d.
Proof.
  induction d as [|[k0 v0] d IH]; simpl.
  - destruct (str_eqb k k'); reflexivity.
  - destruct (str_eqb k' k0) eqn:E0; simpl.
    + apply str_eqb_eq in E0. subst k0.
      destruct (str_eqb k k'); reflexivity.
    + destruct (str_eqb k k0) eqn:E1.
      * apply str_eqb_eq in E1. subst k0.
        destruct (str_eqb k k') eqn:E2; [|reflexivity].
        apply str_eqb_eq in E2. subst k'.
        now rewrite str_eqb_refl in E0.
      * exact IH.
Qed.

Lemma dict_mem_In (k : str) (d : dict V) :
  dict_mem k d = true <-> In k (map fst d).
Proof.
  unfold dict_mem. induction d as [|[k0 v0] d IH]; simpl.
  - split; [discriminate | tauto].
  - destruct (str_eqb k k0) eqn:E.
    + apply str_eqb_eq in E. subst. split; auto.
    + apply str_eqb_neq in E. rewrite IH. split; [tauto|].
      intros [H|H]; [congruence | assumption].
Qed.

Lemma dict_set_keys (k : str) (v : V) (d : dict V) :
  map fst (dict_set k v d)
  = if dict_mem k d then map fst d else map fst d ++ [k].
Proof.
  unfold dict_mem. induction d as [|[k0 v0] d IH]; simpl; [reflexivity|].
  destruct (str_eqb k k0) eqn:E; simpl.
  - apply str_eqb_eq in E. now subst.
  - rewrite IH. now destruct (dict_get k d).
Qed.

Lemma dict_set_keys_In (k k' : str) (v : V) (d : dict V) :
  In k (map fst (dict_set k' v d)) <-> k = k' \/ In k (map fst d).
Proof.
  rewrite dict_set_keys.
  destruct (dict_mem k' d) eqn:E.
  - apply dict_mem_In in E. split; [tauto|]. intros [->|H]; assumption.
  - rewrite in_app_iff. simpl. split; [intuition | intuition].
Qed.

Lemma dict_set_NoDup (k : str) (v : V) (d : dict V) :
  NoDup (map fst d) -> NoDup (map fst (dict_set k v d)).
Proof.
  intros H. rewrite dict_set_keys.
  destruct (dict_mem k d) eqn:E; [assumption|].
  apply NoDup_app; [assumption | repeat constructor; simpl; tauto |].
  intros x Hx [<-|[]].
  apply dict_mem_In in Hx. congruence.
Qed.

Lemma dict_set_length (k : str) (v : V) (d : dict V) :
  length (dict_set k v d) <= S (length d).
Proof.
  rewrite <- (length_map fst), dict_set_keys.
  destruct (dict_mem k d); rewrite ?length_app, length_map; simpl; lia.
Qed.

Lemma dict_get_In (k : str) (v : V) (d : dict V) :
  dict_get k d = Some v -> In (k, v) d.
Proof.
  induction d as [|[k0 v0] d IH]; simpl; [discriminate|].
  destruct (str_eqb k k0) eqn:E.
  - apply str_eqb_eq in E. intros [= ->]. left. now subst.
  - intros H. right. now apply IH.
Qed.

Lemma dict_In_get (k : str) (v : V) (d : dict V) :
  NoDup (map fst d) -> In (k, v) d -> dict_get k d = Some v.
Proof.
  induction d as [|[k0 v0] d IH]; simpl; [tauto|].
  intros Hnd [[= -> ->]|Hin].
  - now rewrite str_eqb_refl.
  - inversion Hnd as [|? ? Hk0 Hnd']; subst.
    destruct (str_eqb k k0) eqn:E.
    + apply str_eqb_eq in E. subst k0. exfalso. apply Hk0.
      apply in_map_iff. now exists (k, v).
    + now apply IH.
Qed.

End DictFacts.

(** ** Hierarchy inference *)

Section Hierarchy.
Context {db : UnicodeDB} {ul : UrlLib}.
Import Inference InferenceSpec.








End Hierarchy.

Section HierarchyClaim.
Context {db : UnicodeDB} {ul : UrlLib}.
Import Inference InferenceSpec.

Lemma first_non_empty_last (r : dict ModuleNode) : first_non_empty [r] = r.
Proof. destruct r; reflexivity. Qed.

Lemma build_hierarchy_choice hs cm pm :
  _build_hierarchy hs cm pm
  = first_non_empty
      [strategy_h1 hs cm pm; strategy_h2 hs cm pm; strategy_url hs cm pm].
Proof.
  unfold _build_hierarchy.
  set (h1s := filter (fun h => (level h =? 1)%Z) hs).
  set (h2s := filter (fun h => (level h =? 2)%Z) hs).
  set (h3s := filter (fun h => (level h =? 3)%Z) hs).
  assert (E1 : (if negb (is_empty h1s)
                then fold_left (h1_step h2s h3s hs cm pm) h1s []
                else []) = strategy_h1 hs cm pm).
  { unfold strategy_h1. fold h1s h2s h3s. now destruct h1s. }
  rewrite E1.
  cbn [first_non_empty].
  destruct (strategy_h1 hs cm pm) as [|m ms] eqn:Es1; cbn [is_empty andb].
  - assert (E2 : (if negb (is_empty h2s)
                  then fold_left (h2_step h2s h3s hs cm pm) (top_h2s h2s) []
                  else []) = strategy_h2 hs cm pm).
    { unfold strategy_h2. fold h2s h3s. now destruct h2s. }
    rewrite E2.
    destruct (strategy_h2 hs cm pm) as [|m ms]; cbn [is_empty].
    + unfold strategy_url. now destruct (_infer_from_urls_and_titles _ _ _).
    + reflexivity.
  - reflexivity.
Qed.


End HierarchyClaim.

(** ** Sentence selection *)

Section Selection.
Context {db : UnicodeDB}.
Import Summarizer SummarizerSpec.
Variable self : DescriptionSummarizer.

Lemma restore_order_acc selected sentences result :
  length result < max_sentences self ->
  length (filter (fun s => str_in s selected) sentences) + length result
  <= max_sentences self ->
  restore_order self selected sentences result
  = result ++ filter (fun s => str_in s selected) sentences.
Proof.
  revert result. induction sentences as [|sent rest IH]; intros result Hlt Hle.
  - simpl. now rewrite app_nil_r.
  - cbn [restore_order filter] in *.
    destruct (str_in sent selected) eqn:E.
    + cbn [length] in Hle.
      destruct (max_sentences self <=? length (result ++ [sent])) eqn:Emax.
      * apply Nat.leb_le in Emax. rewrite length_app in Emax. simpl in Emax.
        assert (Hnil : filter (fun s => str_in s selected) rest = []).
        { apply length_zero_iff_nil. lia. }
        now rewrite Hnil.
      * apply Nat.leb_gt in Emax.
        rewrite IH; [now rewrite <- app_assoc | assumption |].
        rewrite length_app. simpl. lia.
    + now apply IH.
Qed.

Lemma filter_in_count (selected l : list str) :
  NoDup l ->
  length (filter (fun s => str_in s selected) l) <= length selected.
Proof.
  intros Hnd.
  apply NoDup_incl_length.
  - now apply NoDup_filter.
  - intros s Hs. apply filter_In in Hs. now apply str_in_In.
Qed.

Lemma selected_of_length sentences :
  length (selected_of self sentences) <= max_sentences self.
Proof.
  unfold selected_of. rewrite length_map, length_firstn. lia.
Qed.

Lemma selected_of_candidates sentences s :
  In s (selected_of self sentences) -> In s (firstn 20 sentences).
Proof.
  unfold selected_of, scored_sorted. intros H.
  apply in_map_iff in H. destruct H as ([z s'] & <- & H).
  apply In_firstn in H. apply (proj1 (sort_desc_In fst _ _)) in H.
  apply in_map_iff in H. destruct H as (s'' & [= _ ->] & H). exact H.
Qed.

(** When no sentence comes twice, the result is the selected sentences
    in the order of the candidates. *)
Lemma select_sentences_distinct sentences :
  NoDup sentences ->
  0 < max_sentences self ->
  _select_sentences self sentences
  = filter (fun s => str_in s (selected_of self sentences)) sentences.
Proof.
  intros Hnd Hmax. unfold _select_sentences.
  destruct sentences as [|s0 rest] eqn:Es; [reflexivity|].
  rewrite <- Es in *. cbn [is_empty].
  replace (is_empty sentences) with false by now rewrite Es.
  rewrite restore_order_acc; cbn [length app]; [| lia |].
  - destruct (filter _ sentences) as [|x xs] eqn:Ef; [|reflexivity].
    cbn [is_empty negb].
    (* nothing kept: nothing was selected, which the first candidate
       contradicts *)
    exfalso.
    assert (Hsel : selected_of self sentences <> []).
    { unfold selected_of, scored_sorted. rewrite Es. cbn [firstn map].
      intros Hnil. apply (f_equal (@length _)) in Hnil.
      rewrite length_map, length_firstn, sort_desc_length in Hnil.
      simpl in Hnil. lia. }
    destruct (selected_of self sentences) as [|y ys] eqn:Ey; [congruence|].
    assert (Hy : In y (filter (fun s => str_in s (y :: ys)) sentences)).
    { apply filter_In. split.
      - eapply In_firstn, selected_of_candidates. rewrite Ey. now left.
      - apply str_in_In. now left. }
    rewrite Ef in Hy. contradiction.
  - rewrite Nat.add_0_r.
    etransitivity; [now apply filter_in_count | apply selected_of_length].
Qed.

(** The selected sentences score at least as high as every candidate
    left out. *)
Lemma selected_of_top sentences a b :
  NoDup sentences ->
  In a (selected_of self sentences) ->
  In b (firstn 20 sentences) ->
  ~ In b (selected_of self sentences) ->
  (_score_sentence b <= _score_sentence a)%Z.
Proof.
  intros Hnd Ha Hb Hnb. unfold selected_of in *.
  set (sorted := scored_sorted sentences) in *.
  apply in_map_iff in Ha. destruct Ha as ([za a'] & Hfa & Ha).
  simpl in Hfa. subst a'.
  assert (Hscore : forall z s, In (z, s) sorted -> z = _score_sentence s).
  { intros z s H. apply (proj1 (sort_desc_In fst _ _)) in H.
    apply in_map_iff in H. destruct H as (s' & [= <- <-] & _). reflexivity. }
  assert (Hb' : In (_score_sentence b, b) sorted).
  { apply (sort_desc_In fst). apply in_map_iff. now exists b. }
  rewrite <- (firstn_skipn (max_sentences self) sorted) in Hb'.
  apply in_app_or in Hb'. destruct Hb' as [Hb' | Hb'].
  - exfalso. apply Hnb. apply in_map_iff.
    now exists (_score_sentence b, b).
  - rewrite (Hscore za a (In_firstn _ _ _ Ha)) in Ha.
    apply (sort_desc_top fst (max_sentences self) _ _ _ Ha Hb').
Qed.

End Selection.

Section SelectionClaim.
Import Summarizer SummarizerSpec.

(** The sort of the scored candidates is stable: the candidates of one
    score keep the order they came in. *)
Lemma scored_sorted_stable {db : UnicodeDB} sentences (p : Z) :
  filter (fun x => (fst x =? p)%Z) (scored_sorted sentences)
  = filter (fun x => (fst x =? p)%Z)
      (map (fun sent => (_score_sentence sent, sent)) (firstn 20 sentences)).
Proof. unfold scored_sorted. apply sort_desc_stable. Qed.

(** Only the first 20 candidates are scored. *)
Lemma scored_sorted_first_20 {db : UnicodeDB} sentences :
  scored_sorted sentences = scored_sorted (firstn 20 sentences)
  /\ length (scored_sorted sentences) <= 20.
Proof.
  unfold scored_sorted. split.
  - now rewrite firstn_firstn.
  - rewrite sort_desc_length, length_map, length_firstn. lia.
Qed.

(** C6.  On candidates in which one sentence comes three times the
    selection loses a selected sentence: the three best are the two
    long sentences and the plain one, the result holds the plain
    sentence twice and leaves out the second long one.  The same
    happens from the text, through [generate_description]. *)
Theorem select_sentences_repeated :
  @selected_of ascii_db default_summarizer repeated
  = [billing; refunds; plain]
  /\ @_select_sentences ascii_db default_summarizer repeated
     = [plain; billing; plain]
  /\ In refunds (@selected_of ascii_db default_summarizer repeated)
  /\ ~ In refunds (@_select_sentences ascii_db default_summarizer repeated)
  /\ @_extract_sentences ascii_db (@_clean_content ascii_db repeated_text)
     = repeated
  /\ @generate_description ascii_db default_summarizer repeated_text
     = join (py " ") [plain; billing; plain].
Proof.
  assert (E1 : @selected_of ascii_db default_summarizer repeated
               = [billing; refunds; plain]) by (vm_compute; reflexivity).
  assert (E2 : @_select_sentences ascii_db default_summarizer repeated
               = [plain; billing; plain]) by (vm_compute; reflexivity).
  split; [exact E1|]. split; [exact E2|].
  split; [rewrite E1; simpl; tauto|].
  split.
  - rewrite E2. simpl. intros [H|[H|[H|[]]]]; vm_compute in H; discriminate.
  - split; vm_compute; reflexivity.
Qed.

End SelectionClaim.

(** ** Content cleaning *)

Section SubDel.
Import Regex.

(** The scan of [sub_del], one character at a time. *)
Lemma sub_del_cons m c s :
  sub_del m (c :: s)
  = match m (c :: s) with
    | Some (S n) => sub_del m (skipn n s)
    | _ => c :: sub_del m s
    end.
Proof.
  simp sub_del. destruct (m (c :: s)) as [[|n]|]; reflexivity.
Qed.

Lemma sub_del_no_match m s :
  (forall before rest, s = before ++ rest -> m rest = None) ->
  sub_del m s = s.
Proof.
  induction s as [|c s IH]; intros H; [now simp sub_del|].
  rewrite sub_del_cons, (H [] (c :: s) eq_refl).
  f_equal. apply IH. intros before rest E.
  apply (H (c :: before)). now rewrite E.
Qed.

End SubDel.

Section CleanContent.
Context {db : UnicodeDB}.
Import Regex Summarizer SummarizerSpec.



Lemma take_while_all p s :
  Forall (fun c => p c = true) s -> take_while p s = s.
Proof.
  induction 1 as [|c s Hc _ IH]; simpl; [reflexivity|].
  now rewrite Hc, IH.
Qed.










Lemma cut_at_no_match lead_in text :
  ci_contains lead_in text = false -> cut_at lead_in text = text.
Proof.
  induction text as [|c text IH]; [reflexivity|].
  cbn [ci_contains cut_at]. intros H.
  apply orb_false_iff in H. destruct H as [H1 H2].
  now rewrite H1, IH.
Qed.




End CleanContent.

Section UrlsAndEmails.
Import Regex Summarizer SummarizerSpec.

Lemma take_drop_while p s : take_while p s ++ drop_while p s = s.
Proof.
  induction s as [|c s IH]; simpl; [reflexivity|].
  destruct (p c); simpl; [now rewrite IH | reflexivity].
Qed.

Lemma take_while_Forall p s : Forall (fun c => p c = true) (take_while p s).
Proof.
  induction s as [|c s IH]; simpl; [constructor|].
  destruct (p c) eqn:E; now constructor.
Qed.


Lemma take_while_idem p s : take_while p (take_while p s) = take_while p s.
Proof. apply take_while_all, take_while_Forall. Qed.





(** *** E-mail tokens *)

Definition no_at (s : str) : Prop :=
  existsb (N.eqb 64) (removelast (take_while not_space s)) = false.


Lemma m_email_nil : m_email [] = None.
Proof. reflexivity. Qed.




Lemma no_at_starts_space s :
  take_while not_space s = [] -> no_at s.
Proof. unfold no_at. now intros ->. Qed.







End UrlsAndEmails.

Section Urls.
Import Regex Summarizer SummarizerSpec.

















End Urls.

Section CleanContentClaim.
Context {db : UnicodeDB}.
Import Regex Summarizer SummarizerSpec.

Lemma lstrip_suffix s : exists sp, s = sp ++ lstrip s.
Proof.
  exists (take_while is_space s). symmetry. apply take_drop_while.
Qed.

Lemma rstrip_prefix s :
  exists sp, s = rstrip s ++ sp /\ Forall (fun c => is_space c = true) sp.
Proof.
  exists (rev (take_while is_space (rev s))). split.
  - unfold rstrip. rewrite <- rev_app_distr, take_drop_while.
    now rewrite rev_involutive.
  - apply Forall_rev, take_while_Forall.
Qed.








End CleanContentClaim.

(** ** The crawl *)

Section CrawlLoop.
Context {db : UnicodeDB} {ul : UrlLib} {web : Crawler.Web}.
Import Crawler.
Variable self : URLCrawler.

(** The loop, one iteration at a time. *)
Lemma crawl_loop_iterate base st :
  crawl_loop self base st
  = match crawl_step self base st with
    | None => st
    | Some st' => crawl_loop self base st'
    end.
Proof.
  funelim (crawl_loop self base st).
  all: match goal with
       | H : crawl_step _ _ ?s = _ |- context [crawl_step _ _ ?s] =>
           now rewrite H
       end.
Qed.

End CrawlLoop.

Section CrawlInvariant.
Context {db : UnicodeDB} {ul : UrlLib} {web : Crawler.Web}.
Import Crawler CrawlerSpec.
Variable self : URLCrawler.

Lemma crawl_loop_reaches base st :
  reaches self base st (crawl_loop self base st).
Proof.
  funelim (crawl_loop self base st).
  - match goal with
    | H : crawl_step _ _ ?s = Some ?s', IH : reaches _ _ ?s' _ |- _ =>
        apply rt_trans with s'; [apply rt_step; exact H | exact IH]
    end.
  - apply rt_refl.
Qed.

Lemma crawl_loop_done base st :
  crawl_step self base (crawl_loop self base st) = None.
Proof.
  funelim (crawl_loop self base st); assumption.
Qed.

(** An iteration seen from outside: it takes the head of the queue and
    skips it, or crawls it; a crawl that fetches a page may add links
    at the next depth, and only when the depth is below the limit. *)
Lemma crawl_step_cases base st st' :
  crawl_step self base st = Some st' ->
  exists u d rest,
    queue st = (u, d) :: rest
    /\ (Z.of_nat (length (pages st)) < max_pages self)%Z
    /\ ((st' = State rest (visited st) (pages st) (crawling st)
         /\ (str_in u (visited st) = true
             \/ (max_depth self < d)%Z
             \/ _should_crawl_url self u base = false))
        \/ (str_in u (visited st) = false
            /\ (d <= max_depth self)%Z
            /\ _should_crawl_url self u base = true
            /\ ((_fetch_page u = None
                 /\ st' = State rest (u :: visited st) (pages st)
                            (crawling st ++ [(u, d)]))
                \/ exists p added,
                    _fetch_page u = Some p
                    /\ st' = State (rest ++ added) (u :: visited st)
                               (pages st ++ [p]) (crawling st ++ [(u, d)])
                    /\ (added <> [] -> (d < max_depth self)%Z)
                    /\ (forall e, In e added ->
                          snd e = (d + 1)%Z
                          /\ In (fst e) (_extract_links (html p) u)
                          /\ _should_crawl_url self (fst e) base = true)))).
Proof.
  unfold crawl_step.
  destruct (queue st) as [|[u d] rest]; [discriminate|].
  exists u, d, rest. split; [reflexivity|].
  destruct (Z.of_nat (length (pages st)) <? max_pages self)%Z eqn:Hp;
    cbn [negb] in H; [|discriminate].
  apply Z.ltb_lt in Hp. split; [exact Hp|].
  destruct (str_in u (visited st)) eqn:Hv.
  { injection H as <-. left. auto. }
  destruct (max_depth self <? d)%Z eqn:Hd.
  { injection H as <-. apply Z.ltb_lt in Hd. left. auto. }
  apply Z.ltb_ge in Hd.
  destruct (_should_crawl_url self u base) eqn:Hs; cbn [negb] in H.
  2: { injection H as <-. left. auto. }
  right. repeat split; try assumption.
  destruct (_fetch_page u) as [p|] eqn:Hf.
  2: { injection H as <-. left. auto. }
  injection H as <-. right.
  destruct (d <? max_depth self)%Z eqn:Hlt.
  - eexists p, _. split; [reflexivity|]. split; [reflexivity|].
    apply Z.ltb_lt in Hlt. split; [auto|].
    intros e He. apply in_map_iff in He. destruct He as (link & <- & Hl).
    apply filter_In in Hl. destruct Hl as [Hl1 Hl2].
    apply andb_true_iff in Hl2. simpl. tauto.
  - exists p, []. rewrite app_nil_r.
    split; [reflexivity|]. split; [reflexivity|].
    split; [congruence | intros e []].
Qed.

Lemma fetch_page_url u p : _fetch_page u = Some p -> page_url p = u.
Proof.
  unfold _fetch_page. destruct (session_get u) as [|status header text];
    [discriminate|].
  destruct ((400 <=? status)%Z && (status <? 600)%Z); [discriminate|].
  destruct (negb _); [discriminate|].
  now intros [= <-].
Qed.

Lemma crawl_invariant_initial base seeds :
  crawl_invariant self base (initial_state seeds).
Proof.
  unfold crawl_invariant, initial_state. simpl. repeat split; try tauto.
  - apply in_map_iff in H. destruct H as (x & [= _ <-] & _). lia.
  - apply in_map_iff in H. destruct H as (x & [= _ <-] & _). now left.
Qed.

Lemma crawl_invariant_step base st st' :
  crawl_invariant self base st ->
  crawl_step self base st = Some st' ->
  crawl_invariant self base st'.
Proof.
  intros (Iq & Ic & Ip) Hstep.
  destruct (crawl_step_cases _ _ _ Hstep)
    as (u & d & rest & Hq & _ & Hcases).
  assert (Hrest : forall u' d', In (u', d') rest -> In (u', d') (queue st))
    by (intros; rewrite Hq; now right).
  assert (Hd0 : (0 <= d)%Z /\ (d = 0%Z \/ (d <= max_depth self)%Z))
    by (apply (Iq u); rewrite Hq; now left).
  destruct Hcases as [[-> _] | (Hv & Hd & Hs & [[Hf ->] | Hfetched])].
  - split; [|split]; simpl.
    + intros u' d' H. apply (Iq u'). now apply Hrest.
    + exact Ic.
    + exact Ip.
  - split; [|split]; simpl.
    + intros u' d' H. apply (Iq u'). now apply Hrest.
    + intros u' d' H. apply in_app_or in H.
      destruct H as [H|[[= <- <-]|[]]]; [now apply Ic|].
      split; [lia | assumption].
    + intros p H. destruct (Ip p H) as [Hp [d' Hd']].
      split; [assumption|]. exists d'. apply in_or_app. now left.
  - destruct Hfetched as (p & added & Hf & -> & Hadd & Hall).
    assert (Hadded : forall u' d', In (u', d') added ->
                                   (d' = d + 1 /\ d < max_depth self)%Z).
    { intros u' d' Hin. split.
      - exact (proj1 (Hall _ Hin)).
      - apply Hadd. intros ->. contradiction. }
    split; [|split]; simpl.
    + intros u' d' H. apply in_app_or in H. destruct H as [H|H].
      * apply (Iq u'). now apply Hrest.
      * apply Hadded in H. lia.
    + intros u' d' H. apply in_app_or in H.
      destruct H as [H|[[= <- <-]|[]]]; [now apply Ic|].
      split; [lia | assumption].
    + intros p' H. apply in_app_or in H. destruct H as [H|[<-|[]]].
      * destruct (Ip p' H) as [Hp [d' Hd']].
        split; [assumption|]. exists d'. apply in_or_app. now left.
      * rewrite (fetch_page_url _ _ Hf). split; [assumption|].
        exists d. apply in_or_app. right. now left.
Qed.

Lemma crawl_invariant_reaches base st st' :
  reaches self base st st' ->
  crawl_invariant self base st -> crawl_invariant self base st'.
Proof.
  induction 1 as [s s' Hs | s | s s' s'' _ IH1 _ IH2]; intros Hinv.
  - eapply crawl_invariant_step; eassumption.
  - assumption.
  - auto.
Qed.

End CrawlInvariant.

Section CrawlClaims.
Context {db : UnicodeDB} {ul : UrlLib} {web : Crawler.Web}.
Import Crawler CrawlerSpec.
Variable self : URLCrawler.

Lemma should_crawl_in_domain u base :
  _should_crawl_url self u base = true ->
  netloc (urlparse u) = base.
Proof.
  unfold _should_crawl_url.
  destruct (negb (str_in _ _)); [discriminate|].
  destruct (str_eqb (netloc (urlparse u)) base) eqn:E; [|discriminate].
  intros _. now apply str_eqb_eq.
Qed.

(** The state that [crawl] ends in is reached from the initial state by
    iterations of the loop, and satisfies the invariant. *)
Lemma crawl_final_invariant seed0 seeds :
  crawl_invariant self (_get_domain (_normalize_url seed0))
    (crawl_final self (seed0 :: seeds)).
Proof.
  unfold crawl_final. cbn [map].
  eapply crawl_invariant_reaches.
  - apply crawl_loop_reaches.
  - apply crawl_invariant_initial.
Qed.


End CrawlClaims.

Section CrawlDomain.
Context {db : UnicodeDB} {ul : UrlLib} {web : Crawler.Web}.
Import Crawler CrawlerSpec.
Variable self : URLCrawler.

(** Two runs of the loop that differ only by queue entries of other
    domains. *)
Definition same_but_foreign (base : str) (st1 st2 : state) : Prop :=
  visited st1 = visited st2
  /\ pages st1 = pages st2
  /\ crawling st1 = crawling st2
  /\ queue st2 = filter (in_domain base) (queue st1).

Lemma foreign_entry_skipped base u d rest vis pgs crw :
  in_domain base (u, d) = false ->
  (Z.of_nat (length pgs) <? max_pages self)%Z = true ->
  crawl_step self base (State ((u, d) :: rest) vis pgs crw)
  = Some (State rest vis pgs crw).
Proof.
  intros Hdom Hp. unfold crawl_step. cbn [queue pages visited crawling].
  rewrite Hp. cbn [negb].
  destruct (str_in u vis); [reflexivity|].
  destruct (max_depth self <? d)%Z; [reflexivity|].
  destruct (_should_crawl_url self u base) eqn:Hs; [|reflexivity].
  apply should_crawl_in_domain in Hs.
  unfold in_domain in Hdom. cbn [fst] in Hdom.
  rewrite Hs, str_eqb_refl in Hdom. discriminate.
Qed.

Lemma added_links_in_domain base (links : list str) vis (d : Z) :
  filter (in_domain base)
    (map (fun link => (link, d))
       (filter (fun link => negb (str_in link vis)
                            && _should_crawl_url self link base) links))
  = map (fun link => (link, d))
      (filter (fun link => negb (str_in link vis)
                           && _should_crawl_url self link base) links).
Proof.
  induction links as [|l links IH]; [reflexivity|].
  cbn [filter]. destruct (negb (str_in l vis)); cbn [andb]; [|exact IH].
  destruct (_should_crawl_url self l base) eqn:Hs; [|exact IH].
  cbn [map filter]. unfold in_domain at 1. cbn [fst].
  rewrite (should_crawl_in_domain _ _ _ Hs), str_eqb_refl.
  now rewrite IH.
Qed.

(** An iteration on an entry of the domain does the same in both runs. *)
Lemma domain_entry_step base u d rest1 rest2 vis pgs crw st1' :
  rest2 = filter (in_domain base) rest1 ->
  crawl_step self base (State ((u, d) :: rest1) vis pgs crw) = Some st1' ->
  exists st2',
    crawl_step self base (State ((u, d) :: rest2) vis pgs crw) = Some st2'
    /\ same_but_foreign base st1' st2'.
Proof.
  intros -> H. unfold crawl_step in *.
  cbn [queue pages visited crawling] in *.
  destruct (negb (Z.of_nat (length pgs) <? max_pages self)%Z);
    [discriminate|].
  assert (Hskip : same_but_foreign base (State rest1 vis pgs crw)
                    (State (filter (in_domain base) rest1) vis pgs crw))
    by (repeat split).
  destruct (str_in u vis).
  { injection H as <-. eexists. split; [reflexivity | exact Hskip]. }
  destruct (max_depth self <? d)%Z.
  { injection H as <-. eexists. split; [reflexivity | exact Hskip]. }
  destruct (negb (_should_crawl_url self u base)).
  { injection H as <-. eexists. split; [reflexivity | exact Hskip]. }
  destruct (_fetch_page u) as [p|].
  2: { injection H as <-. eexists. split; [reflexivity|]. repeat split. }
  injection H as <-. eexists. split; [reflexivity|].
  repeat split; cbn [queue].
  destruct (d <? max_depth self)%Z; [|reflexivity].
  rewrite filter_app. f_equal. symmetry.
  exact (added_links_in_domain base _ (u :: vis) (d + 1)%Z).
Qed.

(** Queue entries of other domains change nothing of what a run
    visits, fetches and returns. *)
Lemma budget_wf :
  well_founded
    (fun a b : state =>
       Subterm.lexprod _ _ lt lt (budget self a) (budget self b)).
Proof.
  apply wf_inverse_image, Subterm.wf_lexprod; apply Wf_nat.lt_wf.
Qed.

Lemma foreign_entries_ignored base st1 :
  forall st2,
    same_but_foreign base st1 st2 ->
    pages (crawl_loop self base st1) = pages (crawl_loop self base st2)
    /\ crawling (crawl_loop self base st1)
       = crawling (crawl_loop self base st2).
Proof.
  induction st1 as [st1 IH] using (well_founded_induction budget_wf).
  intros st2 Hsame.
  rewrite (crawl_loop_iterate self base st1).
  destruct (crawl_step self base st1) as [st1'|] eqn:Hstep1.
  - (* an iteration of the first run *)
    pose proof (crawl_step_budget self base st1 Hstep1) as Hless.
    destruct st1 as [q1 vis pgs crw], st2 as [q2 vis2 pgs2 crw2].
    destruct Hsame as (Hv & Hp & Hc & Hq). cbn in Hv, Hp, Hc, Hq.
    subst vis2 pgs2 crw2.
    destruct q1 as [|[u d] rest1]; [discriminate Hstep1|].
    assert (Hroom : (Z.of_nat (length pgs) <? max_pages self)%Z = true).
    { pose proof Hstep1 as Hs. unfold crawl_step in Hs.
      cbn [queue pages] in Hs.
      destruct (Z.of_nat (length pgs) <? max_pages self)%Z;
        [reflexivity | discriminate]. }
    cbn [filter] in Hq.
    destruct (in_domain base (u, d)) eqn:Hdom.
    + destruct (domain_entry_step _ _ _ _ _ _ _ _ _
                  (@eq_refl _ (filter (in_domain base) rest1)) Hstep1)
        as (st2' & Hstep2 & Hsame').
      rewrite Hq.
      rewrite (crawl_loop_iterate self base
                 (State ((u, d) :: filter _ rest1) vis pgs crw)), Hstep2.
      now apply IH.
    + rewrite (foreign_entry_skipped _ _ _ _ _ _ _ Hdom Hroom) in Hstep1.
      injection Hstep1 as <-.
      apply IH; [exact Hless|]. subst q2. repeat split.
  - (* the first run has ended *)
    destruct st1 as [q1 vis pgs crw], st2 as [q2 vis2 pgs2 crw2].
    destruct Hsame as (Hv & Hp & Hc & Hq). cbn in Hv, Hp, Hc, Hq.
    subst vis2 pgs2 crw2.
    rewrite crawl_loop_iterate.
    assert (Hend2 : crawl_step self base (State q2 vis pgs crw) = None).
    { unfold crawl_step in *. cbn [queue pages] in *.
      destruct q2 as [|[u2 d2] rest2]; [reflexivity|].
      destruct q1 as [|[u d] rest1]; [discriminate Hq|].
      destruct (negb (Z.of_nat (length pgs) <? max_pages self)%Z);
        [reflexivity|].
      exfalso. cbn [visited crawling] in Hstep1.
      destruct (str_in u vis); [discriminate|].
      destruct (max_depth self <? d)%Z; [discriminate|].
      destruct (negb (_should_crawl_url self u base));
        [discriminate|].
      destruct (_fetch_page u); discriminate. }
    rewrite Hend2. auto.
Qed.

End CrawlDomain.

Section CrawlDomainClaim.
Context {db : UnicodeDB} {ul : UrlLib} {web : Crawler.Web}.
Import Crawler CrawlerSpec.
Variable self : URLCrawler.

Lemma filter_map_swap {A B} (f : A -> B) (p : B -> bool) (l : list A) :
  filter p (map f l) = map f (filter (fun x => p (f x)) l).
Proof.
  induction l as [|x l IH]; simpl; [reflexivity|].
  destruct (p (f x)); simpl; now rewrite IH.
Qed.

(** C5.  With [first] the first seed, normalised, every page that
    [crawl] returns, and every URL it tried to fetch, has the domain of
    [first].  A seed of another domain is never fetched: it is not
    among the crawled URLs nor among the pages, so nothing is followed
    from it.  Such seeds do not end the run: the crawl returns the
    pages it returns without them, and the loop over the seeds logs a
    warning for each of them. *)
Theorem crawl_domain_confined seed0 seeds :
  let first := _normalize_url seed0 in
  let normalized := map _normalize_url (seed0 :: seeds) in
  let final := crawl_final self (seed0 :: seeds) in
  (forall p, In p (crawl self (seed0 :: seeds)) ->
             _get_domain (page_url p) = _get_domain first)
  /\ (forall u d, In (u, d) (crawling final) ->
                  _get_domain u = _get_domain first)
  /\ (forall u, In u normalized ->
                _is_same_domain u first = false ->
                ~ In u (map fst (crawling final))
                /\ ~ In u (map page_url (crawl self (seed0 :: seeds))))
  /\ crawl self (seed0 :: seeds)
     = pages (crawl_loop self (_get_domain first)
                (initial_state
                   (filter (fun u => _is_same_domain u first) normalized)))
  /\ (forall u, In u normalized ->
                _is_same_domain u first = false ->
                In (py "Seed URL " ++ u
                    ++ py " has different domain, skipping")
                  (seed_warnings (seed0 :: seeds))).
Proof.
  intros first normalized final.
  destruct (crawl_final_invariant self seed0 seeds) as (_ & Ic & Ip).
  fold first final in Ic, Ip.
  assert (Hcrawled : forall u d, In (u, d) (crawling final) ->
                                 _get_domain u = _get_domain first).
  { intros u d H. apply (should_crawl_in_domain self).
    exact (proj2 (Ic u d H)). }
  assert (Hpages : forall p, In p (crawl self (seed0 :: seeds)) ->
                             _get_domain (page_url p) = _get_domain first).
  { intros p H. destruct (Ip p H) as [_ [d Hd]].
    now apply (Hcrawled _ d). }
  split; [exact Hpages|]. split; [exact Hcrawled|].
  split; [|split].
  - intros u Hu Hother.
    assert (Hne : _get_domain u <> _get_domain first).
    { unfold _is_same_domain in Hother. now apply str_eqb_neq. }
    split.
    + intros H. apply in_map_iff in H. destruct H as ([u' d] & <- & H).
      apply Hne. now apply (Hcrawled _ d).
    + intros H. apply in_map_iff in H. destruct H as (p & <- & H).
      apply Hne. now apply Hpages.
  - unfold crawl, crawl_final. fold normalized. unfold normalized at 1.
    cbn [map]. fold first.
    apply foreign_entries_ignored.
    unfold same_but_foreign, initial_state.
    cbn [queue visited pages crawling].
    repeat split.
    change (first :: map _normalize_url seeds) with normalized.
    rewrite filter_map_swap. reflexivity.
  - intros u Hu Hother. unfold seed_warnings.
    change (map _normalize_url (seed0 :: seeds)) with normalized.
    unfold normalized at 1. cbn [map]. fold first.
    change (first :: map _normalize_url seeds) with normalized.
    apply in_flat_map. exists u. split; [exact Hu|].
    rewrite Hother. now left.
Qed.

End CrawlDomainClaim.

(** ** The output of the pipeline *)

Section FormatOutput.
Context {db : UnicodeDB}.
Import Inference Pipeline PipelineSpec.

Lemma output_description_total data :
  output_description summarizer_generate_description data
  = Ok (generated_description data).
Proof.
  unfold output_description, generated_description,
    summarizer_generate_description.
  now destruct (is_empty _).
Qed.

(** With the summarizer of the pipeline the formatting returns, and
    gives the records of the modules in the order of the dict. *)
Lemma format_output_total modules_dict :
  _format_output summarizer_generate_description modules_dict
  = Ok (flat_map record_of modules_dict).
Proof.
  induction modules_dict as [|[name data] rest IH]; [reflexivity|].
  cbn [_format_output]. rewrite output_description_total.
  cbn [res_bind]. rewrite IH. cbn [res_bind flat_map].
  destruct (negb (is_empty (generated_description data))
            || negb (is_empty (output_submodules data))) eqn:E;
    unfold record_of at 2; cbn [fst snd]; rewrite E; reflexivity.
Qed.

Lemma output_submodules_acc (subs acc : dict str) :
  is_empty
    (fold_left
       (fun submodules_dict sub =>
          if negb (is_empty (snd sub))
          then dict_set (fst sub) (snd sub) submodules_dict
          else submodules_dict)
       subs acc) = false
  <-> acc <> [] \/ exists sub desc, In (sub, desc) subs /\ desc <> [].
Proof.
  revert acc. induction subs as [|[sub desc] subs IH]; intros acc.
  - simpl. rewrite is_empty_false. split; [tauto|].
    intros [H | (? & ? & [] & _)]. exact H.
  - cbn [fold_left fst snd]. rewrite IH. clear IH.
    destruct desc as [|c desc]; cbn [is_empty negb].
    + split.
      * intros [H | (s & d & H & Hd)]; [now left|].
        right. exists s, d. split; [now right | assumption].
      * intros [H | (s & d & [[= <- <-] | H] & Hd)];
          [now left | congruence |].
        right. now exists s, d.
    + split.
      * intros _. right. exists sub, (c :: desc).
        split; [now left | discriminate].
      * intros _. left. destruct acc as [|[k v] acc]; simpl;
          [discriminate|].
        destruct (str_eqb sub k); discriminate.
Qed.

Lemma output_submodules_non_empty data :
  is_empty (output_submodules data) = false <-> has_described_submodule data.
Proof.
  unfold output_submodules, has_described_submodule.
  rewrite output_submodules_acc. split; [|tauto].
  intros [H | H]; [exfalso; now apply H | exact H].
Qed.

Lemma record_of_kept name data :
  record_of (name, data) <> [] <-> kept data.
Proof.
  unfold record_of, kept. cbn [fst snd].
  destruct (generated_description data) as [|c g] eqn:Eg;
    cbn [is_empty negb orb].
  - destruct (is_empty (output_submodules data)) eqn:Es; cbn [negb].
    + split.
      * intros H. now contradiction H.
      * intros [H|H]; [now contradiction H|].
        apply output_submodules_non_empty in H. congruence.
    + split.
      * intros _. right. now apply output_submodules_non_empty.
      * intros _. discriminate.
  - split; [intros _; left |]; discriminate.
Qed.

Lemma record_of_module entry r : In r (record_of entry) -> module r = fst entry.
Proof.
  unfold record_of. destruct (_ || _); [|intros []].
  intros [<- | []]. reflexivity.
Qed.

End FormatOutput.

Section OutputClaims.
Context {db : UnicodeDB}.
Import Inference Pipeline PipelineSpec.

Local Abbreviation gd := summarizer_generate_description.

Lemma generate_description_short content :
  length (strip content) < 20 ->
  Summarizer.generate_description Summarizer.default_summarizer content = [].
Proof.
  intros H. unfold Summarizer.generate_description.
  cbn [Summarizer.min_length Summarizer.default_summarizer].
  apply Nat.ltb_lt in H. rewrite H. now rewrite orb_true_r.
Qed.

(** Step 4 on a module that has a short content and no submodule: its
    description is empty. *)
Lemma describe_module_short pp name content url :
  content <> [] ->
  length (strip content) < 20 ->
  describe_module gd pp name (ModuleData [] content url None)
  = Ok (ModuleData [] content url (Some [])).
Proof.
  intros Hne Hshort. unfold describe_module.
  cbn [Inference.content Inference.submodules Inference.module_url map].
  destruct content as [|c content]; [congruence|]. cbn [is_empty].
  unfold summarizer_generate_description at 1.
  rewrite generate_description_short by assumption.
  reflexivity.
Qed.

Lemma describe_submodules_total pp keys subs :
  exists subs', describe_submodules gd pp keys subs = Ok subs'.
Proof.
  revert subs. induction keys as [|k keys IH]; intros subs.
  - now exists subs.
  - cbn [describe_submodules]. unfold summarizer_generate_description at 1.
    cbn [res_bind]. apply IH.
Qed.

Lemma describe_module_total pp name data :
  exists data', describe_module gd pp name data = Ok data'.
Proof.
  unfold describe_module. unfold summarizer_generate_description at 1.
  cbn [res_bind].
  destruct (describe_submodules_total pp (map fst (submodules data))
              (submodules data)) as [subs' ->].
  cbn [res_bind]. now eexists.
Qed.

(** Step 4 returns, module by module, under the same names. *)
Lemma describe_modules_total pp modules_dict :
  exists described,
    describe_modules gd pp modules_dict = Ok described
    /\ Forall2
         (fun e e' =>
            fst e = fst e'
            /\ describe_module gd pp (fst e) (snd e) = Ok (snd e'))
         modules_dict described.
Proof.
  induction modules_dict as [|[name data] rest (described & E & HF)].
  - exists []. split; [reflexivity | constructor].
  - destruct (describe_module_total pp name data) as [data' Hd].
    exists ((name, data') :: described). cbn [describe_modules].
    rewrite Hd. cbn [res_bind]. rewrite E. cbn [res_bind].
    split; [reflexivity|]. constructor; [now split | exact HF].
Qed.

Lemma Forall2_In_r {A B} (R : A -> B -> Prop) l l' y :
  Forall2 R l l' -> In y l' -> exists x, In x l /\ R x y.
Proof.
  induction 1 as [|x y' l l' HR _ IH]; [intros []|].
  intros [<- | H].
  - exists x. split; [now left | assumption].
  - destruct (IH H) as (x' & Hx & HR'). exists x'.
    split; [now right | assumption].
Qed.

Lemma dict_In_unique {V} (d : dict V) k v1 v2 :
  NoDup (map fst d) -> In (k, v1) d -> In (k, v2) d -> v1 = v2.
Proof.
  intros Hnd H1 H2.
  apply (dict_In_get k v1 d Hnd) in H1.
  apply (dict_In_get k v2 d Hnd) in H2. congruence.
Qed.

Lemma output_names modules_dict name :
  In name (map module (flat_map record_of modules_dict))
  <-> exists data, In (name, data) modules_dict /\ kept data.
Proof.
  split.
  - intros H. apply in_map_iff in H. destruct H as (r & <- & Hr).
    apply in_flat_map in Hr. destruct Hr as ([n data] & He & Hr).
    pose proof (record_of_module _ _ Hr) as Hm. cbn [fst] in Hm.
    exists data. rewrite Hm. split; [assumption|].
    apply (record_of_kept n). intros Hnil. rewrite Hnil in Hr. contradiction.
  - intros (data & Hin & Hk).
    apply (record_of_kept name) in Hk.
    destruct (record_of (name, data)) as [|r rs] eqn:E; [congruence|].
    apply in_map_iff. exists r. split.
    + apply (record_of_module (name, data)). rewrite E. now left.
    + apply in_flat_map. exists (name, data). split; [assumption|].
      rewrite E. now left.
Qed.

(** C2.  The formatting returns, and a name is in its output exactly
    when the dict holds it with a module that has a non-empty
    description (its own or, failing that, the summary of its content)
    or a submodule with a non-empty description.  A module whose only
    content has 10 characters and that has no submodule gets an empty
    description in step 4 and is not in the output. *)
Theorem format_output_filter modules_dict :
  exists output,
    _format_output gd modules_dict = Ok output
    /\ (forall name,
           In name (map module output)
           <-> exists data, In (name, data) modules_dict /\ kept data)
    /\ (forall pp name url content,
           NoDup (map fst modules_dict) ->
           In (name, ModuleData [] content url None) modules_dict ->
           length content = 10 ->
           exists described final,
             describe_modules gd pp modules_dict = Ok described
             /\ _format_output gd described = Ok final
             /\ ~ In name (map module final)).
Proof.
  exists (flat_map record_of modules_dict).
  split; [apply format_output_total|].
  split; [intros name; apply output_names|].
  intros pp name url content Hnd Hin Hlen.
  destruct (describe_modules_total pp modules_dict) as (described & Hd & HF).
  exists described, (flat_map record_of described).
  split; [exact Hd|]. split; [apply format_output_total|].
  intros Hout. apply in_map_iff in Hout. destruct Hout as (r & Hname & Hr).
  apply in_flat_map in Hr. destruct Hr as ([n data'] & He' & Hr).
  pose proof (record_of_module _ _ Hr) as Hm. cbn [fst] in Hm.
  rewrite Hname in Hm. subst n.
  destruct (Forall2_In_r _ _ _ _ HF He') as ([n data] & He & Hn & Hdesc).
  cbn [fst snd] in Hn, Hdesc. subst n.
  pose proof (dict_In_unique _ _ _ _ Hnd Hin He) as <-.
  rewrite describe_module_short in Hdesc.
  - injection Hdesc as <-.
    unfold record_of in Hr. cbn [fst snd] in Hr.
    unfold generated_description in Hr.
    cbn [Inference.description Inference.content is_empty] in Hr.
    rewrite generate_description_short in Hr; [contradiction|].
    pose proof (strip_length content). lia.
  - intros ->. discriminate.
  - pose proof (strip_length content). lia.
Qed.

(** C10.  Every record of the output has a non-empty [Description]:
    the description of the module when that is not empty, and else,
    for a module kept for its submodules, ["Module for "] and its
    name. *)
Theorem format_output_description modules_dict :
  exists output,
    _format_output gd modules_dict = Ok output
    /\ forall r,
        In r output ->
        Description r <> []
        /\ exists data,
            In (module r, data) modules_dict
            /\ Submodules r = output_submodules data
            /\ (generated_description data <> [] ->
                Description r = generated_description data)
            /\ (generated_description data = [] ->
                has_described_submodule data
                /\ Description r = py "Module for " ++ module r).
Proof.
  exists (flat_map record_of modules_dict).
  split; [apply format_output_total|].
  intros r Hr. apply in_flat_map in Hr. destruct Hr as ([name data] & He & Hr).
  unfold record_of in Hr. cbn [fst snd] in Hr.
  destruct (generated_description data) as [|c g] eqn:Eg;
    cbn [is_empty negb orb] in Hr.
  - destruct (is_empty (output_submodules data)) eqn:Es; cbn [negb] in Hr;
      [contradiction|].
    destruct Hr as [<- | []]. cbn [Description module Submodules].
    split; [discriminate|].
    exists data. repeat split; try assumption; try congruence.
    now apply output_submodules_non_empty.
  - destruct Hr as [<- | []]. cbn [Description module Submodules].
    split; [discriminate|].
    exists data. repeat split; try assumption; try congruence.
Qed.

End OutputClaims.

(** ** Exceptions in the pipeline *)

Section Extract.
Context {db : UnicodeDB}.
Import Inference Pipeline PipelineSpec.

Variable crawler_crawl : list str -> res (list Crawler.page).
Variable parser_parse : str -> str -> res Parser.parsed_page.
Variable inference_infer_modules :
  list Parser.parsed_page -> res (dict ModuleNode).
Variable generate : str -> res str.

Local Abbreviation run_extract :=
  (extract crawler_crawl parser_parse inference_infer_modules generate).

(** The loop of step 2 returns whatever the parser does: the pages
    that parse are kept, in order, and every other page leaves a
    warning. *)
Lemma parse_pages_run pages acc l :
  parse_pages parser_parse pages acc l
  = (Ok (acc ++ parsed_ok parser_parse pages),
     l ++ warnings_of parser_parse pages).
Proof.
  revert acc l. induction pages as [|page rest IH]; intros acc l.
  - unfold parsed_ok, warnings_of. cbn [parse_pages flat_map].
    unfold ret. now rewrite !app_nil_r.
  - cbn [parse_pages parsed_ok warnings_of flat_map].
    unfold bind at 1, try_except, bind at 1, call.
    destruct (parser_parse (Crawler.html page) (Crawler.page_url page))
      as [parsed | e].
    + unfold ret. rewrite IH.
      fold (parsed_ok parser_parse rest) (warnings_of parser_parse rest).
      now rewrite <- app_assoc.
    + unfold bind, _log, ret. rewrite IH.
      fold (parsed_ok parser_parse rest) (warnings_of parser_parse rest).
      now rewrite <- app_assoc.
Qed.

(** Steps 4 and 5 raise only what the summarizer raised. *)
Lemma describe_submodules_raised pp keys subs e :
  describe_submodules generate pp keys subs = Raised e ->
  exists c, generate c = Raised e.
Proof.
  revert subs. induction keys as [|k keys IH]; intros subs; [discriminate|].
  cbn [describe_submodules].
  match goal with |- context [generate ?c] =>
    destruct (generate c) as [d|e'] eqn:E end; cbn [res_bind].
  - apply IH.
  - intros [= <-]. eexists. eassumption.
Qed.

Lemma describe_modules_raised pp modules_dict e :
  describe_modules generate pp modules_dict = Raised e ->
  exists c, generate c = Raised e.
Proof.
  induction modules_dict as [|[name data] rest IH]; [discriminate|].
  cbn [describe_modules]. unfold describe_module.
  match goal with |- context [generate ?c] =>
    destruct (generate c) as [d|e'] eqn:E end; cbn [res_bind].
  2: { intros [= <-]. eexists. eassumption. }
  destruct (describe_submodules generate pp _ _) as [subs|e'] eqn:Es;
    cbn [res_bind].
  2: { intros [= <-]. eapply describe_submodules_raised. eassumption. }
  destruct (describe_modules generate pp rest) as [r|e'];
    cbn [res_bind]; [discriminate|].
  intros [= <-]. now apply IH.
Qed.

Lemma format_output_raised modules_dict e :
  _format_output generate modules_dict = Raised e ->
  exists c, generate c = Raised e.
Proof.
  induction modules_dict as [|[name data] rest IH]; [discriminate|].
  cbn [_format_output]. unfold output_description.
  destruct (is_empty _).
  - destruct (generate (content data)) as [d|e'] eqn:E; cbn [res_bind].
    + destruct (_format_output generate rest) as [r|e']; cbn [res_bind].
      * destruct (_ || _); discriminate.
      * intros [= <-]. now apply IH.
    + intros [= <-]. eexists. eassumption.
  - cbn [res_bind].
    destruct (_format_output generate rest) as [r|e']; cbn [res_bind].
    + destruct (_ || _); discriminate.
    + intros [= <-]. now apply IH.
Qed.

End Extract.

Section ExtractClaim.
Context {db : UnicodeDB}.
Import Inference Pipeline PipelineSpec.

Variable crawler_crawl : list str -> res (list Crawler.page).
Variable parser_parse : str -> str -> res Parser.parsed_page.
Variable inference_infer_modules :
  list Parser.parsed_page -> res (dict ModuleNode).
Variable generate : str -> res str.

Local Abbreviation run_extract :=
  (extract crawler_crawl parser_parse inference_infer_modules generate).

Local Ltac run_pipeline :=
  unfold extract, extract_body, bind, set_logs, _log, call, try_except,
    return_no_modules, get_logs, ret.

Lemma failed_with result (entries : list str) e :
  modules result = [] ->
  stats result = None ->
  logs result
  = (entries ++ [log_entry (py "Pipeline error: " ++ exn_str e) ERROR])
    ++ [log_entry (format_exc e) ERROR] ->
  failed result e.
Proof.
  intros Hm Hs Hl. unfold failed. repeat split; try assumption.
  exists entries. now rewrite Hl, <- app_assoc.
Qed.

Local Ltac finish_failed :=
  cbv beta iota delta [bind ret get_logs return_no_modules];
  match goal with
  | |- exists result, (Ok ?r, _) = _ /\ _ => exists r
  end;
  split; [reflexivity|];
  eapply failed_with; reflexivity.

(** C7.  [extract] returns on every input, whatever its collaborators
    do, and the result carries the log.  When the crawl, the
    inference or a call of the summarizer in step 4 or step 5 raises,
    the result has no module, no statistics and the two error entries
    at the end of its log.  An exception of the parser does not reach
    that handler: the loop of step 2 returns the pages that parse and
    logs a warning for each of the others. *)
Theorem extract_never_raises urls logs0 :
  (exists result, run_extract urls logs0 = (Ok result, logs result))
  /\ (forall e,
         crawler_crawl urls = Raised e ->
         exists result,
           run_extract urls logs0 = (Ok result, logs result)
           /\ failed result e)
  /\ (forall pages e,
         crawler_crawl urls = Ok pages ->
         parsed_ok parser_parse pages <> [] ->
         inference_infer_modules (parsed_ok parser_parse pages)
         = Raised e ->
         exists result,
           run_extract urls logs0 = (Ok result, logs result)
           /\ failed result e)
  /\ (forall pages modules_dict e,
         crawler_crawl urls = Ok pages ->
         parsed_ok parser_parse pages <> [] ->
         inference_infer_modules (parsed_ok parser_parse pages)
         = Ok modules_dict ->
         describe_modules generate (parsed_ok parser_parse pages)
           modules_dict = Raised e ->
         exists result,
           run_extract urls logs0 = (Ok result, logs result)
           /\ failed result e)
  /\ (forall pages modules_dict described e,
         crawler_crawl urls = Ok pages ->
         parsed_ok parser_parse pages <> [] ->
         inference_infer_modules (parsed_ok parser_parse pages)
         = Ok modules_dict ->
         describe_modules generate (parsed_ok parser_parse pages)
           modules_dict = Ok described ->
         _format_output generate described = Raised e ->
         exists result,
           run_extract urls logs0 = (Ok result, logs result)
           /\ failed result e)
  /\ (forall pp modules_dict e,
         describe_modules generate pp modules_dict = Raised e
         \/ _format_output generate modules_dict = Raised e ->
         exists c, generate c = Raised e)
  /\ (forall pages acc l,
         parse_pages parser_parse pages acc l
         = (Ok (acc ++ parsed_ok parser_parse pages),
            l ++ warnings_of parser_parse pages)).
Proof.
  assert (Hparsed : forall pages, parsed_ok parser_parse pages <> [] ->
                                  is_empty pages = false).
  { intros [|p ps] H; [now contradiction H | reflexivity]. }
  split; [|split; [|split; [|split; [|split; [|split]]]]].
  - run_pipeline.
    destruct (crawler_crawl urls) as [pages|e];
      [|eexists (ExtractResult _ _ _); reflexivity].
    destruct (is_empty pages); [eexists (ExtractResult _ _ _); reflexivity|].
    rewrite parse_pages_run. cbn [app].
    destruct (is_empty (parsed_ok parser_parse pages));
      [eexists (ExtractResult _ _ _); reflexivity|].
    destruct (inference_infer_modules _) as [modules_dict|e];
      [|eexists (ExtractResult _ _ _); reflexivity].
    destruct (describe_modules generate _ modules_dict) as [described|e];
      [|eexists (ExtractResult _ _ _); reflexivity].
    destruct (_format_output generate described) as [output|e];
      eexists (ExtractResult _ _ _); reflexivity.
  - intros e Hc. run_pipeline. rewrite Hc.
    finish_failed.
  - intros pages e Hc Hp Hi. run_pipeline. rewrite Hc, (Hparsed _ Hp).
    rewrite parse_pages_run. cbn [app].
    apply is_empty_false in Hp. rewrite Hp, Hi.
    finish_failed.
  - intros pages modules_dict e Hc Hp Hi Hd.
    run_pipeline. rewrite Hc, (Hparsed _ Hp).
    rewrite parse_pages_run. cbn [app].
    apply is_empty_false in Hp. rewrite Hp, Hi, Hd.
    finish_failed.
  - intros pages modules_dict described e Hc Hp Hi Hd Hf.
    run_pipeline. rewrite Hc, (Hparsed _ Hp).
    rewrite parse_pages_run. cbn [app].
    apply is_empty_false in Hp. rewrite Hp, Hi, Hd, Hf.
    finish_failed.
  - intros pp modules_dict e [H|H].
    + eapply describe_modules_raised. eassumption.
    + eapply format_output_raised. eassumption.
  - apply parse_pages_run.
Qed.

End ExtractClaim.

(** An exception raised in the parse stage does not empty the result:
    in this run the parser raises on the first page, the log holds the
    warning, and the output holds the module of the second page. *)
Lemma extract_parse_error_keeps_modules :
  (exists page,
      In page ParseFailure.pages
      /\ ParseFailure.parser_parse (Crawler.html page) (Crawler.page_url page)
         = Pipeline.Raised ParseFailure.parse_error)
  /\ exists result,
      ParseFailure.run = (Pipeline.Ok result, Pipeline.logs result)
      /\ Pipeline.modules result
         = [Pipeline.ModuleRecord (py "Billing")
              (py "The billing module provides invoices to all customers daily.")
              []]
      /\ Pipeline.modules result <> []
      /\ In (Pipeline.log_entry
               (py "Error parsing https://docs.example.com/broken: unexpected end of markup")
               Pipeline.WARNING)
           (Pipeline.logs result).
Proof.
  split.
  - eexists. split; [left; reflexivity | reflexivity].
  - eexists (Pipeline.ExtractResult _ _ _). split; [vm_compute; reflexivity|].
    split; [reflexivity|]. split; [discriminate|].
    vm_compute. tauto.
Qed.

(** ** Examples *)

(** A crawl of the small site from its home page, with [max_depth] 1:
    the guide is fetched at depth 1 and not expanded; the login page
    and the other site are never crawled. *)
Example crawl_small_site :
  let final :=
    @Crawler.crawl_final ascii_db SimpleUrls.simple_urls SmallSite.site
      SmallSite.crawler [SmallSite.home] in
  map Crawler.page_url (Crawler.pages final)
  = [SmallSite.home; SmallSite.guide]
  /\ Crawler.crawling final = [(SmallSite.home, 0%Z); (SmallSite.guide, 1%Z)]
  /\ Crawler.queue final = [].
Proof.
  cbv zeta. unfold Crawler.crawl_final. cbn [map].
  repeat
    (rewrite crawl_loop_iterate;
     match goal with
     | |- context [@Crawler.crawl_step ?d ?u ?w ?s ?b ?st] =>
         let v := eval vm_compute in (@Crawler.crawl_step d u w s b st) in
         change (@Crawler.crawl_step d u w s b st) with v
     end;
     cbv beta iota).
  vm_compute. repeat split.
Qed.

(** What the grouping by level does to the hierarchy: on a page with
    two sections of one subsection each, the first module gets no
    submodule and the second gets both; with the headings in document
    order each module gets its own. *)
Example level_grouping_misplaces_submodules :
  TwoSections.outline
    (@Inference.infer_modules ascii_db SimpleUrls.simple_urls
       [TwoSections.page (Parser._extract_headings TwoSections.document)])
  = [(py "Alpha", []); (py "Beta", [py "Alpha one"; py "Beta one"])]
  /\ TwoSections.outline
       (@Inference.infer_modules ascii_db SimpleUrls.simple_urls
          [TwoSections.page
             (ParserSpec.headings_in_document_order TwoSections.document)])
     = [(py "Alpha", [py "Alpha one"]); (py "Beta", [py "Beta one"])].
Proof. split; vm_compute; reflexivity. Qed.

(** The whole pipeline on a page whose module has a content of 10
    characters and no submodule: the module is inferred and the output
    is empty. *)
Example short_module_dropped :
  map (fun e => (fst e, Inference.content (snd e)))
    (@Inference.infer_modules ascii_db SimpleUrls.simple_urls
       [ShortModule.parsed])
  = [(py "Billing", py "Billing ok")]
  /\ exists logs,
      ShortModule.run
      = (Pipeline.Ok
           (Pipeline.ExtractResult [] logs (Some (Pipeline.Stats 1 1 0))),
         logs)
      /\ In (py "[INFO] Inferred 1 modules") logs
      /\ In (py "[INFO] Extraction complete. Generated 0 modules") logs.
Proof.
  split; [vm_compute; reflexivity|].
  eexists. split; [vm_compute; reflexivity|].
  split; vm_compute; tauto.
Qed.

(* ===================================================================== *)
(** * Further properties of the code *)
(* ===================================================================== *)

(** ** The crawl: limits, order and coverage *)

Section CrawlBookkeeping.
Context {db : UnicodeDB} {ul : UrlLib} {web : Crawler.Web}.
Import Crawler CrawlerSpec.
Variable self : URLCrawler.

(** A property of the state that every iteration keeps holds of every
    state that the loop reaches. *)
Lemma reaches_keeps (P : state -> Prop) base :
  (forall st st', P st -> crawl_step self base st = Some st' -> P st') ->
  forall st st', reaches self base st st' -> P st -> P st'.
Proof.
  intros Hstep st st' H.
  induction H as [s s' Hs | s | s s' s'' _ IH1 _ IH2]; intros HP.
  - eapply Hstep; eassumption.
  - assumption.
  - auto.
Qed.

(** The state a crawl ends in, for a property that holds of the seeds
    and that every iteration keeps. *)
Lemma crawl_final_keeps (P : state -> Prop) seeds :
  P (State [] [] [] []) ->
  (forall l, P (initial_state l)) ->
  (forall base st st',
      P st -> crawl_step self base st = Some st' -> P st') ->
  P (crawl_final self seeds).
Proof.
  intros Hnil Hinit Hstep. unfold crawl_final.
  destruct (map _normalize_url seeds) as [|first rest]; [exact Hnil|].
  eapply reaches_keeps.
  - apply Hstep.
  - apply crawl_loop_reaches.
  - apply Hinit.
Qed.

Lemma in_visited_crawling st u :
  bookkeeping st -> In u (visited st) -> exists d, In (u, d) (crawling st).
Proof.
  intros (Hv & _ & _) H. rewrite Hv in H. apply in_rev in H.
  apply in_map_iff in H. destruct H as ([u' d] & <- & H). now exists d.
Qed.

Lemma bookkeeping_step base st st' :
  bookkeeping st -> crawl_step self base st = Some st' -> bookkeeping st'.
Proof.
  intros (Hv & Hnd & Hp) Hstep.
  destruct (crawl_step_cases self _ _ _ Hstep)
    as (u & d & rest & Hq & _ & Hcases).
  destruct Hcases as [[-> _] | (Hnv & Hd & Hs & [[Hf ->] | Hfetched])].
  - repeat split; assumption.
  - assert (Hnew : ~ In u (visited st)).
    { intros Hin. apply str_in_In in Hin. congruence. }
    unfold bookkeeping; cbn [visited crawling pages].
    split; [|split].
    + rewrite map_app, rev_app_distr, <- Hv. reflexivity.
    + now constructor.
    + rewrite flat_map_app. cbn [flat_map]. unfold fetched at 2.
      cbn [fst]. rewrite Hf, !app_nil_r. exact Hp.
  - destruct Hfetched as (p & added & Hf & -> & _ & _).
    assert (Hnew : ~ In u (visited st)).
    { intros Hin. apply str_in_In in Hin. congruence. }
    unfold bookkeeping; cbn [visited crawling pages].
    split; [|split].
    + rewrite map_app, rev_app_distr, <- Hv. reflexivity.
    + now constructor.
    + rewrite flat_map_app. cbn [flat_map]. unfold fetched at 2.
      cbn [fst]. rewrite Hf, app_nil_r, Hp. reflexivity.
Qed.

Lemma bookkeeping_final seeds : bookkeeping (crawl_final self seeds).
Proof.
  apply crawl_final_keeps.
  - repeat split; constructor.
  - intros l. repeat split; constructor.
  - intros base. apply bookkeeping_step.
Qed.

Lemma fetched_urls (l : list (str * Z)) p :
  In p (flat_map fetched l) -> In (page_url p) (map fst l).
Proof.
  intros H. apply in_flat_map in H. destruct H as (e & He & Hp).
  unfold fetched in Hp.
  destruct (_fetch_page (fst e)) as [q|] eqn:Hf; [|contradiction].
  destruct Hp as [<-|[]].
  rewrite (fetch_page_url _ _ Hf). now apply in_map.
Qed.

Lemma fetched_NoDup (l : list (str * Z)) :
  NoDup (map fst l) -> NoDup (map page_url (flat_map fetched l)).
Proof.
  induction l as [|e l IH]; cbn [map flat_map]; intros H; [constructor|].
  inversion H as [|? ? Hnot Hrest]; subst.
  rewrite map_app. unfold fetched at 1.
  destruct (_fetch_page (fst e)) as [q|] eqn:Hf; cbn [map app]; [|auto].
  constructor; [|auto].
  rewrite (fetch_page_url _ _ Hf). intros Hin.
  apply in_map_iff in Hin. destruct Hin as (p & Hu & Hp).
  apply fetched_urls in Hp. congruence.
Qed.

(** X1.  No URL is fetched twice in a crawl: the crawled URLs are
    pairwise distinct, and so are the URLs of the returned pages.  The
    returned pages are the fetches that succeeded, in the order in which
    their URLs were crawled. *)
Theorem crawl_fetches_once seeds :
  let final := crawl_final self seeds in
  NoDup (map fst (crawling final))
  /\ NoDup (map page_url (crawl self seeds))
  /\ crawl self seeds = flat_map (fetched (web := web)) (crawling final).
Proof.
  intros final.
  destruct (bookkeeping_final seeds) as (Hv & Hnd & Hp).
  fold final in Hv, Hnd, Hp.
  assert (Hc : NoDup (map fst (crawling final))).
  { rewrite Hv in Hnd. apply NoDup_rev in Hnd.
    now rewrite rev_involutive in Hnd. }
  split; [exact Hc|]. unfold crawl. fold final. rewrite Hp.
  split; [now apply fetched_NoDup | reflexivity].
Qed.

Lemma within_page_limit_step base st st' :
  within_page_limit self st -> crawl_step self base st = Some st' ->
  within_page_limit self st'.
Proof.
  unfold within_page_limit. intros Hl Hstep.
  destruct (crawl_step_cases self _ _ _ Hstep)
    as (u & d & rest & Hq & Hlt & Hcases).
  destruct Hcases as [[-> _] | (Hnv & Hd & Hs & [[Hf ->] | Hfetched])];
    cbn [pages]; try assumption.
  destruct Hfetched as (p & added & Hf & -> & _ & _). cbn [pages].
  rewrite length_app. cbn [length]. lia.
Qed.

(** X2.  A crawl returns at most [max_pages] pages, and none when
    [max_pages] is zero or negative.  It stops before the queue is
    empty only when it has that many pages. *)
Theorem crawl_page_limit seeds :
  let final := crawl_final self seeds in
  (Z.of_nat (length (crawl self seeds)) <= Z.max 0 (max_pages self))%Z
  /\ ((max_pages self <= 0)%Z -> crawl self seeds = [])
  /\ (queue final = []
      \/ Z.of_nat (length (crawl self seeds))
         = Z.max 0 (max_pages self)).
Proof.
  intros final.
  assert (Hl : within_page_limit self final).
  { apply crawl_final_keeps.
    - unfold within_page_limit. cbn. lia.
    - intros l. unfold within_page_limit. cbn. lia.
    - apply within_page_limit_step. }
  unfold within_page_limit in Hl. unfold crawl. fold final.
  split; [exact Hl|]. split.
  - intros Hmax. destruct (pages final); [reflexivity|].
    cbn [length] in Hl. lia.
  - assert (Hdone : forall base, queue final <> [] ->
                                 crawl_step self base final = None ->
                                 (max_pages self
                                  <= Z.of_nat (length (pages final)))%Z).
    { intros base Hq. unfold crawl_step.
      destruct (queue final) as [|[u d] rest]; [congruence|].
      destruct (Z.of_nat (length (pages final)) <? max_pages self)%Z
        eqn:E; cbn [negb].
      - destruct (str_in u (visited final)); [discriminate|].
        destruct (max_depth self <? d)%Z; [discriminate|].
        destruct (negb (_should_crawl_url self u base)); [discriminate|].
        destruct (_fetch_page u); discriminate.
      - intros _. now apply Z.ltb_ge in E. }
    destruct (list_eq_dec (fun a b : str * Z =>
                             ltac:(decide equality;
                                   [apply Z.eq_dec | apply str_eq_dec]))
                (queue final) []) as [Hq|Hq]; [now left|].
    right.
    assert (Hstop : exists base, crawl_step self base final = None).
    { subst final. unfold crawl_final.
      destruct (map _normalize_url seeds) as [|first others].
      - now exists [].
      - eexists. apply crawl_loop_done. }
    destruct Hstop as [base Hstop].
    specialize (Hdone base Hq Hstop). lia.
Qed.

End CrawlBookkeeping.

Section CrawlOrder.
Context {db : UnicodeDB} {ul : UrlLib} {web : Crawler.Web}.
Import Crawler CrawlerSpec.
Variable self : URLCrawler.

Lemma sorted_app (l1 l2 : list Z) :
  StronglySorted Z.le (l1 ++ l2)
  <-> StronglySorted Z.le l1 /\ StronglySorted Z.le l2
      /\ forall a b, In a l1 -> In b l2 -> (a <= b)%Z.
Proof.
  induction l1 as [|x l1 IH]; cbn [app].
  - split.
    + intros H. repeat split; [constructor | exact H | intros a b []].
    + tauto.
  - split.
    + intros H. apply StronglySorted_inv in H. destruct H as [Hs Hall].
      apply IH in Hs. destruct Hs as (H1 & H2 & H12).
      rewrite Forall_forall in Hall.
      repeat split; [|exact H2|].
      * constructor; [exact H1|]. apply Forall_forall.
        intros y Hy. apply Hall. apply in_or_app. now left.
      * intros a b [<-|Ha] Hb; [|now apply H12].
        apply Hall. apply in_or_app. now right.
    + intros (H1 & H2 & H12).
      apply StronglySorted_inv in H1. destruct H1 as [H1 Hall].
      rewrite Forall_forall in Hall.
      constructor.
      * apply IH. repeat split; [exact H1 | exact H2|].
        intros a b Ha Hb. apply H12; [now right | exact Hb].
      * apply Forall_forall. intros y Hy. apply in_app_or in Hy.
        destruct Hy as [Hy|Hy]; [now apply Hall|].
        apply H12; [now left | exact Hy].
Qed.

Lemma breadth_first_initial seeds : breadth_first (initial_state seeds).
Proof.
  unfold breadth_first, initial_state. cbn [crawling queue app]. split.
  - induction seeds as [|s seeds IH]; cbn [map]; constructor; [exact IH|].
    apply Forall_forall. intros y Hy. rewrite map_map in Hy.
    apply in_map_iff in Hy. destruct Hy as (x & <- & _). cbn. lia.
  - intros u d rest H. destruct seeds as [|s seeds]; [discriminate|].
    cbn [map] in H. injection H as _ <- <-.
    apply Forall_forall. intros e He.
    apply in_map_iff in He. destruct He as (x & <- & _). cbn. lia.
Qed.

(** What the head of the queue bounds. *)
Lemma queue_span (crawled : list (str * Z)) u d rest :
  StronglySorted Z.le (map snd (crawled ++ (u, d) :: rest)) ->
  Forall (fun e => (snd e <= d + 1)%Z) rest ->
  (forall e, In e crawled -> (snd e <= d)%Z)
  /\ (forall e, In e rest -> (d <= snd e <= d + 1)%Z).
Proof.
  intros Hs Hb. rewrite map_app in Hs. apply sorted_app in Hs.
  destruct Hs as (_ & Hq & Hcq). cbn [map] in Hq, Hcq.
  apply StronglySorted_inv in Hq. destruct Hq as [_ Hq].
  rewrite Forall_forall in Hq, Hb. split.
  - intros e He. apply Hcq; [now apply in_map | now left].
  - intros e He. split; [|now apply Hb].
    apply Hq. now apply in_map.
Qed.

Lemma breadth_first_step base st st' :
  breadth_first st -> crawl_step self base st = Some st' ->
  breadth_first st'.
Proof.
  intros (Hs & Hb) Hstep.
  destruct (crawl_step_cases self _ _ _ Hstep)
    as (u & d & rest & Hq & _ & Hcases).
  specialize (Hb u d rest Hq). rewrite Hq in Hs.
  destruct (queue_span _ _ _ _ Hs Hb) as [Hcr Hrest].
  assert (Hrest_sorted : StronglySorted Z.le (map snd rest)).
  { rewrite map_app in Hs. apply sorted_app in Hs.
    destruct Hs as (_ & Hs & _). cbn [map] in Hs.
    now apply StronglySorted_inv in Hs. }
  assert (Hcr_sorted : StronglySorted Z.le (map snd (crawling st))).
  { rewrite map_app in Hs. now apply sorted_app in Hs. }
  assert (Hspan : forall (l : list (str * Z)) u' d' rest',
             l = (u', d') :: rest' ->
             StronglySorted Z.le (map snd l) ->
             (forall e, In e l -> (snd e <= d + 1)%Z) ->
             (forall e, In e l -> (d <= snd e)%Z) ->
             Forall (fun e => (snd e <= d' + 1)%Z) rest').
  { intros l u' d' rest' -> Hl Hhi Hlo. apply Forall_forall.
    intros e He.
    specialize (Hhi e (or_intror He)).
    specialize (Hlo (u', d') (or_introl eq_refl)). cbn in Hlo. lia. }
  destruct Hcases as [[-> _] | (Hnv & Hd & Hs' & [[Hf ->] | Hfetched])].
  - unfold breadth_first. cbn [crawling queue]. split.
    + rewrite map_app. apply sorted_app.
      repeat split; [assumption | assumption|].
      intros a b Ha Hb'.
      apply in_map_iff in Ha. destruct Ha as (ea & <- & Ha).
      apply in_map_iff in Hb'. destruct Hb' as (eb & <- & Hb').
      specialize (Hcr _ Ha). specialize (Hrest _ Hb'). lia.
    + intros u' d' rest' E. eapply Hspan; [exact E | assumption | |];
        intros e He; now apply Hrest.
  - unfold breadth_first. cbn [crawling queue]. split.
    + rewrite <- app_assoc. exact Hs.
    + intros u' d' rest' E. eapply Hspan; [exact E | assumption | |];
        intros e He; now apply Hrest.
  - destruct Hfetched as (p & added & Hf & -> & _ & Hall).
    assert (Hadded : forall e, In e added -> snd e = (d + 1)%Z)
      by (intros e He; exact (proj1 (Hall e He))).
    assert (Hqueue : StronglySorted Z.le (map snd (rest ++ added))).
    { rewrite map_app. apply sorted_app. repeat split; [assumption| |].
      - clear Hall Hstep. induction added as [|a added IH]; cbn [map];
          constructor.
        + apply IH. intros e He. apply Hadded. now right.
        + apply Forall_forall. intros y Hy.
          apply in_map_iff in Hy. destruct Hy as (e & <- & He).
          rewrite (Hadded a (or_introl eq_refl)).
          rewrite (Hadded e (or_intror He)). lia.
      - intros a b Ha Hb'.
        apply in_map_iff in Ha. destruct Ha as (ea & <- & Ha).
        apply in_map_iff in Hb'. destruct Hb' as (eb & <- & Hb').
        specialize (Hrest _ Ha). rewrite (Hadded _ Hb'). lia. }
    unfold breadth_first. cbn [crawling queue]. split.
    + rewrite <- app_assoc. cbn [app]. rewrite map_app. apply sorted_app.
      repeat split; [assumption| |].
      * cbn [map]. constructor; [exact Hqueue|].
        apply Forall_forall. intros y Hy.
        apply in_map_iff in Hy. destruct Hy as (e & <- & He).
        apply in_app_or in He. destruct He as [He|He].
        -- specialize (Hrest _ He). cbn [snd]. lia.
        -- rewrite (Hadded _ He). cbn [snd]. lia.
      * intros a b Ha Hb'.
        apply in_map_iff in Ha. destruct Ha as (ea & <- & Ha).
        specialize (Hcr _ Ha). cbn [map] in Hb'.
        destruct Hb' as [<-|Hb']; [cbn; lia|].
        apply in_map_iff in Hb'. destruct Hb' as (eb & <- & Hb').
        apply in_app_or in Hb'. destruct Hb' as [Hb'|Hb'].
        -- specialize (Hrest _ Hb'). lia.
        -- rewrite (Hadded _ Hb'). lia.
    + intros u' d' rest' E. eapply Hspan; [exact E | assumption | |];
        intros e He; apply in_app_or in He; destruct He as [He|He];
        try (specialize (Hrest _ He); lia);
        rewrite (Hadded _ He); lia.
Qed.

(** X3.  The crawl is breadth first: the URLs are crawled in an order
    in which the depth never decreases, so every URL of one depth is
    crawled before any URL of the next; what is left in the queue when
    the page limit ends the crawl lies at the depth of the last crawled
    URL or deeper. *)
Theorem crawl_breadth_first seeds :
  let final := crawl_final self seeds in
  StronglySorted Z.le (map snd (crawling final ++ queue final))
  /\ StronglySorted Z.le (map snd (crawling final)).
Proof.
  intros final.
  assert (H : breadth_first final).
  { apply crawl_final_keeps.
    - split; [constructor | discriminate].
    - apply breadth_first_initial.
    - apply breadth_first_step. }
  destruct H as [H _]. split; [exact H|].
  rewrite map_app in H. now apply sorted_app in H.
Qed.

End CrawlOrder.

Section CrawlFilter.
Context {db : UnicodeDB} {ul : UrlLib} {web : Crawler.Web}.
Import Crawler CrawlerSpec.
Variable self : URLCrawler.

Lemma existsb_false {A} (f : A -> bool) (l : list A) :
  existsb f l = false <-> forall x, In x l -> f x = false.
Proof.
  induction l as [|a l IH]; cbn [existsb].
  - split; [intros _ x [] | reflexivity].
  - rewrite orb_false_iff, IH. split.
    + intros [Ha Hl] x [<-|Hx]; auto.
    + intros H. split; [apply H; now left|]. intros x Hx. apply H.
      now right.
Qed.

Lemma str_in_false x l : str_in x l = false <-> ~ In x l.
Proof.
  split.
  - intros H Hin. apply str_in_In in Hin. congruence.
  - intros H. destruct (str_in x l) eqn:E; [|reflexivity].
    apply str_in_In in E. contradiction.
Qed.

(** The admission filter, read as a conjunction. *)
Lemma should_crawl_admitted u base :
  _should_crawl_url self u base = true <-> admitted self base u.
Proof.
  unfold _should_crawl_url, admitted. cbv zeta.
  destruct (str_in (scheme (urlparse u)) [py "http"; py "https"]) eqn:Hs;
    cbn [negb].
  2: { split; [discriminate|]. intros ([H|H] & _);
       apply str_in_false in Hs; exfalso; apply Hs; rewrite H;
       [now left | right; now left]. }
  apply str_in_In in Hs.
  assert (Hscheme : scheme (urlparse u) = py "http"
                    \/ scheme (urlparse u) = py "https").
  { destruct Hs as [<-|[<-|[]]]; auto. }
  destruct (str_eqb (netloc (urlparse u)) base) eqn:Hn; cbn [negb].
  2: { split; [discriminate|]. intros (_ & H & _).
       apply str_eqb_neq in Hn. contradiction. }
  apply str_eqb_eq in Hn.
  destruct (existsb _ unsupported_formats) eqn:Hext.
  { split; [discriminate|]. intros (_ & _ & H & _).
    apply existsb_exists in Hext. destruct Hext as (ext & Hin & Hext).
    rewrite (H ext Hin) in Hext. discriminate. }
  rewrite existsb_false in Hext.
  destruct (existsb _ non_documentation_paths) eqn:Hpart.
  { split; [discriminate|]. intros (_ & _ & _ & H & _).
    apply existsb_exists in Hpart. destruct Hpart as (name & Hin & Hpart).
    apply str_in_In in Hpart. apply in_map_iff in Hpart.
    destruct Hpart as (part & <- & Hpart).
    apply filter_In in Hpart. destruct Hpart as [Hpart Hne].
    exfalso. apply (H part Hpart); [|exact Hin].
    intros ->. discriminate. }
  rewrite existsb_false in Hpart.
  assert (Hparts : forall part,
             In part (split_char 47%N (path (urlparse u))) ->
             part <> [] -> ~ In (uc_lower part) non_documentation_paths).
  { intros part Hin Hne Hbad. specialize (Hpart _ Hbad).
    apply str_in_false in Hpart. apply Hpart.
    apply in_map. apply filter_In. split; [exact Hin|].
    destruct part; [congruence | reflexivity]. }
  unfold _can_fetch.
  destruct (respect_robots_txt self); cbn [andb].
  - destruct (read_robots base) as [robots|] eqn:Hr; cbn [negb].
    + destruct (can_fetch robots user_agent u) eqn:Hc; cbn [negb].
      * split; [|reflexivity]. intros _.
        repeat split; try assumption. intros _ r [= <-]. exact Hc.
      * split; [discriminate|]. intros (_ & _ & _ & _ & H).
        specialize (H eq_refl robots eq_refl). congruence.
    + split; [|reflexivity]. intros _.
      repeat split; try assumption. intros _ r [=].
  - split; [|reflexivity]. intros _.
    repeat split; try assumption. discriminate.
Qed.

(** X4.  Every URL that a crawl fetches passed the admission filter, and
    so did the URL of every page it returns: the scheme is [http] or
    [https], the domain is that of the first seed, the lower-cased path
    ends in none of the unsupported extensions and has none of the
    excluded segments, and the robots rules read for the domain, when
    they are to be respected and could be read, allow the URL. *)
Theorem crawl_fetches_admitted seed0 seeds :
  let base := _get_domain (_normalize_url seed0) in
  Forall (fun e => admitted self base (fst e))
    (crawling (crawl_final self (seed0 :: seeds)))
  /\ Forall (fun p => admitted self base (page_url p))
       (crawl self (seed0 :: seeds)).
Proof.
  intros base.
  destruct (crawl_final_invariant self seed0 seeds) as (_ & Ic & Ip).
  fold base in Ic, Ip. split; apply Forall_forall.
  - intros [u d] H. apply should_crawl_admitted.
    exact (proj2 (Ic u d H)).
  - intros p H. destruct (Ip p H) as [_ [d Hd]].
    apply should_crawl_admitted. exact (proj2 (Ic _ d Hd)).
Qed.

Lemma fetch_page_html_response u p :
  _fetch_page u = Some p -> html_response p.
Proof.
  unfold _fetch_page, html_response.
  destruct (session_get u) as [|status header text] eqn:Hget;
    [discriminate|].
  destruct ((400 <=? status)%Z && (status <? 600)%Z) eqn:Hst;
    [discriminate|].
  destruct (contains (py "text/html") _) eqn:Hct; cbn [negb];
    [|discriminate].
  intros [= <-]. cbn [page_url html status_code content_type].
  exists status, header. rewrite Hget.
  repeat split; try reflexivity; [|exact Hct].
  apply andb_false_iff in Hst. destruct Hst as [H|H];
    [apply Z.leb_gt in H | apply Z.ltb_ge in H]; lia.
Qed.

(** X5.  Every page that a crawl returns is what the session answered
    for its URL: the status is no client or server error (not in 400 to
    599), the page holds the text and the status of the response, and
    its content type, the lower-cased [Content-Type] header, mentions
    [text/html]. *)
Theorem crawl_returns_html seeds :
  Forall (html_response (web := web)) (crawl self seeds).
Proof.
  apply Forall_forall. intros p H.
  destruct seeds as [|seed0 seeds]; [contradiction|].
  destruct (crawl_final_invariant self seed0 seeds) as (_ & _ & Ip).
  destruct (Ip p H) as [Hf _].
  exact (fetch_page_html_response _ _ Hf).
Qed.

End CrawlFilter.

Section CrawlCoverage.
Context {db : UnicodeDB} {ul : UrlLib} {web : Crawler.Web}.
Import Crawler CrawlerSpec.
Variable self : URLCrawler.

Lemma links_to_follow_admitted base entry link :
  In link (links_to_follow self base entry) ->
  _should_crawl_url self link base = true.
Proof.
  unfold links_to_follow.
  destruct (snd entry <? max_depth self)%Z; [|contradiction].
  destruct (_fetch_page (fst entry)); [|contradiction].
  intros H. apply filter_In in H. tauto.
Qed.

Lemma links_pending_step base st st' :
  links_pending self base st -> crawl_step self base st = Some st' ->
  links_pending self base st'.
Proof.
  intros Hinv Hstep.
  destruct (crawl_step_cases self _ _ _ Hstep)
    as (u & d & rest & Hq & _ & Hcases).
  (* a link that waited in the old queue, in the new state *)
  assert (Hold : forall vis added link,
             (In link (visited st)
              \/ exists d', In (link, d') (queue st)
                            /\ (d' <= max_depth self)%Z) ->
             _should_crawl_url self link base = true ->
             (str_in u (visited st) = true
              \/ (max_depth self < d)%Z
              \/ _should_crawl_url self u base = false
              \/ vis = u :: visited st) ->
             (vis = visited st \/ vis = u :: visited st) ->
             In link vis
             \/ exists d', In (link, d') (rest ++ added)
                           /\ (d' <= max_depth self)%Z).
  { intros vis added link Hl Hadm Hwhy Hvis.
    assert (Hmono : In link (visited st) -> In link vis)
      by (destruct Hvis as [->| ->]; [auto | now right]).
    destruct Hl as [Hl | (d' & Hin & Hd')]; [left; auto|].
    rewrite Hq in Hin. destruct Hin as [[= -> ->] | Hin].
    - destruct Hwhy as [H | [H | [H | ->]]].
      + left. apply Hmono. now apply str_in_In.
      + lia.
      + congruence.
      + left. now left.
    - right. exists d'. split; [|exact Hd']. apply in_or_app. now left. }
  destruct Hcases as [[-> Hwhy] | (Hnv & Hd & Hs & [[Hf ->] | Hfetched])].
  - intros entry link He Hl. cbn [crawling visited queue] in *.
    rewrite <- (app_nil_r rest).
    apply Hold; [now apply (Hinv entry) | | tauto | now left].
    eapply links_to_follow_admitted; eassumption.
  - intros entry link He Hl. cbn [crawling visited queue] in *.
    rewrite <- (app_nil_r rest).
    apply in_app_or in He. destruct He as [He | [<- | []]].
    + apply Hold; [now apply (Hinv entry) | | tauto | now right].
      eapply links_to_follow_admitted; eassumption.
    + unfold links_to_follow in Hl. cbn [fst snd] in Hl.
      rewrite Hf in Hl. destruct (d <? max_depth self)%Z; contradiction.
  - pose proof Hstep as Hstep'.
    destruct Hfetched as (p & added & Hf & -> & _ & _).
    intros entry link He Hl. cbn [crawling visited queue] in *.
    apply in_app_or in He. destruct He as [He | [<- | []]].
    + apply Hold; [now apply (Hinv entry) | | tauto | now right].
      eapply links_to_follow_admitted; eassumption.
    + (* the links of the page fetched in this iteration *)
      unfold links_to_follow in Hl. cbn [fst snd] in Hl.
      rewrite Hf in Hl.
      destruct (d <? max_depth self)%Z eqn:Hlt; [|contradiction].
      apply filter_In in Hl. destruct Hl as [Hlink Hadm].
      destruct (str_in link (u :: visited st)) eqn:Hvis.
      * left. now apply str_in_In.
      * right. exists (d + 1)%Z. apply Z.ltb_lt in Hlt.
        split; [|lia].
        unfold crawl_step in Hstep'. rewrite Hq in Hstep'.
        destruct (Z.of_nat (length (pages st)) <? max_pages self)%Z;
          cbn [negb] in Hstep'; [|discriminate].
        rewrite Hnv in Hstep'.
        replace (max_depth self <? d)%Z with false in Hstep'
          by (symmetry; apply Z.ltb_ge; lia).
        rewrite Hs, Hf in Hstep'. cbn [negb] in Hstep'.
        replace (d <? max_depth self)%Z with true in Hstep'
          by (symmetry; apply Z.ltb_lt; lia).
        injection Hstep' as Hadded. apply app_inv_head in Hadded.
        rewrite <- Hadded. apply in_or_app. right.
        apply in_map_iff. exists link. split; [reflexivity|].
        apply filter_In. split; [exact Hlink|].
        change (str_eqb link u || str_in link (visited st))
          with (str_in link (u :: visited st)).
        rewrite Hvis, Hadm. reflexivity.
Qed.

Lemma links_pending_final seed0 seeds :
  links_pending self (_get_domain (_normalize_url seed0))
    (crawl_final self (seed0 :: seeds)).
Proof.
  unfold crawl_final. cbn [map].
  eapply reaches_keeps.
  - apply links_pending_step.
  - apply crawl_loop_reaches.
  - intros entry link [].
Qed.

(** X6.  A crawl that ends below the page limit is complete within the
    depth limit: for every URL crawled at a depth below [max_depth]
    whose fetch gave a page, every link of that page that passes the
    admission filter was crawled too. *)
Theorem crawl_follows_every_link seed0 seeds :
  let base := _get_domain (_normalize_url seed0) in
  let final := crawl_final self (seed0 :: seeds) in
  (Z.of_nat (length (crawl self (seed0 :: seeds))) < max_pages self)%Z ->
  forall u d p link,
    In (u, d) (crawling final) ->
    (d < max_depth self)%Z ->
    _fetch_page u = Some p ->
    In link (_extract_links (html p) u) ->
    _should_crawl_url self link base = true ->
    exists d', In (link, d') (crawling final).
Proof.
  intros base final Hbelow u d p link Hin Hd Hf Hlink Hadm.
  assert (Hq : queue final = []).
  { pose proof (crawl_loop_done self base
                  (initial_state (map _normalize_url (seed0 :: seeds))))
      as Hdone.
    change (crawl_step self base final = None) in Hdone.
    unfold crawl_step in Hdone.
    destruct (queue final) as [|[u' d'] rest]; [reflexivity|].
    unfold crawl in Hbelow. fold final in Hbelow.
    apply Z.ltb_lt in Hbelow. rewrite Hbelow in Hdone.
    cbn [negb] in Hdone.
    destruct (str_in u' (visited final)); [discriminate|].
    destruct (max_depth self <? d')%Z; [discriminate|].
    destruct (negb (_should_crawl_url self u' base)); [discriminate|].
    destruct (_fetch_page u'); discriminate. }
  destruct (links_pending_final seed0 seeds (u, d) link Hin) as [H|H].
  - unfold links_to_follow. cbn [fst snd].
    apply Z.ltb_lt in Hd. rewrite Hd, Hf.
    apply filter_In. split; assumption.
  - eapply in_visited_crawling; [apply bookkeeping_final | exact H].
  - fold final in H. rewrite Hq in H. destruct H as (d' & [] & _).
Qed.

End CrawlCoverage.

(** The small site, crawled from its home page with [max_depth] 2: the
    crawl ends below the page limit, and the link from the guide to the
    API page was followed. *)
Lemma crawl_follows_every_link_witness :
  exists d,
    In (SmallSite.api, d)
      (Crawler.crawling
         (@Crawler.crawl_final ascii_db SimpleUrls.simple_urls SmallSite.site
            SmallSite.deep_crawler [SmallSite.home])).
Proof.
  pose (final :=
          @Crawler.crawl_final ascii_db SimpleUrls.simple_urls SmallSite.site
            SmallSite.deep_crawler [SmallSite.home]).
  assert (Hcrawl :
    Crawler.crawling final
    = [(SmallSite.home, 0%Z); (SmallSite.guide, 1%Z); (SmallSite.api, 2%Z)]
    /\ length (Crawler.pages final) = 3).
  { unfold final, Crawler.crawl_final. cbn [map].
    repeat
      (rewrite crawl_loop_iterate;
       match goal with
       | |- context [@Crawler.crawl_step ?d ?u ?w ?s ?b ?st] =>
           let v := eval vm_compute in (@Crawler.crawl_step d u w s b st) in
           change (@Crawler.crawl_step d u w s b st) with v
       end;
       cbv beta iota).
    split; reflexivity. }
  destruct Hcrawl as [Hfinal Hlen].
  apply (@crawl_follows_every_link ascii_db SimpleUrls.simple_urls
           SmallSite.site SmallSite.deep_crawler SmallSite.home []
           ltac:(unfold Crawler.crawl; fold final; rewrite Hlen; reflexivity)
           SmallSite.guide 1%Z
           (Crawler.Page SmallSite.guide SmallSite.guide 200
              (py "text/html; charset=utf-8"))
           SmallSite.api).
  - fold final. rewrite Hfinal. right. now left.
  - reflexivity.
  - vm_compute. reflexivity.
  - vm_compute. now left.
  - vm_compute. reflexivity.
Defined.

Section CrawlEdges.
Context {db : UnicodeDB} {ul : UrlLib} {web : Crawler.Web}.
Import Crawler CrawlerSpec.
Variable self : URLCrawler.

(** X7.  Without seeds a crawl fetches nothing and returns no page, and
    so does a crawl with a negative [max_depth], whatever the seeds. *)
Theorem crawl_nothing_to_fetch seeds :
  crawl_final self [] = State [] [] [] []
  /\ ((max_depth self < 0)%Z ->
      crawling (crawl_final self seeds) = []
      /\ crawl self seeds = []).
Proof.
  split; [reflexivity|]. intros Hneg.
  destruct seeds as [|seed0 seeds]; [split; reflexivity|].
  destruct (crawl_final_invariant self seed0 seeds) as (_ & Ic & Ip).
  assert (Hc : crawling (crawl_final self (seed0 :: seeds)) = []).
  { destruct (crawling (crawl_final self (seed0 :: seeds)))
      as [|[u d] l]; [reflexivity|].
    destruct (Ic u d (or_introl eq_refl)) as [H _]. lia. }
  split; [exact Hc|]. unfold crawl.
  destruct (pages (crawl_final self (seed0 :: seeds))) as [|p l];
    [reflexivity|].
  destruct (Ip p (or_introl eq_refl)) as [_ [d Hd]].
  rewrite Hc in Hd. contradiction.
Qed.

Lemma rstrip_char_idem c s :
  rstrip_char c (rstrip_char c s) = rstrip_char c s.
Proof.
  unfold rstrip_char. rewrite rev_involutive, drop_while_idem.
  reflexivity.
Qed.

(** The path that [_normalize_url] hands to [urlunparse]. *)
Lemma normalized_path_fixed (p : str) :
  let q := rstrip_char 47%N p in
  let q := if is_empty q then py "/" else q in
  (if is_empty (rstrip_char 47%N q) then py "/" else rstrip_char 47%N q)
  = q.
Proof.
  cbv zeta. destruct (rstrip_char 47%N p) as [|c q] eqn:E; cbn [is_empty].
  - reflexivity.
  - rewrite <- E, rstrip_char_idem, E. reflexivity.
Qed.

(** X8.  Normalising a URL twice gives what normalising it once gives,
    when [urlparse] reads back the components that [urlunparse] was
    given; the normalised components have an empty fragment and a path
    that is [/] or does not end in [/]. *)
Theorem normalize_url_idempotent u :
  let parsed := urlparse u in
  let normalized :=
    ParseResult (scheme parsed) (netloc parsed)
      (if is_empty (rstrip_char 47%N (path parsed)) then py "/"
       else rstrip_char 47%N (path parsed))
      (params parsed) (query parsed) [] in
  urlparse (urlunparse normalized) = normalized ->
  _normalize_url u = urlunparse normalized
  /\ _normalize_url (_normalize_url u) = _normalize_url u
  /\ (path normalized = py "/"
      \/ (path normalized <> []
          /\ forall s, path normalized <> s ++ py "/")).
Proof.
  intros parsed normalized Hback.
  assert (H1 : _normalize_url u = urlunparse normalized) by reflexivity.
  split; [exact H1|]. split.
  - rewrite H1 at 1. unfold _normalize_url at 1. rewrite Hback.
    unfold normalized at 1 2 3 4 5.
    cbn [scheme netloc path params query].
    rewrite (normalized_path_fixed (path parsed)). exact (eq_sym H1).
  - unfold normalized. cbn [path].
    destruct (rstrip_char 47%N (path parsed)) as [|c q] eqn:E;
      cbn [is_empty]; [now left|]. right. split; [discriminate|].
    intros s Hs. unfold rstrip_char in E.
    apply (f_equal (@rev char)) in E. rewrite rev_involutive in E.
    rewrite Hs, rev_app_distr in E. cbn [py rev app] in E.
    change (N_of_ascii "/") with 47%N in E.
    apply drop_while_head in E.
    rewrite N.eqb_refl in E. discriminate.
Qed.

End CrawlEdges.

(** A URL with a trailing slash, under the small [urllib.parse]. *)
Lemma normalize_url_idempotent_witness :
  @Crawler._normalize_url SimpleUrls.simple_urls
    (py "https://docs.example.com/guide/")
  = py "https://docs.example.com/guide"
  /\ @Crawler._normalize_url SimpleUrls.simple_urls
       (@Crawler._normalize_url SimpleUrls.simple_urls
          (py "https://docs.example.com/guide/"))
     = py "https://docs.example.com/guide".
Proof.
  destruct (@normalize_url_idempotent SimpleUrls.simple_urls
              (py "https://docs.example.com/guide/") eq_refl)
    as (H1 & H2 & _).
  rewrite H2. split; vm_compute; reflexivity.
Defined.

(** ** The summarizer: shape of the descriptions *)

Section SentenceEnds.
Import Summarizer SummarizerSpec.

Lemma ends_sentence_not_empty s : ends_sentence s -> s <> [].
Proof. intros H ->. discriminate. Qed.

Lemma sentence_end_not_space c :
  is_sentence_end c = true -> is_space c = false.
Proof.
  unfold is_sentence_end. intros H.
  apply orb_true_iff in H. destruct H as [H|H];
    [apply orb_true_iff in H; destruct H as [H|H]|];
    apply N.eqb_eq in H; subst; reflexivity.
Qed.

Lemma last_app_right (a b : str) d : b <> [] -> last (a ++ b) d = last b d.
Proof.
  intros Hb. induction a as [|x a IH]; [reflexivity|].
  cbn [app]. cbn [last]. destruct (a ++ b) eqn:E; [|exact IH].
  apply app_eq_nil in E. tauto.
Qed.

Lemma ends_sentence_app a b : ends_sentence b -> ends_sentence (a ++ b).
Proof.
  intros H. unfold ends_sentence.
  rewrite last_app_right; [exact H | now apply ends_sentence_not_empty].
Qed.

Lemma ends_sentence_lstrip s : ends_sentence s -> ends_sentence (lstrip s).
Proof.
  unfold lstrip. induction s as [|c s IH]; intros H; [exact H|].
  cbn [drop_while]. destruct (is_space c) eqn:Hc; [|exact H].
  apply IH. unfold ends_sentence in *. destruct s as [|c' s].
  - cbn [last] in H. apply sentence_end_not_space in H. congruence.
  - exact H.
Qed.

Lemma rstrip_ends_sentence s : ends_sentence s -> rstrip s = s.
Proof.
  intros H. unfold rstrip.
  destruct (rev s) as [|c r] eqn:E.
  - apply (f_equal (@rev char)) in E. rewrite rev_involutive in E.
    now apply ends_sentence_not_empty in H.
  - apply (f_equal (@rev char)) in E. rewrite rev_involutive in E.
    cbn [rev] in E. subst s. unfold ends_sentence in H.
    rewrite last_last in H. apply sentence_end_not_space in H.
    cbn [drop_while]. rewrite H. reflexivity.
Qed.

Lemma ends_sentence_strip s : ends_sentence s -> ends_sentence (strip s).
Proof.
  intros H. unfold strip. apply ends_sentence_lstrip in H.
  now rewrite rstrip_ends_sentence.
Qed.

Lemma ends_sentence_join sep (l : list str) :
  l <> [] -> Forall ends_sentence l -> ends_sentence (join sep l).
Proof.
  induction l as [|p l IH]; [congruence|]. intros _ H.
  inversion H as [|? ? Hp Hl]; subst.
  destruct l as [|q l]; [exact Hp|].
  change (join sep (p :: q :: l)) with (p ++ sep ++ join sep (q :: l)).
  rewrite app_assoc. apply ends_sentence_app. apply IH; [discriminate|].
  exact Hl.
Qed.

(** The pieces of the split of a text that ends a sentence end a
    sentence each. *)
Lemma re_split_ends prev_end in_delim cur s :
  prev_end = match cur with c :: _ => is_sentence_end c | [] => false end ->
  (in_delim = true -> cur = []) ->
  ends_sentence (rev cur ++ s) ->
  Forall ends_sentence (re_split_from prev_end in_delim cur s).
Proof.
  revert prev_end in_delim cur.
  induction s as [|c s IH]; intros prev_end in_delim cur Hprev Hdelim Hend.
  - cbn [re_split_from]. rewrite app_nil_r in Hend.
    constructor; [exact Hend | constructor].
  - cbn [re_split_from].
    assert (Hshift : rev (c :: cur) ++ s = rev cur ++ c :: s).
    { cbn [rev]. now rewrite <- app_assoc. }
    assert (Hrest : is_space c = true -> ends_sentence ([] ++ s)).
    { intros Hc. unfold ends_sentence in *. cbn [app].
      rewrite last_app_right in Hend by discriminate.
      destruct s as [|c' s]; [|exact Hend].
      cbn [last] in Hend. apply sentence_end_not_space in Hend.
      congruence. }
    destruct (is_space c) eqn:Hc.
    + destruct in_delim.
      * rewrite (Hdelim eq_refl). apply IH; auto.
      * destruct prev_end.
        -- constructor; [|apply IH; auto].
           destruct cur as [|c0 cur]; [discriminate|].
           unfold ends_sentence. cbn [rev]. rewrite last_last.
           now symmetry.
        -- apply IH; [|discriminate | now rewrite Hshift].
           destruct (is_sentence_end c) eqn:E; [|reflexivity].
           apply sentence_end_not_space in E. congruence.
    + apply IH; [reflexivity | discriminate | now rewrite Hshift].
Qed.

(** The pieces of the split lie in the text. *)
Lemma re_split_occurs prev_end in_delim cur s :
  (in_delim = true -> cur = []) ->
  Forall (fun p => occurs_in p (rev cur ++ s))
    (re_split_from prev_end in_delim cur s).
Proof.
  revert prev_end in_delim cur.
  induction s as [|c s IH]; intros prev_end in_delim cur Hdelim.
  - cbn [re_split_from]. constructor; [|constructor].
    exists [], []. now rewrite !app_nil_r.
  - cbn [re_split_from].
    assert (Hshift : rev (c :: cur) ++ s = rev cur ++ c :: s).
    { cbn [rev]. now rewrite <- app_assoc. }
    assert (Hskip : Forall (fun p => occurs_in p (rev cur ++ c :: s))
                      (re_split_from false true [] s)).
    { eapply Forall_impl; [|apply (IH false true []); auto].
      intros p (a & b & E). cbn [rev app] in E.
      exists (rev cur ++ c :: a), b. rewrite E, <- app_assoc.
      reflexivity. }
    destruct (is_space c).
    + destruct in_delim.
      * rewrite (Hdelim eq_refl) in *. exact Hskip.
      * destruct prev_end.
        -- constructor; [|exact Hskip]. now exists [], (c :: s).
        -- rewrite <- Hshift. apply IH. discriminate.
    + rewrite <- Hshift. apply IH. discriminate.
Qed.

Lemma occurs_in_strip s : occurs_in (strip s) s.
Proof.
  destruct (lstrip_suffix s) as [a Ha].
  destruct (rstrip_prefix (lstrip s)) as (b & Hb & _).
  exists a, b. unfold strip. rewrite <- Hb. exact Ha.
Qed.

Lemma occurs_in_trans a b c : occurs_in a b -> occurs_in b c -> occurs_in a c.
Proof.
  intros (x & y & ->) (x' & y' & ->).
  exists (x' ++ x), (y ++ y'). now rewrite <- !app_assoc.
Qed.

Lemma occurs_in_length a b : occurs_in a b -> length a <= length b.
Proof. intros (x & y & ->). rewrite !length_app. lia. Qed.

End SentenceEnds.

Section Descriptions.
Context {db : UnicodeDB}.
Import Summarizer SummarizerSpec.
Variable self : DescriptionSummarizer.

Lemma truncate_sentences_prefix (l : list str) n :
  exists k, truncate_sentences l n = firstn k l.
Proof.
  revert n. induction l as [|sent l IH]; intros n.
  - now exists 0.
  - cbn [truncate_sentences].
    destruct (n + length sent <=? 500); [|now exists 0].
    destruct (IH (n + length sent + 1)) as [k Hk].
    exists (S k). cbn [firstn]. now rewrite Hk.
Qed.

Lemma truncate_sentences_length (l : list str) n :
  truncate_sentences l n <> [] ->
  n + length (join (py " ") (truncate_sentences l n)) <= 500.
Proof.
  revert n. induction l as [|sent l IH]; intros n; [cbn; congruence|].
  cbn [truncate_sentences].
  destruct (n + length sent <=? 500) eqn:E; [|congruence].
  apply Nat.leb_le in E. intros _.
  destruct (truncate_sentences l (n + length sent + 1)) as [|q t] eqn:Et.
  - cbn [join]. exact E.
  - change (join (py " ") (sent :: q :: t))
      with (sent ++ py " " ++ join (py " ") (q :: t)).
    specialize (IH (n + length sent + 1)). rewrite Et in IH.
    specialize (IH ltac:(discriminate)).
    rewrite !length_app. change (length (py " ")) with 1. lia.
Qed.

Lemma Forall_firstn_keeps {A} (P : A -> Prop) k (l : list A) :
  Forall P l -> Forall P (firstn k l).
Proof.
  intros H. apply Forall_forall. intros x Hx.
  rewrite Forall_forall in H. apply H. eapply In_firstn. exact Hx.
Qed.

(** What [_finalize_description] returns. *)
Lemma finalize_description_shape description :
  let r := _finalize_description self description in
  length r <= 500 /\ strip r = r /\ (r = [] \/ ends_sentence r).
Proof.
  cbv zeta. unfold _finalize_description.
  set (d0 := strip (collapse_ws description)).
  set (d1 := match rev d0 with
             | last :: _ =>
                 if is_sentence_end last then d0 else d0 ++ py "."
             | [] => d0
             end).
  assert (Hd1 : d1 = [] \/ ends_sentence d1).
  { unfold d1. destruct (rev d0) as [|c r] eqn:E.
    - left. apply (f_equal (@rev char)) in E.
      now rewrite rev_involutive in E.
    - right. destruct (is_sentence_end c) eqn:Hc.
      + apply (f_equal (@rev char)) in E. rewrite rev_involutive in E.
        cbn [rev] in E. rewrite E. unfold ends_sentence.
        now rewrite last_last.
      + apply ends_sentence_app. reflexivity. }
  destruct (length d1 <? min_length self).
  { repeat split; [cbn; lia | now left]. }
  destruct (500 <? length d1) eqn:Hlong.
  - destruct (truncate_sentences (split_sentences d1) 0) as [|q t] eqn:Et.
    { repeat split; [cbn; lia | now left]. }
    assert (Hne : truncate_sentences (split_sentences d1) 0 <> [])
      by (rewrite Et; discriminate).
    pose proof (truncate_sentences_length _ _ Hne) as Hlen.
    destruct (truncate_sentences_prefix (split_sentences d1) 0) as [k Hk].
    assert (Hends : ends_sentence
                      (join (py " ")
                         (truncate_sentences (split_sentences d1) 0))).
    { apply ends_sentence_join; [exact Hne|]. rewrite Hk.
      apply Forall_firstn_keeps. unfold split_sentences.
      apply re_split_ends; [reflexivity | discriminate|].
      destruct Hd1 as [E|E]; [|exact E].
      rewrite E in Hlong. discriminate. }
    rewrite Et in *. split; [|split].
    + etransitivity; [apply strip_length|]. simpl in Hlen. exact Hlen.
    + apply strip_idem.
    + right. now apply ends_sentence_strip.
  - apply Nat.ltb_ge in Hlong. split; [|split].
    + etransitivity; [apply strip_length | exact Hlong].
    + apply strip_idem.
    + destruct Hd1 as [-> | E]; [now left|].
      right. now apply ends_sentence_strip.
Qed.

(** X9.  A description, as [_finalize_description] and so
    [generate_description] return it, has at most 500 characters and no
    white space at either end, and is empty or ends in [.], [!] or
    [?]. *)
Theorem description_shape :
  (forall description,
      let r := _finalize_description self description in
      length r <= 500 /\ strip r = r /\ (r = [] \/ ends_sentence r))
  /\ (forall content,
         let r := generate_description self content in
         length r <= 500 /\ strip r = r /\ (r = [] \/ ends_sentence r)).
Proof.
  split; [exact finalize_description_shape|].
  intros content. cbv zeta. unfold generate_description.
  destruct (is_empty content || (length (strip content) <? min_length self)).
  { repeat split; [cbn; lia | now left]. }
  destruct (is_empty (_extract_sentences (_clean_content content))).
  { repeat split; [cbn; lia | now left]. }
  apply finalize_description_shape.
Qed.

Lemma restore_order_firstn selected sentences result :
  length result < max_sentences self ->
  restore_order self selected sentences result
  = firstn (max_sentences self)
      (result ++ filter (fun s => str_in s selected) sentences).
Proof.
  revert result.
  induction sentences as [|sent rest IH]; intros result Hlt.
  - cbn [restore_order filter]. rewrite app_nil_r.
    symmetry. apply firstn_all2. lia.
  - cbn [restore_order filter].
    destruct (str_in sent selected) eqn:E; [|now apply IH].
    destruct (max_sentences self <=? length (result ++ [sent])) eqn:Emax.
    + apply Nat.leb_le in Emax. rewrite length_app in Emax.
      cbn [length] in Emax.
      change (sent :: filter (fun s => str_in s selected) rest)
        with ([sent] ++ filter (fun s => str_in s selected) rest).
      rewrite app_assoc, firstn_app.
      replace (max_sentences self - length (result ++ [sent])) with 0
        by (rewrite length_app; cbn [length]; lia).
      cbn [firstn]. rewrite app_nil_r.
      symmetry. apply firstn_all2. rewrite length_app. cbn [length]. lia.
    + apply Nat.leb_gt in Emax. rewrite IH by exact Emax.
      now rewrite <- app_assoc.
Qed.

Lemma restore_order_none sentences result :
  restore_order self [] sentences result = result.
Proof.
  revert result. induction sentences as [|sent rest IH]; intros result;
    [reflexivity|].
  cbn [restore_order str_in existsb]. apply IH.
Qed.

(** X10.  [_select_sentences] returns the candidates that are equal to
    a selected sentence, in the order of the candidates, cut after
    [max_sentences] of them: at most [max_sentences] sentences, all of
    them candidates, and at least one when there is a candidate and
    [max_sentences] is positive.  The fallback to the first candidates
    is never taken. *)
Theorem select_sentences_closed_form sentences :
  let kept :=
    filter (fun s => str_in s (selected_of self sentences)) sentences in
  _select_sentences self sentences = firstn (max_sentences self) kept
  /\ length (_select_sentences self sentences) <= max_sentences self
  /\ incl (_select_sentences self sentences) sentences
  /\ (sentences <> [] -> 0 < max_sentences self ->
      _select_sentences self sentences <> []).
Proof.
  cbv zeta.
  set (kept :=
         filter (fun s => str_in s (selected_of self sentences)) sentences).
  assert (Hform : _select_sentences self sentences
                  = firstn (max_sentences self) kept
                  /\ (sentences <> [] -> 0 < max_sentences self ->
                      kept <> [])).
  { unfold _select_sentences.
    destruct (is_empty sentences) eqn:Eempty.
    { apply is_empty_true in Eempty. subst kept. rewrite Eempty.
      cbn [filter]. split; [now rewrite firstn_nil | congruence]. }
    apply is_empty_false in Eempty.
    destruct (max_sentences self) as [|m] eqn:Hmax.
    - unfold selected_of. rewrite Hmax. cbn [firstn map].
      rewrite restore_order_none. cbn [is_empty negb firstn].
      split; [reflexivity | lia].
    - assert (Hkept : kept <> []).
      { assert (Hsel : selected_of self sentences <> []).
        { unfold selected_of, scored_sorted. rewrite Hmax.
          intros Hnil. apply (f_equal (@length _)) in Hnil.
          rewrite length_map, length_firstn, sort_desc_length in Hnil.
          rewrite length_map, length_firstn in Hnil.
          destruct sentences; [congruence|]. simpl in Hnil. lia. }
        destruct (selected_of self sentences) as [|y ys] eqn:Ey;
          [congruence|].
        assert (Hy : In y kept).
        { unfold kept. apply filter_In. split.
          - eapply In_firstn, selected_of_candidates. rewrite Ey.
            now left.
          - rewrite ?Ey. apply str_in_In. now left. }
        intros E. rewrite E in Hy. contradiction. }
      rewrite restore_order_firstn by (cbn [length]; lia).
      cbn [app]. fold kept. rewrite Hmax.
      destruct kept as [|x xs]; [congruence|].
      cbn [firstn is_empty negb]. split; [reflexivity | auto]. }
  destruct Hform as [Hform Hne]. rewrite Hform.
  split; [reflexivity|]. split; [|split].
  - rewrite length_firstn. lia.
  - intros s Hs. apply In_firstn in Hs. unfold kept in Hs.
    apply filter_In in Hs. tauto.
  - intros H1 H2. specialize (Hne H1 H2).
    destruct kept; [congruence|].
    destruct (max_sentences self); [lia | discriminate].
Qed.

(** X11.  Every sentence that [_extract_sentences] returns lies in the
    text as a run of consecutive characters, has between 20 and 300
    characters and no white space at either end, and is no navigation
    text; a text of fewer than 20 characters has no sentence. *)
Theorem extract_sentences_shape text :
  Forall (fun sent =>
            occurs_in sent text
            /\ 20 <= length sent <= 300
            /\ strip sent = sent
            /\ _is_navigation_text sent = false)
    (_extract_sentences text)
  /\ (length text < 20 -> _extract_sentences text = []).
Proof.
  assert (H : Forall (fun sent =>
                        occurs_in sent text
                        /\ 20 <= length sent <= 300
                        /\ strip sent = sent
                        /\ _is_navigation_text sent = false)
                (_extract_sentences text)).
  { apply Forall_forall. intros sent Hin.
    unfold _extract_sentences in Hin. apply in_flat_map in Hin.
    destruct Hin as (piece & Hpiece & Hin).
    destruct ((20 <=? length (strip piece))
              && (length (strip piece) <=? 300)
              && negb (_is_navigation_text (strip piece))) eqn:E;
      [|contradiction].
    destruct Hin as [<-|[]].
    apply andb_true_iff in E. destruct E as [E Hnav].
    apply andb_true_iff in E. destruct E as [Hlo Hhi].
    apply Nat.leb_le in Hlo, Hhi. apply negb_true_iff in Hnav.
    repeat split; try assumption; [|apply strip_idem].
    eapply occurs_in_trans; [apply occurs_in_strip|].
    pose proof (re_split_occurs false false [] text ltac:(discriminate))
      as Hocc.
    rewrite Forall_forall in Hocc. exact (Hocc piece Hpiece). }
  split; [exact H|]. intros Hshort.
  destruct (_extract_sentences text) as [|sent l]; [reflexivity|].
  apply Forall_inv in H. destruct H as (Hocc & Hlen & _).
  apply occurs_in_length in Hocc. lia.
Qed.

End Descriptions.

(** ** The pipeline: step 4, the output and the log *)

Section StepFour.
Context {db : UnicodeDB}.
Import Inference Pipeline PipelineSpec.

Local Abbreviation gd := summarizer_generate_description.

Lemma dict_get_default_middle {V} (done todo : dict V) k v default :
  ~ In k (map fst done) ->
  dict_get_default k default (done ++ (k, v) :: todo) = v.
Proof.
  intros Hk. unfold dict_get_default.
  induction done as [|[k' v'] done IH]; cbn [app dict_get].
  - now rewrite str_eqb_refl.
  - destruct (str_eqb k k') eqn:E.
    + apply str_eqb_eq in E. subst k'. exfalso. apply Hk. now left.
    + apply IH. intros H. apply Hk. now right.
Qed.

Lemma dict_set_middle {V} (done todo : dict V) k v v' :
  ~ In k (map fst done) ->
  dict_set k v' (done ++ (k, v) :: todo) = done ++ (k, v') :: todo.
Proof.
  intros Hk.
  induction done as [|[k' v0] done IH]; cbn [app dict_set].
  - now rewrite str_eqb_refl.
  - destruct (str_eqb k k') eqn:E.
    + apply str_eqb_eq in E. subst k'. exfalso. apply Hk. now left.
    + f_equal. apply IH. intros H. apply Hk. now right.
Qed.

(** The loop over the submodules replaces every content by its
    summary, in place. *)
Lemma describe_submodules_map pp (done todo : dict str) :
  unique_keys (done ++ todo) ->
  describe_submodules gd pp (map fst todo) (done ++ todo)
  = Ok (done
        ++ map (fun sub => (fst sub, summary_for pp (fst sub) (snd sub)))
             todo).
Proof.
  revert done. induction todo as [|[k v] todo IH]; intros done Hnd.
  - cbn [map describe_submodules]. reflexivity.
  - cbn [map describe_submodules fst snd].
    assert (Hk : ~ In k (map fst done)).
    { unfold unique_keys in Hnd. rewrite map_app in Hnd.
      cbn [map fst] in Hnd. apply NoDup_remove_2 in Hnd.
      intros H. apply Hnd. apply in_or_app. now left. }
    rewrite dict_get_default_middle by exact Hk.
    unfold summarizer_generate_description at 1. cbn [res_bind].
    rewrite dict_set_middle by exact Hk.
    change (done ++ (k, ?d) :: todo) with (done ++ [(k, d)] ++ todo).
    rewrite app_assoc, IH.
    + rewrite <- app_assoc. reflexivity.
    + rewrite <- app_assoc. unfold unique_keys in *.
      rewrite !map_app in *. exact Hnd.
Qed.

(** Step 4 as a map over the modules. *)
Lemma describe_modules_map pp modules_dict :
  Forall (fun e => unique_keys (submodules (snd e))) modules_dict ->
  describe_modules gd pp modules_dict
  = Ok (map (described_module pp) modules_dict).
Proof.
  induction modules_dict as [|[name data] rest IH]; intros H;
    [reflexivity|].
  inversion H as [|? ? Hdata Hrest]; subst. cbn [snd] in Hdata.
  cbn [describe_modules map]. unfold describe_module.
  unfold summarizer_generate_description at 1. cbn [res_bind].
  pose proof (describe_submodules_map pp [] (submodules data) Hdata) as Hs.
  cbn [app] in Hs. rewrite Hs. cbn [res_bind].
  rewrite (IH Hrest). cbn [res_bind].
  reflexivity.
Qed.

(** X12.  Step 4 of the pipeline, with the pipeline's summarizer,
    returns and is a map over the modules: names, order, contents and
    URLs stay, every module gets the summary of its content, or of what
    the pages give for its name when it has no content, as its
    description, and every submodule gets its summary in the same way in
    place of its content. *)
Theorem describe_modules_is_map pp modules_dict :
  Forall (fun e => unique_keys (submodules (snd e))) modules_dict ->
  describe_modules gd pp modules_dict
  = Ok (map (described_module pp) modules_dict).
Proof. apply describe_modules_map. Qed.

End StepFour.

(** Step 4 on a module without content and with one submodule, over a
    page that has both names in its headings. *)
Lemma describe_modules_is_map_witness :
  @Pipeline.describe_modules ascii_db
    (@Pipeline.summarizer_generate_description ascii_db)
    [BillingSite.parsed] BillingSite.inferred
  = Pipeline.Ok
      [(py "Billing",
        Inference.ModuleData [(py "Refunds", BillingSite.sentence)] []
          BillingSite.url (Some BillingSite.sentence))].
Proof.
  rewrite (@describe_modules_is_map ascii_db).
  - vm_compute. reflexivity.
  - repeat constructor. intros [].
Defined.

Section OutputOrder.
Context {db : UnicodeDB}.
Import Inference Pipeline PipelineSpec.

Local Abbreviation gd := summarizer_generate_description.

Lemma dict_set_fresh {V} (d : dict V) k v :
  ~ In k (map fst d) -> dict_set k v d = d ++ [(k, v)].
Proof.
  intros Hk. induction d as [|[k' v'] d IH]; [reflexivity|].
  cbn [dict_set app]. destruct (str_eqb k k') eqn:E.
  - apply str_eqb_eq in E. subst k'. exfalso. apply Hk. now left.
  - f_equal. apply IH. intros H. apply Hk. now right.
Qed.

Lemma output_submodules_filter (subs acc : dict str) :
  unique_keys (acc ++ subs) ->
  fold_left
    (fun submodules_dict sub =>
       if negb (is_empty (snd sub))
       then dict_set (fst sub) (snd sub) submodules_dict
       else submodules_dict)
    subs acc
  = acc ++ filter (fun sub => negb (is_empty (snd sub))) subs.
Proof.
  revert acc. induction subs as [|[k v] subs IH]; intros acc Hnd.
  - cbn. now rewrite app_nil_r.
  - cbn [fold_left filter fst snd].
    assert (Hk : ~ In k (map fst acc)).
    { unfold unique_keys in Hnd. rewrite map_app in Hnd.
      cbn [map fst] in Hnd. apply NoDup_remove_2 in Hnd.
      intros H. apply Hnd. apply in_or_app. now left. }
    assert (Hrest : unique_keys (acc ++ subs)).
    { unfold unique_keys in *. rewrite map_app in *. cbn [map] in Hnd.
      now apply NoDup_remove_1 in Hnd. }
    destruct (negb (is_empty v)).
    + rewrite dict_set_fresh by exact Hk. rewrite IH.
      * now rewrite <- app_assoc.
      * unfold unique_keys in *. rewrite <- app_assoc. exact Hnd.
    + now apply IH.
Qed.

Lemma record_of_fields (entry : str * ModuleNode) :
  unique_keys (submodules (snd entry)) ->
  map module (record_of entry)
  = (if negb (is_empty (record_of entry)) then [fst entry] else [])
  /\ map Submodules (record_of entry)
     = (if negb (is_empty (record_of entry))
        then [filter (fun sub => negb (is_empty (snd sub)))
                (submodules (snd entry))]
        else []).
Proof.
  intros Hnd. unfold record_of.
  destruct (negb (is_empty (generated_description (snd entry)))
            || negb (is_empty (output_submodules (snd entry))));
    cbn [is_empty negb map module Submodules]; [|split; reflexivity].
  split; [reflexivity|].
  pose proof (output_submodules_filter (submodules (snd entry)) [] Hnd)
    as Hf.
  cbn [app] in Hf. unfold output_submodules. f_equal. exact Hf.
Qed.

(** X13.  The output lists the modules in the order of the dict, one
    record for each module that is kept, and the submodules of a record
    are the submodules of its module that have a non-empty description,
    in their order. *)
Theorem format_output_in_order modules_dict :
  Forall (fun e => unique_keys (submodules (snd e))) modules_dict ->
  exists output,
    _format_output gd modules_dict = Ok output
    /\ map module output
       = map fst (filter (fun e => negb (is_empty (record_of e)))
                    modules_dict)
    /\ map Submodules output
       = map (fun e =>
                filter (fun sub => negb (is_empty (snd sub)))
                  (submodules (snd e)))
           (filter (fun e => negb (is_empty (record_of e))) modules_dict).
Proof.
  intros Hnd. exists (flat_map record_of modules_dict).
  split; [apply format_output_total|].
  induction modules_dict as [|entry rest IH]; [split; reflexivity|].
  inversion Hnd as [|? ? Hentry Hrest]; subst.
  destruct (IH Hrest) as [IH1 IH2].
  destruct (record_of_fields entry Hentry) as [H1 H2].
  cbn [flat_map filter]. rewrite !map_app, IH1, IH2, H1, H2.
  destruct (negb (is_empty (record_of entry))); split; reflexivity.
Qed.

End OutputOrder.

(** The described billing module, formatted. *)
Lemma format_output_in_order_witness :
  exists output,
    @Pipeline._format_output
      (@Pipeline.summarizer_generate_description ascii_db)
      (map (@PipelineSpec.described_module ascii_db [BillingSite.parsed])
         BillingSite.inferred)
    = Pipeline.Ok output
    /\ map Pipeline.module output = [py "Billing"]
    /\ map Pipeline.Submodules output
       = [[(py "Refunds", BillingSite.sentence)]].
Proof.
  destruct (@format_output_in_order ascii_db
              (map (@PipelineSpec.described_module ascii_db
                      [BillingSite.parsed])
                 BillingSite.inferred))
    as (output & H1 & H2 & H3).
  - repeat constructor. intros [].
  - exists output. split; [exact H1|]. rewrite H2, H3.
    split; vm_compute; reflexivity.
Defined.

Section ExtractLog.
Context {db : UnicodeDB}.
Import Inference Pipeline PipelineSpec.

Variable crawler_crawl : list str -> res (list Crawler.page).
Variable parser_parse : str -> str -> res Parser.parsed_page.
Variable inference_infer_modules :
  list Parser.parsed_page -> res (dict ModuleNode).
Variable generate : str -> res str.

Local Abbreviation run_extract :=
  (extract crawler_crawl parser_parse inference_infer_modules generate).

Local Ltac run_pipeline :=
  unfold extract, extract_body, bind, set_logs, _log, call, try_except,
    return_no_modules, get_logs, ret.

Lemma parsed_and_warned pages :
  length (parsed_ok parser_parse pages)
  + length (warnings_of parser_parse pages)
  = length pages.
Proof.
  induction pages as [|page pages IH]; [reflexivity|].
  unfold parsed_ok, warnings_of in *. cbn [flat_map].
  rewrite !length_app.
  destruct (parser_parse (Crawler.html page) (Crawler.page_url page));
    cbn [length]; lia.
Qed.

(** X14.  A run of [extract] starts its log afresh: the result does not
    depend on the log of an earlier run, and its log starts with the
    entries for the start of the extraction and of step 1.  The
    statistics are present only when some page parsed, and then they
    count the pages that the crawl returned, the pages that parsed,
    which are those pages without the ones that left a parse warning,
    and the modules of the result; without statistics the result has no
    module. *)
Theorem extract_log_and_stats urls logs0 :
  run_extract urls logs0 = run_extract urls []
  /\ exists result,
      run_extract urls logs0 = (Ok result, logs result)
      /\ (exists entries, logs result = opening urls ++ entries)
      /\ match stats result with
         | None => modules result = []
         | Some s =>
             exists pages,
               crawler_crawl urls = Ok pages
               /\ pages_crawled s = length pages
               /\ pages_parsed s = length (parsed_ok parser_parse pages)
               /\ 0 < pages_parsed s <= pages_crawled s
               /\ pages_parsed s + length (warnings_of parser_parse pages)
                  = pages_crawled s
               /\ modules_found s = length (modules result)
         end.
Proof.
  split; [reflexivity|].
  run_pipeline. unfold opening. cbn [app].
  destruct (crawler_crawl urls) as [pages|e];
    [|eexists (ExtractResult _ _ _); split; [reflexivity|];
      split; [eexists; cbn [logs app]; reflexivity | reflexivity]].
  destruct (is_empty pages) eqn:Hpages;
    [eexists (ExtractResult _ _ _); split; [reflexivity|];
     split; [eexists; cbn [logs app]; reflexivity | reflexivity]|].
  rewrite parse_pages_run. cbn [app].
  destruct (is_empty (parsed_ok parser_parse pages)) eqn:Hparsed;
    [eexists (ExtractResult _ _ _); split; [reflexivity|];
     split; [eexists; cbn [logs app]; reflexivity | reflexivity]|].
  destruct (inference_infer_modules _) as [modules_dict|e];
    [|eexists (ExtractResult _ _ _); split; [reflexivity|];
      split; [eexists; cbn [logs app]; reflexivity | reflexivity]].
  destruct (describe_modules generate _ modules_dict) as [described|e];
    [|eexists (ExtractResult _ _ _); split; [reflexivity|];
      split; [eexists; cbn [logs app]; reflexivity | reflexivity]].
  destruct (_format_output generate described) as [output|e];
    [|eexists (ExtractResult _ _ _); split; [reflexivity|];
      split; [eexists; cbn [logs app]; reflexivity | reflexivity]].
  eexists (ExtractResult _ _ _). split; [reflexivity|].
  split; [eexists; cbn [logs app]; reflexivity|].
  cbn [stats modules]. exists pages.
  cbn [pages_crawled pages_parsed modules_found].
  pose proof (parsed_and_warned pages) as Hsum.
  apply is_empty_false in Hparsed.
  destruct (parsed_ok parser_parse pages) as [|q qs]; [congruence|].
  cbn [length] in *. repeat split; lia.
Qed.

(** X15.  The two early returns of [extract].  When the crawl returns
    no page the result has no module and no statistics and its log ends
    with the warning that no pages were crawled; when no page parses it
    has no module and no statistics and its log holds one warning for
    each page and ends with the warning that no pages were parsed. *)
Theorem extract_early_returns urls logs0 pages :
  crawler_crawl urls = Ok pages ->
  parsed_ok parser_parse pages = [] ->
  let log :=
    opening urls
    ++ [log_entry
          (py "Crawled " ++ str_of_nat (length pages) ++ py " pages") INFO]
    ++ (if is_empty pages
        then [log_entry
                (py "No pages were crawled. Check URLs and network connectivity.")
                WARNING]
        else [log_entry (py "Step 2: Parsing HTML content...") INFO]
             ++ warnings_of parser_parse pages
             ++ [log_entry (py "Parsed 0 pages") INFO;
                 log_entry (py "No pages were successfully parsed.")
                   WARNING]) in
  run_extract urls logs0 = (Ok (ExtractResult [] log None), log)
  /\ length (warnings_of parser_parse pages) = length pages.
Proof.
  intros Hc Hp log. split.
  - subst log. run_pipeline. unfold opening. rewrite Hc.
    destruct (is_empty pages); [reflexivity|].
    rewrite parse_pages_run, Hp. cbn [app is_empty length].
    rewrite <- !app_assoc. reflexivity.
  - pose proof (parsed_and_warned pages) as H. rewrite Hp in H.
    exact H.
Qed.

End ExtractLog.

(** A crawl of two pages on which the parser raises. *)
Lemma extract_early_returns_witness :
  exists log,
    @Pipeline.extract ascii_db
      (fun _ => Pipeline.Ok ParseFailure.pages)
      (fun _ _ => Pipeline.Raised ParseFailure.parse_error)
      (fun _ => Pipeline.Ok []) (fun _ => Pipeline.Ok [])
      [ParseFailure.broken_url] []
    = (Pipeline.Ok (Pipeline.ExtractResult [] log None), log)
    /\ In (py "[WARNING] No pages were successfully parsed.") log.
Proof.
  eexists. split.
  - refine (proj1 (@extract_early_returns ascii_db
                     (fun _ => Pipeline.Ok ParseFailure.pages)
                     (fun _ _ => Pipeline.Raised ParseFailure.parse_error)
                     (fun _ => Pipeline.Ok []) (fun _ => Pipeline.Ok [])
                     [ParseFailure.broken_url] [] ParseFailure.pages
                     eq_refl eq_refl)).
  - vm_compute. tauto.
Defined.

(** ** The inference: what the modules look like *)

Section Submodules.
Context {db : UnicodeDB}.
Import Inference InferenceSpec.

Lemma dict_set_In {V} (d : dict V) k v e :
  In e (dict_set k v d) -> e = (k, v) \/ In e d.
Proof.
  induction d as [|[k' v'] d IH]; cbn [dict_set].
  - intros [<-|[]]. now left.
  - destruct (str_eqb k k').
    + intros [<-|H]; [now left | right; now right].
    + intros [<-|H]; [right; now left|].
      destruct (IH H) as [->|H']; [now left | right; now right].
Qed.

Lemma dict_set_Forall {V} (P : str * V -> Prop) (d : dict V) k v :
  Forall P d -> P (k, v) -> Forall P (dict_set k v d).
Proof.
  intros Hd Hkv. apply Forall_forall. intros e He.
  apply dict_set_In in He. destruct He as [->|He]; [exact Hkv|].
  rewrite Forall_forall in Hd. now apply Hd.
Qed.

Lemma after_first_none {A} (p : A -> bool) (l : list A) :
  after_first p l = None <-> forall x, In x l -> p x = false.
Proof.
  induction l as [|x l IH]; cbn [after_first].
  - split; [intros _ x [] | reflexivity].
  - destruct (p x) eqn:E.
    + split; [discriminate|]. intros H.
      specialize (H x (or_introl eq_refl)). congruence.
    + rewrite IH. split.
      * intros H y [<-|Hy]; auto.
      * intros H y Hy. apply H. now right.
Qed.

(** The scan for the submodules keeps, of the section, the headings of
    the next level that have a usable name. *)
Lemma collect_sub_headings_filter module_level (l : list heading) :
  collect_sub_headings module_level l
  = filter (fun h => (level h =? module_level + 1)%Z
                     && name_ok (_clean_heading (text h)))
      (section_from module_level l).
Proof.
  induction l as [|h l IH]; [reflexivity|].
  cbn [collect_sub_headings section_from].
  destruct (level h <=? module_level)%Z; [reflexivity|].
  cbn [filter]. rewrite IH.
  now destruct ((level h =? module_level + 1)%Z
                && name_ok (_clean_heading (text h))).
Qed.

(** The dict that a loop of [submodules[name] = ''] builds. *)
Lemma empty_entries_keys {A} (f : A -> str) (l : list A) (acc : dict str) k :
  In k (map fst (fold_left (fun d x => dict_set (f x) [] d) l acc))
  <-> In k (map fst acc) \/ In k (map f l).
Proof.
  revert acc. induction l as [|x l IH]; intros acc; cbn [fold_left map].
  - split; [now left | intros [H|[]]; exact H].
  - rewrite IH, dict_set_keys_In. cbn [In]. split.
    + intros [[->|H]|H]; auto.
    + intros [H|[<-|H]]; auto.
Qed.

Lemma empty_entries_fresh {A} (f : A -> str) (l : list A) (acc : dict str) :
  Forall (fun x => name_ok (f x) = true) l ->
  fresh_submodules acc ->
  fresh_submodules (fold_left (fun d x => dict_set (f x) [] d) l acc).
Proof.
  revert acc. induction l as [|x l IH]; intros acc Hl Hacc; [exact Hacc|].
  inversion Hl as [|? ? Hx Hl']; subst.
  cbn [fold_left]. apply IH; [exact Hl'|].
  destruct Hacc as [Hnd Hall]. split.
  - now apply dict_set_NoDup.
  - apply dict_set_Forall; [exact Hall | now split].
Qed.

Lemma fresh_submodules_nil : fresh_submodules [].
Proof. split; constructor. Qed.

Lemma find_submodules_fresh m c1 c2 hs :
  fresh_submodules (_find_submodules_for_module m c1 c2 hs).
Proof.
  unfold _find_submodules_for_module.
  destruct (after_first _ hs) as [rest|]; [|apply fresh_submodules_nil].
  apply (empty_entries_fresh (fun h => _clean_heading (text h)));
    [|apply fresh_submodules_nil].
  rewrite collect_sub_headings_filter. apply Forall_forall.
  intros h Hh. apply filter_In in Hh. destruct Hh as [_ Hh].
  apply andb_true_iff in Hh. tauto.
Qed.

(** X16.  The submodules that [_find_submodules_for_module] gives a
    module heading are the headings of its section, the headings that
    follow its first occurrence up to the next heading of its level or
    above, that lie one level below it and whose cleaned text has three
    characters or more; they are named by that cleaned text, every name
    comes once, and every content is empty.  A module heading that
    does not occur among the headings has no submodule. *)
Theorem find_submodules_of_section m c1 c2 hs :
  let subs := _find_submodules_for_module m c1 c2 hs in
  fresh_submodules subs
  /\ (forall name,
         In name (map fst subs)
         <-> exists h,
               In h (section_of m hs)
               /\ level h = (level m + 1)%Z
               /\ name = _clean_heading (text h)
               /\ name_ok name = true)
  /\ ((forall h, In h hs -> text h = text m -> url h <> url m) ->
      subs = []).
Proof.
  intros subs. split; [apply find_submodules_fresh|]. split.
  - intros name. subst subs.
    unfold _find_submodules_for_module, section_of.
    destruct (after_first _ hs) as [rest|].
    + rewrite (empty_entries_keys (fun h => _clean_heading (text h))).
      rewrite collect_sub_headings_filter. cbn [map In]. split.
      * intros [[]|H]. apply in_map_iff in H.
        destruct H as (h & <- & Hh). apply filter_In in Hh.
        destruct Hh as [Hin Hh]. apply andb_true_iff in Hh.
        destruct Hh as [Hl Hn]. apply Z.eqb_eq in Hl.
        exists h. auto.
      * intros (h & Hin & Hl & -> & Hn). right.
        apply in_map_iff. exists h. split; [reflexivity|].
        apply filter_In. split; [exact Hin|].
        apply andb_true_iff. split; [now apply Z.eqb_eq | exact Hn].
    + cbn [map In]. split; [intros [] | intros (h & [] & _)].
  - intros Habsent. subst subs. unfold _find_submodules_for_module.
    replace (after_first _ hs) with (@None (list heading)); [reflexivity|].
    symmetry. apply after_first_none. intros h Hh.
    apply andb_false_iff.
    destruct (str_eqb (text h) (text m)) eqn:Et; [|now left]. right.
    apply str_eqb_eq in Et. apply str_eqb_neq. now apply Habsent.
Qed.

End Submodules.

Section WellFormed.
Context {db : UnicodeDB} {ul : UrlLib}.
Import Inference InferenceSpec.

Lemma well_formed_nil : well_formed [].
Proof. split; constructor. Qed.

Lemma well_formed_set (modules : dict ModuleNode) name data :
  well_formed modules ->
  name_ok name = true ->
  description data = None ->
  fresh_submodules (submodules data) ->
  well_formed (dict_set name data modules).
Proof.
  intros [Hnd Hall] Hname Hdesc Hsubs. split.
  - now apply dict_set_NoDup.
  - apply dict_set_Forall; [exact Hall|]. cbn [fst snd]. auto.
Qed.

Lemma add_module_well_formed name h subs cm pm (modules : dict ModuleNode) :
  well_formed modules ->
  name_ok name = true ->
  fresh_submodules subs ->
  well_formed (add_module name h subs cm pm modules).
Proof.
  intros Hwf Hname [_ Hsubs]. unfold add_module.
  match goal with
  | |- well_formed (fold_left _ _ ?start) =>
      assert (Hstart : well_formed start)
  end.
  { destruct (negb (dict_mem name modules)); [|exact Hwf].
    apply well_formed_set; try assumption; try reflexivity.
    apply fresh_submodules_nil. }
  revert Hstart.
  match goal with
  | |- well_formed ?start -> _ => generalize start
  end.
  induction subs as [|[k v] subs IH]; intros start Hstart; [exact Hstart|].
  inversion Hsubs as [|? ? Hkv Hrest]; subst. cbn [fst snd] in Hkv.
  cbn [fold_left fst snd]. apply IH; [exact Hrest|].
  destruct (dict_get name start) as [md|] eqn:Hget; [|exact Hstart].
  destruct (negb (dict_mem k (submodules md))); [|exact Hstart].
  apply dict_get_In in Hget.
  destruct Hstart as [Hnd Hall]. pose proof Hall as Hall'.
  rewrite Forall_forall in Hall'.
  destruct (Hall' _ Hget) as (_ & Hdesc & Hfresh_nd & Hfresh).
  cbn [snd] in Hdesc, Hfresh_nd, Hfresh.
  apply well_formed_set; [now split | exact Hname | exact Hdesc|].
  cbn [submodules]. split.
  - now apply dict_set_NoDup.
  - apply dict_set_Forall; [exact Hfresh | exact Hkv].
Qed.

Lemma fold_keeps {A B} (P : B -> Prop) (f : B -> A -> B) (l : list A) b :
  (forall b a, P b -> P (f b a)) -> P b -> P (fold_left f l b).
Proof.
  intros Hf. revert b. induction l as [|a l IH]; intros b Hb; [exact Hb|].
  cbn [fold_left]. apply IH. now apply Hf.
Qed.

Lemma strategy_h1_well_formed hs cm pm :
  well_formed (strategy_h1 hs cm pm).
Proof.
  unfold strategy_h1. apply fold_keeps; [|apply well_formed_nil].
  intros modules h1 Hwf. unfold h1_step.
  destruct (name_ok (_clean_heading (text h1))) eqn:Hname; cbn [negb];
    [|exact Hwf].
  apply add_module_well_formed; [exact Hwf | exact Hname|].
  apply find_submodules_fresh.
Qed.

Lemma strategy_h2_well_formed hs cm pm :
  well_formed (strategy_h2 hs cm pm).
Proof.
  unfold strategy_h2. apply fold_keeps; [|apply well_formed_nil].
  intros modules item Hwf. unfold h2_step.
  destruct (name_ok (_clean_heading (fst item))) eqn:Hname; cbn [negb];
    [|exact Hwf].
  destruct (find _ _) as [h2_obj|]; [|exact Hwf].
  apply add_module_well_formed; [exact Hwf | exact Hname|].
  apply find_submodules_fresh.
Qed.

Lemma url_groups_names hs :
  Forall (fun group => name_ok (fst group) = true) (url_groups hs).
Proof.
  unfold url_groups.
  apply (fold_keeps
           (fun groups : dict (list heading) =>
              Forall (fun group => name_ok (fst group) = true) groups));
    [|constructor].
  intros groups h Hg. destruct (segments_of (url h)) as [|seg segs];
    [exact Hg|].
  destruct (name_ok _) eqn:Hname; [|exact Hg].
  unfold group_append. apply dict_set_Forall; [exact Hg | exact Hname].
Qed.

Lemma strategy_url_well_formed hs cm pm :
  well_formed (strategy_url hs cm pm).
Proof.
  unfold strategy_url, _infer_from_urls_and_titles.
  pose proof (url_groups_names hs) as Hnames. revert Hnames.
  generalize (url_groups hs). intros groups Hnames.
  assert (H : forall start, well_formed start ->
                well_formed
                  (fold_left
                     (fun modules (group : str * list heading) =>
                        if 2 <=? length (snd group)
                        then dict_set (fst group)
                               (ModuleData
                                  (fold_left
                                     (fun subs h =>
                                        if (2 <=? level h)%Z
                                           && name_ok (_clean_heading (text h))
                                        then dict_set (_clean_heading (text h))
                                               [] subs
                                        else subs)
                                     (snd group) [])
                                  []
                                  match snd group with
                                  | h :: _ => url h
                                  | [] => []
                                  end None)
                               modules
                        else modules)
                     groups start)).
  { induction groups as [|[name l] groups IH]; intros start Hstart;
      [exact Hstart|].
    inversion Hnames as [|? ? Hname Hrest]; subst. cbn [fst] in Hname.
    cbn [fold_left fst snd]. apply IH; [exact Hrest|].
    destruct (2 <=? length l); [|exact Hstart].
    apply well_formed_set; try assumption; try reflexivity.
    cbn [submodules].
    apply (fold_keeps fresh_submodules); [|apply fresh_submodules_nil].
    intros subs h [Hnd Hall].
    destruct ((2 <=? level h)%Z && name_ok (_clean_heading (text h)))
      eqn:E; [|now split].
    apply andb_true_iff in E. split.
    - now apply dict_set_NoDup.
    - apply dict_set_Forall; [exact Hall|]. cbn [fst snd]. tauto. }
  apply H, well_formed_nil.
Qed.

Lemma build_hierarchy_well_formed hs cm pm :
  well_formed (_build_hierarchy hs cm pm).
Proof.
  rewrite build_hierarchy_choice. cbn [first_non_empty].
  destruct (is_empty (strategy_h1 hs cm pm));
    [|apply strategy_h1_well_formed].
  destruct (is_empty (strategy_h2 hs cm pm));
    [|apply strategy_h2_well_formed].
  destruct (is_empty (strategy_url hs cm pm));
    [apply well_formed_nil | apply strategy_url_well_formed].
Qed.

(** X17.  The modules that the inference returns, whichever strategy
    made them, have names of three characters or more, each once, and
    no description yet; their submodules have names of three characters
    or more, each once within its module, and an empty content: the
    inference leaves the content of every submodule to the
    pipeline. *)
Theorem infer_modules_well_formed :
  (forall hs cm pm, well_formed (_build_hierarchy hs cm pm))
  /\ (forall parsed_pages, well_formed (infer_modules parsed_pages)).
Proof.
  split; [exact build_hierarchy_well_formed|].
  intros parsed_pages. unfold infer_modules.
  apply build_hierarchy_well_formed.
Qed.

End WellFormed.

Section InferredAndDescribed.
Context {db : UnicodeDB} {ul : UrlLib}.
Import Inference InferenceSpec Pipeline PipelineSpec.

Local Abbreviation gd := summarizer_generate_description.

(** X18.  In the pipeline the description of a submodule never comes
    from its section: on the modules that the inference returns, step 4
    describes every submodule by the summary of what the pages give for
    its name, the text of the first page that has a heading containing
    the name and a text. *)
Theorem inferred_submodules_described_from_pages parsed_pages pp :
  describe_modules gd pp (infer_modules parsed_pages)
  = Ok (map
          (fun e =>
             (fst e,
              ModuleData
                (map (fun sub =>
                        (fst sub,
                         Summarizer.generate_description
                           Summarizer.default_summarizer
                           (content_from_pages (fst sub) pp)))
                   (submodules (snd e)))
                (content (snd e)) (module_url (snd e))
                (Some (summary_for pp (fst e) (content (snd e))))))
          (infer_modules parsed_pages)).
Proof.
  destruct (build_hierarchy_well_formed
              (all_headings
                 (fold_left collect_page parsed_pages (Collected [] [] [])))
              (heading_content_map
                 (fold_left collect_page parsed_pages (Collected [] [] [])))
              (page_content_map
                 (fold_left collect_page parsed_pages (Collected [] [] []))))
    as [_ Hall].
  change (_build_hierarchy _ _ _) with (infer_modules parsed_pages) in Hall.
  rewrite describe_modules_map.
  - f_equal. apply map_ext_in. intros e He.
    rewrite Forall_forall in Hall.
    destruct (Hall e He) as (_ & _ & _ & Hsubs).
    assert (Hm : map (fun sub => (fst sub, summary_for pp (fst sub) (snd sub)))
                   (submodules (snd e))
                 = map (fun sub =>
                          (fst sub,
                           Summarizer.generate_description
                             Summarizer.default_summarizer
                             (content_from_pages (fst sub) pp)))
                     (submodules (snd e))).
    { apply map_ext_in. intros [k v] Hsub.
      rewrite Forall_forall in Hsubs. destruct (Hsubs _ Hsub) as [_ Hc].
      cbn [fst snd] in *. subst v. reflexivity. }
    unfold described_module. now rewrite Hm.
  - eapply Forall_impl; [|exact Hall].
    intros e (_ & _ & Hnd & _). exact Hnd.
Qed.

End InferredAndDescribed.

Section HeadingContent.
Import Inference.

(** X19.  The content that [_extract_content_for_heading] gives a
    heading is the first 500 characters of the page text, or a text
    that is not empty and has no white space at either end; it is
    empty only when the page text is empty; and it is the first 500
    characters of the page text for a heading that is not among the
    headings of the page. *)
Theorem extract_content_for_heading_fallback
    heading all_page_headings page_text content_blocks :
  let r :=
    _extract_content_for_heading heading all_page_headings page_text
      content_blocks in
  (r = firstn 500 page_text \/ (r <> [] /\ strip r = r))
  /\ (r = [] -> page_text = [])
  /\ ((forall h, In h all_page_headings ->
                 Parser.text h = Parser.text heading ->
                 Parser.level h <> Parser.level heading) ->
      r = firstn 500 page_text).
Proof.
  intros r.
  assert (H1 : r = firstn 500 page_text \/ (r <> [] /\ strip r = r)).
  { subst r. unfold _extract_content_for_heading.
    destruct (after_first _ all_page_headings) as [rest|]; [|now left].
    match goal with
    | |- context [strip ?x] => destruct (strip x) as [|c s] eqn:E
    end; cbn [is_empty negb]; [now left|].
    right. split; [discriminate|]. rewrite <- E. apply strip_idem. }
  split; [exact H1|]. split.
  - intros Hr. destruct H1 as [H1|[H1 _]]; [|congruence].
    rewrite Hr in H1. destruct page_text; [reflexivity | discriminate].
  - intros Habsent. subst r. unfold _extract_content_for_heading.
    replace (after_first _ all_page_headings)
      with (@None (list Parser.heading)); [reflexivity|].
    symmetry. apply after_first_none. intros h Hh.
    apply andb_false_iff.
    destruct (str_eqb (Parser.text h) (Parser.text heading)) eqn:Et;
      [|now left].
    right. apply str_eqb_eq in Et. apply Z.eqb_neq. now apply Habsent.
Qed.

End HeadingContent.

Section NoHeadings.
Context {db : UnicodeDB} {ul : UrlLib}.
Import Inference.

Lemma collect_heading_headings page (l : list Parser.heading) start :
  all_headings (fold_left (collect_heading page) l start)
  = all_headings start
    ++ map (fun h =>
              Heading (Parser.level h) (Parser.text h) (Parser.pp_url page)
                (Parser.id h))
         l.
Proof.
  revert start. induction l as [|h l IH]; intros start.
  - cbn. now rewrite app_nil_r.
  - cbn [fold_left map]. rewrite IH. cbn [collect_heading all_headings].
    now rewrite <- app_assoc.
Qed.

Lemma collect_page_headings acc page :
  all_headings (collect_page acc page)
  = all_headings acc
    ++ map (fun h =>
              Heading (Parser.level h) (Parser.text h) (Parser.pp_url page)
                (Parser.id h))
         (Parser.pp_headings page).
Proof.
  unfold collect_page. now rewrite collect_heading_headings.
Qed.

(** The headings that [infer_modules] collects: those of the pages, in
    the order of the pages, each with the URL of its page. *)
Lemma collected_headings parsed_pages acc :
  all_headings (fold_left collect_page parsed_pages acc)
  = all_headings acc
    ++ flat_map
         (fun page =>
            map (fun h =>
                   Heading (Parser.level h) (Parser.text h)
                     (Parser.pp_url page) (Parser.id h))
              (Parser.pp_headings page))
         parsed_pages.
Proof.
  revert acc. induction parsed_pages as [|page pages IH]; intros acc.
  - cbn. now rewrite app_nil_r.
  - cbn [fold_left flat_map]. rewrite IH, collect_page_headings.
    now rewrite <- app_assoc.
Qed.

(** X20.  Pages without headings give no module: every strategy of the
    inference starts from the headings. *)
Theorem infer_modules_needs_headings parsed_pages :
  Forall (fun page => Parser.pp_headings page = []) parsed_pages ->
  infer_modules parsed_pages = [].
Proof.
  intros H. unfold infer_modules.
  rewrite collected_headings. cbn [all_headings app].
  replace (flat_map _ parsed_pages) with (@nil heading); [reflexivity|].
  symmetry. induction H as [|page pages Hpage _ IH]; [reflexivity|].
  cbn [flat_map]. rewrite Hpage, IH. reflexivity.
Qed.

End NoHeadings.

(** A page with text and no heading. *)
Lemma infer_modules_needs_headings_witness :
  @Inference.infer_modules ascii_db SimpleUrls.simple_urls
    [Parser.ParsedPage BillingSite.url (py "Billing") [] []
       BillingSite.sentence]
  = [].
Proof.
  apply (@infer_modules_needs_headings ascii_db SimpleUrls.simple_urls).
  repeat constructor.
Defined.

Section UrlGroups.
Context {db : UnicodeDB} {ul : UrlLib}.
Import Inference InferenceSpec.

(** The step of the grouping loop, by the name that the URL gives. *)
Definition group_step (groups : dict (list heading)) (h : heading)
  : dict (list heading) :=
  match module_segment h with
  | Some name => group_append name h groups
  | None => groups
  end.

Lemma url_groups_fold hs : url_groups hs = fold_left group_step hs [].
Proof.
  unfold url_groups. generalize (@nil (str * list heading)).
  induction hs as [|h hs IH]; intros acc; [reflexivity|].
  cbn [fold_left]. rewrite IH. f_equal.
  unfold group_step, module_segment.
  destruct (segments_of (url h)) as [|seg segs]; [reflexivity|].
  cbv zeta. now destruct (name_ok _).
Qed.

Lemma group_of_cons name h hs :
  group_of name (h :: hs)
  = match module_segment h with
    | Some s => if str_eqb s name then h :: group_of name hs
                else group_of name hs
    | None => group_of name hs
    end.
Proof.
  unfold group_of. cbn [filter].
  destruct (module_segment h) as [s|]; [|reflexivity].
  now destruct (str_eqb s name).
Qed.

Lemma dict_get_default_set {V} (d : dict V) k k' v default :
  dict_get_default k default (dict_set k' v d)
  = if str_eqb k k' then v else dict_get_default k default d.
Proof.
  unfold dict_get_default. rewrite dict_get_set.
  now destruct (str_eqb k k').
Qed.

Lemma group_step_spec hs (acc : dict (list heading)) :
  NoDup (map fst acc) ->
  let groups := fold_left group_step hs acc in
  NoDup (map fst groups)
  /\ (forall k, dict_get_default k [] groups
                = dict_get_default k [] acc ++ group_of k hs)
  /\ (forall k, In k (map fst groups)
                <-> In k (map fst acc) \/ group_of k hs <> []).
Proof.
  revert acc. induction hs as [|h hs IH]; intros acc Hnd; cbv zeta.
  - cbn [fold_left]. split; [exact Hnd|]. split.
    + intros k. unfold group_of. cbn [filter]. now rewrite app_nil_r.
    + intros k. unfold group_of. cbn [filter]. tauto.
  - cbn [fold_left].
    destruct (module_segment h) as [name|] eqn:Hseg.
    + assert (Hstep : group_step acc h
                      = dict_set name (dict_get_default name [] acc ++ [h])
                          acc)
        by (unfold group_step, group_append; now rewrite Hseg).
      rewrite Hstep.
      destruct (IH (dict_set name (dict_get_default name [] acc ++ [h]) acc)
                  (dict_set_NoDup _ _ _ Hnd)) as (H1 & H2 & H3).
      split; [exact H1|]. split.
      * intros k. rewrite H2, dict_get_default_set, group_of_cons, Hseg.
        destruct (str_eqb k name) eqn:E.
        -- apply str_eqb_eq in E. subst k. rewrite str_eqb_refl.
           now rewrite <- app_assoc.
        -- replace (str_eqb name k) with false; [reflexivity|].
           symmetry. apply str_eqb_neq. apply str_eqb_neq in E.
           congruence.
      * intros k. rewrite H3, dict_set_keys_In, group_of_cons, Hseg.
        destruct (str_eqb name k) eqn:E.
        -- apply str_eqb_eq in E. subst k. split; [|now left; left].
           intros _. right. discriminate.
        -- apply str_eqb_neq in E. split.
           ++ intros [[->|H]|H]; [congruence | now left | now right].
           ++ intros [H|H]; [left; now right | now right].
    + assert (Hstep : group_step acc h = acc)
        by (unfold group_step; now rewrite Hseg).
      rewrite Hstep.
      destruct (IH acc Hnd) as (H1 & H2 & H3).
      split; [exact H1|]. split.
      * intros k. now rewrite H2, group_of_cons, Hseg.
      * intros k. now rewrite H3, group_of_cons, Hseg.
Qed.

(** The groups of strategy 3: under every name, in the order in which
    the names come up, the headings whose URL gives the name. *)
Lemma url_groups_spec hs :
  NoDup (map fst (url_groups hs))
  /\ (forall k l, In (k, l) (url_groups hs)
                  <-> l = group_of k hs /\ l <> []).
Proof.
  rewrite url_groups_fold.
  destruct (group_step_spec hs [] ltac:(constructor)) as (H1 & H2 & H3).
  cbv zeta in *. split; [exact H1|]. intros k l. split.
  - intros Hin.
    assert (Hl : l = group_of k hs).
    { rewrite <- (app_nil_l (group_of k hs)).
      change (@nil heading) with (dict_get_default k (@nil heading) []).
      rewrite <- H2. unfold dict_get_default.
      now rewrite (dict_In_get k l _ H1 Hin). }
    split; [exact Hl|]. subst l.
    assert (Hk : In k (map fst (fold_left group_step hs [])))
      by (apply in_map_iff; now exists (k, group_of k hs)).
    apply H3 in Hk. destruct Hk as [[]|Hk]. exact Hk.
  - intros [-> Hne].
    assert (Hk : In k (map fst (fold_left group_step hs [])))
      by (apply H3; now right).
    apply in_map_iff in Hk. destruct Hk as ([k' l] & Hk' & Hin).
    cbn [fst] in Hk'. subst k'.
    assert (Hl : l = group_of k hs).
    { rewrite <- (app_nil_l (group_of k hs)).
      change (@nil heading) with (dict_get_default k (@nil heading) []).
      rewrite <- H2. unfold dict_get_default.
      now rewrite (dict_In_get k l _ H1 Hin). }
    now rewrite <- Hl.
Qed.

(** The module that strategy 3 makes of a group. *)
Definition module_of_group (heading_list : list heading) : ModuleNode :=
  ModuleData
    (fold_left
       (fun subs h =>
          if (2 <=? level h)%Z && name_ok (_clean_heading (text h))
          then dict_set (_clean_heading (text h)) [] subs
          else subs)
       heading_list [])
    []
    (match heading_list with h :: _ => url h | [] => [] end)
    None.

Lemma modules_of_groups (groups : dict (list heading))
    (start : dict ModuleNode) :
  let modules :=
    fold_left
      (fun modules (group : str * list heading) =>
         if 2 <=? length (snd group)
         then dict_set (fst group) (module_of_group (snd group)) modules
         else modules)
      groups start in
  (forall name, In name (map fst modules)
                <-> In name (map fst start)
                    \/ exists l, In (name, l) groups /\ 2 <= length l)
  /\ (forall name data,
         In (name, data) modules ->
         In (name, data) start
         \/ exists l, In (name, l) groups /\ 2 <= length l
                      /\ data = module_of_group l).
Proof.
  revert start. induction groups as [|[k l] groups IH]; intros start;
    cbv zeta.
  - cbn [fold_left]. split.
    + intros name. split; [now left | intros [H|(l & [] & _)]; exact H].
    + intros name data H. now left.
  - cbn [fold_left fst snd].
    destruct (2 <=? length l) eqn:E.
    + apply Nat.leb_le in E.
      destruct (IH (dict_set k (module_of_group l) start)) as [H1 H2].
      split.
      * intros name. rewrite H1, dict_set_keys_In. split.
        -- intros [[->|H]|(l' & H & Hl)].
           ++ right. exists l. split; [now left | exact E].
           ++ now left.
           ++ right. exists l'. split; [now right | exact Hl].
        -- intros [H|(l' & [[= <- <-]|H] & Hl)].
           ++ left. now right.
           ++ left. now left.
           ++ right. now exists l'.
      * intros name data H. apply H2 in H.
        destruct H as [H|(l' & H & Hl & Hd)].
        -- apply dict_set_In in H. destruct H as [[= -> ->]|H];
             [|now left].
           right. exists l. split; [now left | now split].
        -- right. exists l'. split; [now right | now split].
    + apply Nat.leb_gt in E. destruct (IH start) as [H1 H2]. split.
      * intros name. rewrite H1. split.
        -- intros [H|(l' & H & Hl)]; [now left|].
           right. exists l'. split; [now right | exact Hl].
        -- intros [H|(l' & [[= <- <-]|H] & Hl)]; [now left | lia|].
           right. now exists l'.
      * intros name data H. apply H2 in H.
        destruct H as [H|(l' & H & Hl & Hd)]; [now left|].
        right. exists l'. split; [now right | now split].
Qed.

Lemma conditional_entries_keys {A} (c : A -> bool) (f : A -> str)
    (l : list A) (acc : dict str) k :
  In k (map fst
          (fold_left (fun subs x => if c x then dict_set (f x) [] subs
                                    else subs) l acc))
  <-> In k (map fst acc) \/ exists x, In x l /\ c x = true /\ k = f x.
Proof.
  revert acc. induction l as [|x l IH]; intros acc; cbn [fold_left].
  - split; [now left | intros [H|(x & [] & _)]; exact H].
  - rewrite IH. destruct (c x) eqn:E.
    + rewrite dict_set_keys_In. split.
      * intros [[->|H]|(y & Hy & Hc & Hk)].
        -- right. exists x. split; [now left | now split].
        -- now left.
        -- right. exists y. split; [now right | now split].
      * intros [H|(y & [<-|Hy] & Hc & Hk)].
        -- left. now right.
        -- left. now left.
        -- right. now exists y.
    + split.
      * intros [H|(y & Hy & Hc & Hk)]; [now left|].
        right. exists y. split; [now right | now split].
      * intros [H|(y & [<-|Hy] & Hc & Hk)]; [now left | congruence|].
        right. now exists y.
Qed.

(** X21.  Strategy 3 makes a module of every name that the URLs of two
    or more headings give, the first path segment that is not generic,
    in title case: the module has an empty content and the URL of the
    first of these headings, and its submodules are those of these
    headings that have level 2 or more and a cleaned text of three
    characters or more. *)
Theorem infer_from_urls_by_group hs cm pm :
  let modules := _infer_from_urls_and_titles hs cm pm in
  (forall name,
      In name (map fst modules) <-> 2 <= length (group_of name hs))
  /\ (forall name data,
         In (name, data) modules ->
         content data = []
         /\ module_url data
            = match group_of name hs with h :: _ => url h | [] => [] end
         /\ forall sub,
             In sub (map fst (submodules data))
             <-> exists h,
                   In h (group_of name hs)
                   /\ (2 <= level h)%Z
                   /\ sub = _clean_heading (text h)
                   /\ name_ok sub = true).
Proof.
  intros modules.
  destruct (url_groups_spec hs) as [Hnd Hgroups].
  destruct (modules_of_groups (url_groups hs) []) as [H1 H2].
  cbv zeta in H1, H2.
  change (fold_left _ (url_groups hs) []) with modules in H1, H2.
  split.
  - intros name. rewrite H1. cbn [map In]. split.
    + intros [[]|(l & Hl & Hlen)]. apply Hgroups in Hl.
      destruct Hl as [-> _]. exact Hlen.
    + intros Hlen. right. exists (group_of name hs).
      split; [|exact Hlen]. apply Hgroups. split; [reflexivity|].
      intros E. rewrite E in Hlen. cbn in Hlen. lia.
  - intros name data Hin. apply H2 in Hin.
    destruct Hin as [[]|(l & Hl & _ & ->)].
    apply Hgroups in Hl. destruct Hl as [-> _].
    cbn [module_of_group content module_url submodules].
    split; [reflexivity|]. split; [reflexivity|].
    intros sub.
    rewrite (conditional_entries_keys
               (fun h => (2 <=? level h)%Z
                         && name_ok (_clean_heading (text h)))
               (fun h => _clean_heading (text h))).
    cbn [map In]. split.
    + intros [[]|(h & Hh & Hc & ->)]. apply andb_true_iff in Hc.
      destruct Hc as [Hc1 Hc2]. apply Z.leb_le in Hc1.
      exists h. auto.
    + intros (h & Hh & Hl & -> & Hn). right. exists h.
      split; [exact Hh|]. split; [|reflexivity].
      apply andb_true_iff. split; [now apply Z.leb_le | exact Hn].
Qed.

End UrlGroups.

(** ** The parser: boilerplate, title, text and blocks *)

Section Boilerplate.
Import Parser ParserSpec.

(** Whether a selector selects an element depends on its name and its
    attributes only. *)
Lemma selected_children sel name attrs (c1 c2 : list node) :
  selected sel (Tag name attrs c1) = selected sel (Tag name attrs c2).
Proof. reflexivity. Qed.

Lemma without_after_decompose sel sels n :
  flat_map (without sels) (decompose_in sel n) = without (sel :: sels) n.
Proof.
  induction n as [s | name attrs children IH] using node_ind;
    [reflexivity|].
  cbn [decompose_in without existsb].
  destruct (selected sel (Tag name attrs children)) eqn:E;
    cbn [orb flat_map]; [reflexivity|].
  rewrite app_nil_r. cbn [without].
  assert (Hsels : existsb
                    (fun sel0 =>
                       selected sel0
                         (Tag name attrs
                            (flat_map (decompose_in sel) children))) sels
                  = existsb
                      (fun sel0 => selected sel0 (Tag name attrs children))
                      sels).
  { reflexivity. }
  rewrite Hsels.
  destruct (existsb _ sels); [reflexivity|].
  rewrite flat_map_flat_map.
  now rewrite (flat_map_ext_Forall _ _ _ IH).
Qed.

Lemma without_none n : without [] n = [n].
Proof.
  induction n as [s | name attrs children IH] using node_ind;
    [reflexivity|].
  cbn [without existsb].
  rewrite (flat_map_ext_Forall _ (fun c => [c]) _ IH).
  f_equal. f_equal. induction children as [|c cs IHc]; [reflexivity|].
  cbn [flat_map app]. f_equal. apply IHc. now inversion IH.
Qed.

(** The loop over the selectors is one pass over the tree. *)
Lemma decompose_all sels s :
  fold_left (fun s sel => decompose_selected sel s) sels s
  = flat_map (without sels) s.
Proof.
  revert s. induction sels as [|sel sels IH]; intros s.
  - cbn [fold_left]. induction s as [|n s IHs]; [reflexivity|].
    cbn [flat_map]. now rewrite without_none, <- IHs.
  - cbn [fold_left]. rewrite IH. unfold decompose_selected.
    rewrite flat_map_flat_map. apply flat_map_ext.
    intros n. apply without_after_decompose.
Qed.

Lemma without_free sels n :
  forallb (free_of sels) (without sels n) = true.
Proof.
  induction n as [s | name attrs children IH] using node_ind;
    [reflexivity|].
  cbn [without].
  destruct (existsb _ sels) eqn:E; [reflexivity|].
  cbn [forallb free_of]. rewrite andb_true_r.
  replace (existsb
             (fun sel =>
                selected sel
                  (Tag name attrs (flat_map (without sels) children)))
             sels) with false
    by (rewrite <- E; reflexivity).
  cbn [negb andb].
  induction children as [|c cs IHc]; [reflexivity|].
  inversion IH as [|? ? Hc Hcs]; subst.
  cbn [flat_map]. rewrite forallb_app, Hc. now apply IHc.
Qed.

Lemma free_without sels n : free_of sels n = true -> without sels n = [n].
Proof.
  induction n as [s | name attrs children IH] using node_ind;
    [reflexivity|].
  cbn [free_of without]. intros H. apply andb_true_iff in H.
  destruct H as [Hsel Hch]. apply negb_true_iff in Hsel. rewrite Hsel.
  f_equal. f_equal. clear Hsel.
  induction children as [|c cs IHc]; [reflexivity|].
  inversion IH as [|? ? Hc Hcs]; subst.
  cbn [forallb] in Hch. apply andb_true_iff in Hch.
  destruct Hch as [H1 H2].
  cbn [flat_map]. rewrite (Hc H1), (IHc Hcs H2). reflexivity.
Qed.

Lemma free_soup sels (s : soup) :
  forallb (free_of sels) s = true -> flat_map (without sels) s = s.
Proof.
  induction s as [|n s IH]; [reflexivity|].
  cbn [forallb flat_map]. intros H. apply andb_true_iff in H.
  destruct H as [H1 H2]. now rewrite (free_without _ _ H1), (IH H2).
Qed.

Lemma without_soup_free sels (s : soup) :
  forallb (free_of sels) (flat_map (without sels) s) = true.
Proof.
  induction s as [|n s IH]; [reflexivity|].
  cbn [flat_map]. now rewrite forallb_app, without_free, IH.
Qed.

(** X22.  [_remove_boilerplate] removes, whatever the order of the
    selectors, exactly the elements that some selector selects, with
    all they hold: what it leaves has no such element, a soup without
    such elements is left as it is, and removing twice is removing
    once. *)
Theorem remove_boilerplate_one_pass s :
  _remove_boilerplate s = flat_map (without BOILERPLATE_SELECTORS) s
  /\ forallb (free_of BOILERPLATE_SELECTORS) (_remove_boilerplate s) = true
  /\ (forallb (free_of BOILERPLATE_SELECTORS) s = true ->
      _remove_boilerplate s = s)
  /\ _remove_boilerplate (_remove_boilerplate s) = _remove_boilerplate s.
Proof.
  unfold _remove_boilerplate. rewrite !decompose_all.
  split; [reflexivity|]. split; [apply without_soup_free|].
  split; [apply free_soup|].
  apply free_soup, without_soup_free.
Qed.

End Boilerplate.

Section Trimmed.

(** The first and the last character of a text, when it has them, are
    no white space. *)
Definition head_ok (s : str) : bool :=
  match s with c :: _ => negb (is_space c) | [] => true end.

Definition last_ok (s : str) : bool := head_ok (rev s).

Lemma last_ok_rstrip s : last_ok (rstrip s) = true.
Proof.
  unfold last_ok, rstrip. rewrite rev_involutive.
  destruct (drop_while is_space (rev s)) as [|c r] eqn:E; [reflexivity|].
  cbn [head_ok]. now rewrite (drop_while_head _ _ _ _ E).
Qed.

Lemma head_ok_strip s : head_ok (strip s) = true.
Proof.
  unfold strip, lstrip.
  destruct (drop_while is_space s) as [|c r] eqn:E; [reflexivity|].
  pose proof (drop_while_head _ _ _ _ E) as Hc.
  rewrite rstrip_cons by exact Hc. cbn [head_ok]. now rewrite Hc.
Qed.

Lemma edges_strip s : head_ok s = true -> last_ok s = true -> strip s = s.
Proof.
  intros Hh Hl. unfold strip.
  assert (Hls : lstrip s = s).
  { destruct s as [|c s]; [reflexivity|]. apply lstrip_head.
    cbn [head_ok] in Hh. now apply negb_true_iff in Hh. }
  rewrite Hls. unfold rstrip. unfold last_ok in Hl.
  destruct (rev s) as [|c r] eqn:E.
  - cbn. apply (f_equal (@rev char)) in E.
    now rewrite rev_involutive in E.
  - cbn [head_ok] in Hl. apply negb_true_iff in Hl.
    cbn [drop_while]. rewrite Hl, <- E. apply rev_involutive.
Qed.

Lemma strip_edges s : strip s = s -> head_ok s = true /\ last_ok s = true.
Proof.
  intros H. rewrite <- H. split; [apply head_ok_strip|].
  unfold strip. apply last_ok_rstrip.
Qed.

Lemma last_ok_app a b : b <> [] -> last_ok (a ++ b) = last_ok b.
Proof.
  intros Hb. unfold last_ok. rewrite rev_app_distr.
  destruct (rev b) as [|c r] eqn:E; [|reflexivity].
  apply (f_equal (@rev char)) in E. rewrite rev_involutive in E.
  contradiction.
Qed.

(** Trimmed pieces, none empty, give a trimmed text whatever joins
    them. *)
Lemma join_trimmed sep (l : list str) :
  Forall (fun p => p <> [] /\ strip p = p) l ->
  strip (join sep l) = join sep l /\ (l <> [] -> join sep l <> []).
Proof.
  intros H.
  assert (Hedges : head_ok (join sep l) = true
                   /\ last_ok (join sep l) = true
                   /\ (l <> [] -> join sep l <> [])).
  { induction H as [|p l [Hne Hp] Hl IH];
      [split; [reflexivity|]; split; [reflexivity|];
       intros Hn; now contradiction Hn|].
    apply strip_edges in Hp. destruct Hp as [Hh Hlast].
    destruct l as [|q l]; [cbn [join]; repeat split; auto|].
    change (join sep (p :: q :: l)) with (p ++ sep ++ join sep (q :: l)).
    destruct IH as (_ & IH2 & IH3).
    specialize (IH3 ltac:(discriminate)).
    split; [|split].
    - destruct p; [congruence | exact Hh].
    - rewrite app_assoc, last_ok_app; assumption.
    - destruct p; [congruence | discriminate]. }
  destruct Hedges as (H1 & H2 & H3).
  split; [now apply edges_strip | exact H3].
Qed.

Lemma join_nothing (l : list str) : join [] l = concat l.
Proof.
  induction l as [|p l IH]; [reflexivity|].
  destruct l as [|q l]; [cbn; now rewrite app_nil_r|].
  change (join [] (p :: q :: l)) with (p ++ [] ++ join [] (q :: l)).
  rewrite IH. reflexivity.
Qed.

Lemma stripped_pieces (l : list str) :
  Forall (fun p => p <> [] /\ strip p = p)
    (filter (fun s => negb (is_empty s)) (map strip l)).
Proof.
  apply Forall_forall. intros p Hp. apply filter_In in Hp.
  destruct Hp as [Hin Hne]. apply in_map_iff in Hin.
  destruct Hin as (x & <- & _). split; [|apply strip_idem].
  destruct (strip x); [discriminate | discriminate].
Qed.

Lemma get_text_strip_trimmed n :
  strip (Parser.get_text_strip n) = Parser.get_text_strip n.
Proof.
  unfold Parser.get_text_strip. rewrite <- join_nothing.
  apply join_trimmed, stripped_pieces.
Qed.

(** The white space of [s] is single spaces; [in_run] tells that a
    space stands before [s]. *)
Fixpoint spaced (in_run : bool) (s : str) : bool :=
  match s with
  | [] => true
  | c :: s' =>
      if is_space c then (c =? 32)%N && negb in_run && spaced true s'
      else spaced false s'
  end.

Lemma spaced_collapse b s : spaced b (collapse_ws_from b s) = true.
Proof.
  revert b. induction s as [|c s IH]; intros b; [reflexivity|].
  cbn [collapse_ws_from]. destruct (is_space c) eqn:Hc.
  - destruct b; [apply IH|]. cbn [spaced].
    change (is_space 32%N) with true. cbn [andb negb N.eqb Pos.eqb].
    apply IH.
  - cbn [spaced]. rewrite Hc. apply IH.
Qed.

Lemma collapse_spaced b s : spaced b s = true -> collapse_ws_from b s = s.
Proof.
  revert b. induction s as [|c s IH]; intros b H; [reflexivity|].
  cbn [spaced collapse_ws_from] in *. destruct (is_space c) eqn:Hc.
  - apply andb_true_iff in H. destruct H as [H Hs].
    apply andb_true_iff in H. destruct H as [H32 Hb].
    apply negb_true_iff in Hb. subst b. apply N.eqb_eq in H32. subst c.
    f_equal. now apply IH.
  - f_equal. now apply IH.
Qed.

Lemma spaced_weaken b s : spaced b s = true -> spaced false s = true.
Proof.
  destruct s as [|c s]; [reflexivity|]. cbn [spaced].
  destruct (is_space c); [|auto]. intros H.
  apply andb_true_iff in H. destruct H as [H Hs].
  apply andb_true_iff in H. destruct H as [H32 _].
  now rewrite H32, Hs.
Qed.

Lemma spaced_lstrip s : spaced false s = true -> spaced false (lstrip s) = true.
Proof.
  unfold lstrip. induction s as [|c s IH]; [reflexivity|].
  intros H. cbn [drop_while]. destruct (is_space c) eqn:Hc; [|exact H].
  apply IH. cbn [spaced] in H. rewrite Hc in H.
  apply andb_true_iff in H. destruct H as [_ H].
  now apply spaced_weaken in H.
Qed.

Lemma spaced_prefix b a t : spaced b (a ++ t) = true -> spaced b a = true.
Proof.
  revert b. induction a as [|c a IH]; intros b H; [reflexivity|].
  cbn [app spaced] in *. destruct (is_space c).
  - apply andb_true_iff in H. destruct H as [H Hs].
    rewrite H. now apply IH.
  - now apply IH.
Qed.

(** A text that was collapsed and stripped stays as it is under both
    operations. *)
Lemma collapse_strip_fixed s :
  collapse_ws (strip (collapse_ws s)) = strip (collapse_ws s).
Proof.
  unfold collapse_ws at 1. apply collapse_spaced.
  unfold strip.
  destruct (rstrip_prefix (lstrip (collapse_ws s))) as (sp & Hsp & _).
  apply (spaced_prefix false _ sp). rewrite <- Hsp.
  apply spaced_lstrip. apply spaced_collapse.
Qed.

End Trimmed.

Section ParsedPages.
Context {db : UnicodeDB}.
Import Parser ParserSpec.

Lemma block_of_shape element b :
  In b (block_of element) ->
  20 < length (block_text b)
  /\ block_type b = block_tag b
  /\ In (block_type b) [py "p"; py "li"; py "td"; py "th"]
  /\ trimmed (block_text b).
Proof.
  unfold block_of. destruct element as [s | name attrs children];
    [intros []|].
  destruct (str_in name _) eqn:Hname; [|intros []].
  destruct (negb (is_empty _) && (20 <? length _)) eqn:E; [|intros []].
  intros [<-|[]]. cbn [block_text block_type block_tag].
  apply andb_true_iff in E. destruct E as [_ E]. apply Nat.ltb_lt in E.
  repeat split; [exact E | now apply str_in_In|].
  apply get_text_strip_trimmed.
Qed.

Lemma heading_of_shape lvl t h :
  In h (heading_of lvl t) ->
  level h = lvl /\ tag h = h_name lvl /\ text h <> [] /\ trimmed (text h).
Proof.
  unfold heading_of.
  destruct (get_text_strip t) as [|c r] eqn:E; cbn [is_empty negb];
    [intros []|].
  intros [<-|[]]. cbn [level tag text].
  repeat split; [discriminate|].
  unfold trimmed. rewrite <- E. apply get_text_strip_trimmed.
Qed.

(** X23.  The page that [parse] returns carries the URL it was given;
    its title, the text of each heading and the text of each content
    block have no white space at either end; a heading has a text that
    is not empty, a level from 1 to 4 and the tag of its level; a
    content block is a [p], [li], [td] or [th] with a text of more than
    20 characters; the page text has no white space at either end and
    single spaces for white space.  All of it is read from the soup
    without its boilerplate. *)
Theorem parse_shape s url :
  let page := parse s url in
  let clean := flat_map (without BOILERPLATE_SELECTORS) s in
  pp_url page = url
  /\ pp_title page = _extract_title clean
  /\ pp_headings page = _extract_headings clean
  /\ pp_content_blocks page = _extract_content_blocks clean
  /\ pp_text page = _extract_text clean
  /\ trimmed (pp_title page)
  /\ Forall (fun h => (1 <= level h <= 4)%Z
                      /\ tag h = h_name (level h)
                      /\ text h <> []
                      /\ trimmed (text h))
       (pp_headings page)
  /\ Forall (fun b => 20 < length (block_text b)
                      /\ block_type b = block_tag b
                      /\ In (block_type b) [py "p"; py "li"; py "td"; py "th"]
                      /\ trimmed (block_text b))
       (pp_content_blocks page)
  /\ trimmed (pp_text page)
  /\ single_spaced (pp_text page).
Proof.
  cbv zeta. unfold parse.
  cbn [pp_url pp_title pp_headings pp_content_blocks pp_text].
  unfold _remove_boilerplate. rewrite decompose_all.
  set (clean := flat_map (without BOILERPLATE_SELECTORS) s).
  repeat (split; [reflexivity|]).
  split; [|split; [|split; [|split]]].
  - unfold trimmed, _extract_title, find.
    destruct (find_all (py "title") clean) as [|t ts];
      cbn [is_empty negb].
    + destruct (find_all (py "h1") clean); [reflexivity|].
      apply get_text_strip_trimmed.
    + destruct (is_empty (get_text_strip t)) eqn:E; cbn [negb].
      * destruct (find_all (py "h1") clean); [reflexivity|].
        apply get_text_strip_trimmed.
      * apply get_text_strip_trimmed.
  - apply Forall_forall. intros h Hh. unfold _extract_headings in Hh.
    apply in_flat_map in Hh. destruct Hh as (lvl & Hlvl & Hh).
    apply in_flat_map in Hh. destruct Hh as (t & _ & Hh).
    apply heading_of_shape in Hh. destruct Hh as (-> & Htag & Hne & Htr).
    repeat split; try assumption;
      destruct Hlvl as [<-|[<-|[<-|[<-|[]]]]]; lia.
  - apply Forall_forall. intros b Hb. unfold _extract_content_blocks in Hb.
    apply in_flat_map in Hb. destruct Hb as (element & _ & Hb).
    now apply block_of_shape in Hb.
  - unfold trimmed, _extract_text. apply strip_idem.
  - unfold single_spaced, _extract_text. apply collapse_strip_fixed.
Qed.

End ParsedPages.

Section Title.
Import Parser ParserSpec.

(** X24.  The title of a soup whose first [title] tag has a text is
    that text.  Without such a tag the title is the text of the first
    [h1], empty when there is no [h1] or when the first one is empty,
    whatever later ones hold; a title taken from the first [h1] is the
    text of the first heading that [_extract_headings] reports. *)
Theorem extract_title_cases s :
  let title := _extract_title s in
  let first_h1 :=
    match find (py "h1") s with
    | Some h1 => get_text_strip h1
    | None => []
    end in
  (forall title_tag,
      find (py "title") s = Some title_tag ->
      get_text_strip title_tag <> [] ->
      title = get_text_strip title_tag)
  /\ ((forall title_tag,
          find (py "title") s = Some title_tag ->
          get_text_strip title_tag = []) ->
      title = first_h1
      /\ (title <> [] ->
          exists id rest,
            _extract_headings s = Heading 1 title id (py "h1") :: rest)).
Proof.
  cbv zeta. unfold _extract_title. split.
  - intros title_tag -> Hne.
    destruct (get_text_strip title_tag); [congruence | reflexivity].
  - intros Hnone.
    assert (Hempty : match find (py "title") s with
                     | Some title_tag => get_text_strip title_tag
                     | None => []
                     end = []).
    { destruct (find (py "title") s) as [t|]; [now apply Hnone|].
      reflexivity. }
    rewrite Hempty. cbn [is_empty negb]. split; [reflexivity|].
    unfold find, _extract_headings. cbn [flat_map].
    change (h_name 1) with (py "h1").
    destruct (find_all (py "h1") s) as [|h1 rest]; [congruence|].
    intros Hne. cbn [flat_map]. unfold heading_of at 1.
    destruct (get_text_strip h1) as [|c r] eqn:E; [congruence|].
    cbn [is_empty negb app]. change (h_name 1) with (py "h1").
    eexists _, _. reflexivity.
Qed.

End Title.

Section SectionContent.
Import Parser ParserSpec.
Variable int_of_char : char -> option Z.

Lemma section_loop_texts lvl fuel (before : list node) rest parts :
  forallb is_text before = true ->
  length before <= fuel ->
  section_loop int_of_char lvl fuel (before ++ rest) parts
  = section_loop int_of_char lvl (fuel - length before) rest parts.
Proof.
  revert fuel. induction before as [|n before IH]; intros fuel Ht Hlen.
  - cbn [app length]. now rewrite Nat.sub_0_r.
  - cbn [forallb] in Ht. apply andb_true_iff in Ht.
    destruct Ht as [Hn Ht]. cbn [length] in Hlen.
    destruct fuel as [|fuel]; [lia|].
    destruct n as [[|c t] | name attrs children]; try discriminate.
    cbn [app section_loop length Nat.sub]. apply IH; [exact Ht | lia].
Qed.

Lemma section_loop_bounded lvl fuel (siblings : list node) parts :
  section_loop int_of_char lvl fuel (firstn fuel siblings) parts
  = section_loop int_of_char lvl fuel siblings parts.
Proof.
  revert siblings parts.
  induction fuel as [|fuel IH]; intros siblings parts.
  - destruct siblings; reflexivity.
  - destruct siblings as [|n rest]; [reflexivity|].
    cbn [firstn section_loop].
    destruct n as [[|c t] | name attrs children];
      [reflexivity | apply IH|].
    destruct (startswith (py "h") name).
    + destruct (level_of_name int_of_char name) as [raised|next_level];
        [reflexivity|].
      destruct (next_level <=? lvl)%Z; [reflexivity | apply IH].
    + apply IH.
Qed.

(** X25.  [extract_section_content] looks at no more than [max_depth]
    siblings of the heading, text nodes counted, and returns the empty
    string when [max_depth] is zero or negative.  It raises when it
    comes, within that reach and after text nodes only, to a tag whose
    name starts with [h] and goes on with no decimal digit, as [hr]
    does: [int] raises [ValueError], and for the name [h] the index
    raises [IndexError]. *)
Theorem extract_section_content_reach heading_name siblings max_depth :
  extract_section_content int_of_char heading_name
    (firstn (Z.to_nat max_depth) siblings) max_depth
  = extract_section_content int_of_char heading_name siblings max_depth
  /\ (forall level,
         (max_depth <= 0)%Z ->
         level_of_name int_of_char heading_name = inr level ->
         extract_section_content int_of_char heading_name siblings max_depth
         = Returned [])
  /\ (forall level before name attrs children rest raised,
         level_of_name int_of_char heading_name = inr level ->
         startswith (py "h") heading_name = true ->
         siblings = before ++ Tag name attrs children :: rest ->
         forallb is_text before = true ->
         (Z.of_nat (length before) < max_depth)%Z ->
         startswith (py "h") name = true ->
         level_of_name int_of_char name = inl raised ->
         extract_section_content int_of_char heading_name siblings max_depth
         = raised).
Proof.
  unfold extract_section_content. split; [|split].
  - destruct (if startswith (py "h") heading_name
              then level_of_name int_of_char heading_name
              else inr 1%Z) as [raised|lvl]; [reflexivity|].
    apply section_loop_bounded.
  - intros level Hmax Hlevel. rewrite Hlevel.
    replace (Z.to_nat max_depth) with 0 by lia.
    destruct (startswith (py "h") heading_name); reflexivity.
  - intros level before name attrs children rest raised
      Hlevel Hh -> Htexts Hlen Hname Hraise.
    rewrite Hh, Hlevel.
    rewrite section_loop_texts by (try assumption; lia).
    destruct (Z.to_nat max_depth - length before) as [|fuel] eqn:E;
      [lia|].
    cbn [section_loop]. now rewrite Hname, Hraise.
Qed.

End SectionContent.

(** ** Strategy 1: modules of the same name are merged *)

Section Merging.
Context {db : UnicodeDB} {ul : UrlLib}.
Import Inference InferenceSpec.

Lemma dict_get_keys {V} (d : dict V) k :
  In k (map fst d) <-> exists v, dict_get k d = Some v.
Proof.
  rewrite <- dict_mem_In. unfold dict_mem.
  destruct (dict_get k d) as [v|]; split; try discriminate.
  - intros _. now exists v.
  - reflexivity.
  - intros [v [=]].
Qed.

Lemma dict_get_set_other {V} (d : dict V) k k' v :
  k <> k' -> dict_get k (dict_set k' v d) = dict_get k d.
Proof.
  intros H. rewrite dict_get_set.
  apply str_eqb_neq in H. now rewrite H.
Qed.

Lemma dict_get_set_same {V} (d : dict V) k v :
  dict_get k (dict_set k v d) = Some v.
Proof. now rewrite dict_get_set, str_eqb_refl. Qed.

(** The loop that adds the submodules not yet known to a module. *)
Lemma add_subs_get name (subs : dict str) :
  forall (modules : dict ModuleNode) md,
    dict_get name modules = Some md ->
    let R :=
      fold_left
        (fun modules sub =>
           match dict_get name modules with
           | Some md =>
               if negb (dict_mem (fst sub) (submodules md))
               then dict_set name
                      (ModuleData
                         (dict_set (fst sub) (snd sub) (submodules md))
                         (content md) (module_url md) (description md))
                      modules
               else modules
           | None => modules
           end)
        subs modules in
    (exists md',
        dict_get name R = Some md'
        /\ content md' = content md
        /\ module_url md' = module_url md
        /\ forall sub,
            In sub (map fst (submodules md'))
            <-> In sub (map fst (submodules md)) \/ In sub (map fst subs))
    /\ (forall k, k <> name -> dict_get k R = dict_get k modules).
Proof.
  induction subs as [|[k0 v0] subs IH]; intros modules md Hget; cbv zeta.
  - cbn [fold_left map In]. split; [|reflexivity].
    exists md. repeat split; try assumption; tauto.
  - cbn [fold_left fst snd]. rewrite Hget.
    destruct (dict_mem k0 (submodules md)) eqn:Hmem; cbn [negb].
    + destruct (IH modules md Hget) as [(md' & H1 & H2 & H3 & H4) H5].
      split; [|exact H5].
      exists md'. repeat split; try assumption.
      * intros H. apply H4 in H. cbn [map fst In]. tauto.
      * intros [H|[<-|H]]; apply H4; auto.
        left. now apply dict_mem_In.
    + set (md1 := ModuleData (dict_set k0 v0 (submodules md))
                    (content md) (module_url md) (description md)).
      destruct (IH (dict_set name md1 modules) md1
                  (dict_get_set_same _ _ _))
        as [(md' & H1 & H2 & H3 & H4) H5].
      split.
      * exists md'. repeat split; try assumption.
        -- intros H. apply H4 in H. cbn [md1 submodules] in H.
           rewrite dict_set_keys_In in H. cbn [map fst In].
           destruct H as [[->|H]|H]; auto.
        -- intros H. apply H4. cbn [md1 submodules].
           rewrite dict_set_keys_In. cbn [map fst In] in H.
           destruct H as [H|[<-|H]]; auto.
      * intros k Hk. rewrite (H5 k Hk). now apply dict_get_set_other.
Qed.

Lemma add_module_get name h subs cm pm (modules : dict ModuleNode) :
  let R := add_module name h subs cm pm modules in
  (forall k, k <> name -> dict_get k R = dict_get k modules)
  /\ exists md',
      dict_get name R = Some md'
      /\ match dict_get name modules with
         | Some md =>
             content md' = content md
             /\ module_url md' = module_url md
             /\ forall sub,
                 In sub (map fst (submodules md'))
                 <-> In sub (map fst (submodules md))
                     \/ In sub (map fst subs)
         | None =>
             content md' = module_content_for (url h) (text h) cm pm
             /\ module_url md' = url h
             /\ forall sub,
                 In sub (map fst (submodules md'))
                 <-> In sub (map fst subs)
         end.
Proof.
  cbv zeta. unfold add_module, dict_mem.
  destruct (dict_get name modules) as [md|] eqn:Hget; cbn [negb].
  - destruct (add_subs_get name subs modules md Hget)
      as [(md' & H1 & H2 & H3 & H4) H5].
    split; [exact H5|]. exists md'. auto.
  - set (md0 := ModuleData []
                  (module_content_for (url h) (text h) cm pm) (url h) None).
    destruct (add_subs_get name subs (dict_set name md0 modules) md0
                (dict_get_set_same _ _ _))
      as [(md' & H1 & H2 & H3 & H4) H5].
    split.
    + intros k Hk.
      etransitivity; [exact (H5 k Hk) | now apply dict_get_set_other].
    + exists md'. repeat split; try assumption.
      * intros H. apply H4 in H. cbn [md0 submodules map In] in H. tauto.
      * intros H. apply H4. now right.
Qed.

(** What the loop of strategy 1 holds after the level-1 headings
    [done]: a module for every usable cleaned text, with the URL and
    the content of the first heading of that text and the submodules
    of all of them. *)
Definition merged (F : heading -> dict str) (cm : dict str)
    (pm : dict page_content) (done : list heading)
    (R : dict ModuleNode) : Prop :=
  (forall name,
      In name (map fst R)
      <-> exists h, In h done /\ name = _clean_heading (text h)
                    /\ name_ok name = true)
  /\ forall name data,
      dict_get name R = Some data ->
      (forall sub,
          In sub (map fst (submodules data))
          <-> exists h, In h done /\ _clean_heading (text h) = name
                        /\ In sub (map fst (F h)))
      /\ exists before h0 after,
          done = before ++ h0 :: after
          /\ _clean_heading (text h0) = name
          /\ (forall h, In h before -> _clean_heading (text h) <> name)
          /\ module_url data = url h0
          /\ content data = module_content_for (url h0) (text h0) cm pm.

Lemma merged_step F cm pm done R h :
  merged F cm pm done R ->
  merged F cm pm (done ++ [h])
    (let name := _clean_heading (text h) in
     if negb (name_ok name) then R
     else add_module name h (F h) cm pm R).
Proof.
  intros [Hkeys Hdata]. cbv zeta.
  destruct (name_ok (_clean_heading (text h))) eqn:Hname; cbn [negb].
  - (* the heading makes or extends a module *)
    set (name := _clean_heading (text h)) in *.
    destruct (add_module_get name h (F h) cm pm R) as [Hother Hsame].
    cbv zeta in Hother, Hsame.
    destruct Hsame as (md' & Hget' & Hmd').
    split.
    + intros k. rewrite dict_get_keys.
      destruct (str_eq_dec k name) as [->|Hk].
      * split; [|intros _; now exists md'].
        intros _. exists h. split; [apply in_or_app; right; now left|].
        now split.
      * rewrite (Hother k Hk), <- dict_get_keys, Hkeys. split.
        -- intros (h' & Hin & Hh'). exists h'.
           split; [apply in_or_app; now left | exact Hh'].
        -- intros (h' & Hin & Hh' & Hok). apply in_app_or in Hin.
           destruct Hin as [Hin|[<-|[]]]; [now exists h'|].
           (unfold name in *; congruence).
    + intros k data Hget.
      destruct (str_eq_dec k name) as [->|Hk].
      * rewrite Hget' in Hget. injection Hget as <-.
        destruct (dict_get name R) as [md|] eqn:Hold.
        -- destruct Hmd' as (Hc & Hu & Hsubs).
           destruct (Hdata name md Hold)
             as (Hsubs_old & before & h0 & after & -> & H0 & Hb & Hu0 & Hc0).
           split.
           ++ intros sub. rewrite Hsubs, Hsubs_old. split.
              ** intros [(h' & Hin & Hh')|H].
                 --- exists h'. split; [apply in_or_app; now left|].
                     exact Hh'.
                 --- exists h. split; [apply in_or_app; right; now left|].
                     now split.
              ** intros (h' & Hin & Hh' & Hsub). apply in_app_or in Hin.
                 destruct Hin as [Hin|[<-|[]]]; [left; now exists h'|].
                 now right.
           ++ exists before, h0, (after ++ [h]).
              rewrite <- app_assoc. cbn [app].
              repeat split; try assumption; (unfold name in *; congruence).
        -- destruct Hmd' as (Hc & Hu & Hsubs).
           assert (Hnew : forall h', In h' done ->
                                     _clean_heading (text h') <> name).
           { intros h' Hin E.
             assert (Hk : In name (map fst R)).
             { apply Hkeys. exists h'. split; [exact Hin|].
               split; [now symmetry|]. exact Hname. }
             apply dict_get_keys in Hk. destruct Hk as [v Hv].
             unfold name in *. congruence. }
           split.
           ++ intros sub. rewrite Hsubs. split.
              ** intros H. exists h.
                 split; [apply in_or_app; right; now left|]. now split.
              ** intros (h' & Hin & Hh' & Hsub). apply in_app_or in Hin.
                 destruct Hin as [Hin|[<-|[]]]; [|exact Hsub].
                 exfalso. now apply (Hnew h').
           ++ exists done, h, []. repeat split; assumption.
      * rewrite (Hother k Hk) in Hget.
        destruct (Hdata k data Hget)
          as (Hsubs_old & before & h0 & after & -> & H0 & Hb & Hu0 & Hc0).
        split.
        -- intros sub. rewrite Hsubs_old. split.
           ++ intros (h' & Hin & Hh'). exists h'.
              split; [apply in_or_app; now left | exact Hh'].
           ++ intros (h' & Hin & Hh' & Hsub). apply in_app_or in Hin.
              destruct Hin as [Hin|[<-|[]]]; [now exists h'|].
              (unfold name in *; congruence).
        -- exists before, h0, (after ++ [h]).
           rewrite <- app_assoc. cbn [app].
           repeat split; assumption.
  - (* the heading has no usable name *)
    split.
    + intros k. rewrite Hkeys. split.
      * intros (h' & Hin & Hh'). exists h'.
        split; [apply in_or_app; now left | exact Hh'].
      * intros (h' & Hin & Hh' & Hok). apply in_app_or in Hin.
        destruct Hin as [Hin|[<-|[]]]; [now exists h'|].
        subst k. congruence.
    + intros k data Hget.
      destruct (Hdata k data Hget)
        as (Hsubs_old & before & h0 & after & -> & H0 & Hb & Hu0 & Hc0).
      split.
      * intros sub. rewrite Hsubs_old. split.
        -- intros (h' & Hin & Hh'). exists h'.
           split; [apply in_or_app; now left | exact Hh'].
        -- intros (h' & Hin & Hh' & Hsub). apply in_app_or in Hin.
           destruct Hin as [Hin|[<-|[]]]; [now exists h'|].
           assert (Hk : In k (map fst R))
             by (apply dict_get_keys; now exists data).
           apply Hkeys in Hk. destruct Hk as (h' & _ & -> & Hok).
           rewrite <- Hh' in Hok. congruence.
      * exists before, h0, (after ++ [h]).
        rewrite <- app_assoc. cbn [app].
        repeat split; assumption.
Qed.

Lemma merged_fold F cm pm (step : dict ModuleNode -> heading -> dict ModuleNode)
    rest done R :
  (forall R h,
      step R h
      = (let name := _clean_heading (text h) in
         if negb (name_ok name) then R
         else add_module name h (F h) cm pm R)) ->
  merged F cm pm done R ->
  merged F cm pm (done ++ rest) (fold_left step rest R).
Proof.
  intros Hstep. revert done R.
  induction rest as [|h rest IH]; intros done R H.
  - now rewrite app_nil_r.
  - cbn [fold_left].
    change (h :: rest) with ([h] ++ rest). rewrite app_assoc.
    apply IH. rewrite Hstep. now apply merged_step.
Qed.

(** X26.  Strategy 1 merges the level-1 headings that have the same
    cleaned text, across pages: there is a module for every cleaned
    text of three characters or more, it has the URL and the content
    that the first heading of that text gives, and its submodules are
    those of all the headings of that text. *)
Theorem strategy_h1_merges hs cm pm :
  let h1s := filter (fun h => (level h =? 1)%Z) hs in
  let subs_of h :=
    _find_submodules_for_module h
      (filter (fun h => (level h =? 2)%Z) hs)
      (filter (fun h => (level h =? 3)%Z) hs) hs in
  let modules := strategy_h1 hs cm pm in
  (forall name,
      In name (map fst modules)
      <-> exists h, In h h1s /\ name = _clean_heading (text h)
                    /\ name_ok name = true)
  /\ (forall name data,
         In (name, data) modules ->
         (forall sub,
             In sub (map fst (submodules data))
             <-> exists h, In h h1s /\ _clean_heading (text h) = name
                           /\ In sub (map fst (subs_of h)))
         /\ exists before h0 after,
             h1s = before ++ h0 :: after
             /\ _clean_heading (text h0) = name
             /\ (forall h, In h before -> _clean_heading (text h) <> name)
             /\ module_url data = url h0
             /\ content data
                = module_content_for (url h0) (text h0) cm pm).
Proof.
  intros h1s subs_of modules.
  assert (H : merged subs_of cm pm ([] ++ h1s) modules).
  { apply merged_fold; [reflexivity|]. split.
    - intros name. cbn [map In]. split; [intros [] | intros (h & [] & _)].
    - intros name data [=]. }
  cbn [app] in H. destruct H as [Hkeys Hdata].
  split; [exact Hkeys|].
  intros name data Hin. apply Hdata.
  apply dict_In_get; [|exact Hin].
  apply (strategy_h1_well_formed hs cm pm).
Qed.

End Merging.

(** ** The summarizer: text without noise *)

Section PlainText.
Context {db : UnicodeDB}.
Import Regex Summarizer SummarizerSpec.

Lemma ci_search_suffix p before rest :
  ci_search p (before ++ rest) = false -> ci_startswith p rest = false.
Proof.
  induction before as [|c before IH]; cbn [app].
  - destruct rest; cbn [ci_search]; intros H;
      apply orb_false_iff in H; tauto.
  - cbn [ci_search]. intros H. apply orb_false_iff in H. tauto.
Qed.

Lemma contains_suffix p before rest :
  contains p (before ++ rest) = false -> startswith p rest = false.
Proof.
  induction before as [|c before IH]; cbn [app].
  - destruct rest; cbn [contains]; intros H;
      apply orb_false_iff in H; tauto.
  - cbn [contains]. intros H. apply orb_false_iff in H. tauto.
Qed.

Lemma startswith_app a p s :
  startswith (a ++ p) s = true -> startswith p (skipn (length a) s) = true.
Proof.
  revert s. induction a as [|x a IH]; intros s; [trivial|].
  cbn [app startswith length]. destruct s as [|y s]; [discriminate|].
  intros H. apply andb_true_iff in H. cbn [skipn]. now apply IH.
Qed.

Lemma no_url_without_separator t :
  contains (py "://") t = false -> no_match m_url t.
Proof.
  intros H before rest ->. unfold m_url.
  assert (Hs : forall a, startswith (a ++ py "://") rest = false).
  { intros a. destruct (startswith (a ++ py "://") rest) eqn:E;
      [|reflexivity].
    apply startswith_app in E.
    rewrite <- (firstn_skipn (length a) rest), app_assoc in H.
    apply contains_suffix in H. congruence. }
  change (py "https://") with (py "https" ++ py "://").
  change (py "http://") with (py "http" ++ py "://").
  now rewrite !Hs.
Qed.

Lemma no_email_without_at t :
  has_char 64%N t = false -> no_match m_email t.
Proof.
  intros H before rest ->. unfold m_email.
  destruct (take_while not_space rest) as [|c run] eqn:E; [reflexivity|].
  destruct (existsb (N.eqb 64) (removelast run)) eqn:Hat; [|reflexivity].
  exfalso. apply existsb_exists in Hat. destruct Hat as (x & Hx & Hx64).
  apply N.eqb_eq in Hx64. subst x.
  assert (Hin : In 64%N rest).
  { rewrite <- (take_drop_while not_space rest), E.
    apply in_or_app. left. right.
    destruct run as [|d run]; [contradiction|].
    rewrite (app_removelast_last 0%N (l := d :: run)) by discriminate.
    apply in_or_app. now left. }
  unfold has_char in H.
  assert (Ht : existsb (N.eqb 64) (before ++ rest) = true).
  { apply existsb_exists. exists 64%N.
    split; [apply in_or_app; now right | apply N.eqb_refl]. }
  congruence.
Qed.

Lemma no_noise_without_lead_in lead_in t :
  ci_search lead_in t = false -> no_match (m_noise lead_in) t.
Proof.
  intros H before rest ->. unfold m_noise.
  now rewrite (ci_search_suffix _ _ _ H).
Qed.

(** X27.  Cleaning leaves plain text alone but for its white space:
    when the content, with its white space collapsed and its ends
    stripped, holds none of the lead-ins in any case, no [://] and no
    [@], [_clean_content] returns just that. *)
Theorem clean_content_plain_text content :
  let text := strip (collapse_ws content) in
  existsb (fun lead_in => ci_search lead_in text) noise_lead_ins = false ->
  contains (py "://") text = false ->
  has_char 64%N text = false ->
  _clean_content content = text.
Proof.
  intros text Hnoise Hurl Hat. unfold _clean_content. fold text.
  assert (Hloop : forall lead_ins,
             existsb (fun lead_in => ci_search lead_in text) lead_ins
             = false ->
             fold_left (fun c lead_in => sub_del (m_noise lead_in) c)
               lead_ins text = text).
  { induction lead_ins as [|l ls IH]; [reflexivity|].
    cbn [existsb fold_left]. intros H. apply orb_false_iff in H.
    destruct H as [Hl Hls].
    rewrite (sub_del_no_match (m_noise l) text
               (no_noise_without_lead_in _ _ Hl)).
    now apply IH. }
  rewrite (Hloop _ Hnoise).
  rewrite (sub_del_no_match m_url text (no_url_without_separator _ Hurl)).
  rewrite (sub_del_no_match m_email text (no_email_without_at _ Hat)).
  apply strip_idem.
Qed.

End PlainText.

(** A sentence between white space. *)
Lemma clean_content_plain_text_witness :
  @Summarizer._clean_content ascii_db
    (py "  The billing   module provides invoices. ")
  = py "The billing module provides invoices.".
Proof.
  rewrite (@clean_content_plain_text ascii_db); reflexivity.
Defined.

(** ** Examples of the parser *)

(** A rule between a heading and its paragraph: the scan of
    [extract_section_content] raises [ValueError] at the [hr]. *)
Lemma extract_section_content_reach_witness :
  Parser.extract_section_content ParserSpec.ascii_int (py "h2")
    [Parser.Text [10%N]; Parser.Tag (py "hr") [] [];
     Parser.Tag (py "p") [] [Parser.Text (py "Refunds take a week.")]]
    3
  = Parser.ValueError.
Proof.
  refine (proj2 (proj2
            (extract_section_content_reach ParserSpec.ascii_int (py "h2")
               _ 3))
            2%Z [Parser.Text [10%N]] (py "hr") [] [] _ Parser.ValueError
            eq_refl eq_refl eq_refl eq_refl _ eq_refl eq_refl).
  reflexivity.
Defined.

(** The page with a navigation bar, parsed: the heading of the bar is
    gone, the title falls back to the [h1], and the texts come without
    the white space around them. *)
Example parse_page_with_nav :
  @Parser.parse ascii_db ParserSpec.page_with_nav
    (py "https://docs.example.com/guide")
  = Parser.ParsedPage (py "https://docs.example.com/guide") (py "Guide")
      [Parser.Heading 1 (py "Guide") [] (py "h1")]
      [Parser.ContentBlock (py "p")
         (py "The guide explains how to set up billing.") (py "p")]
      (py "Guide The guide explains how to set up billing.").
Proof. vm_compute. reflexivity. Qed.
